(** * MiniLM2 interactive inference driver ([minilm2/llm/infer_sft.py])

    A shallow embedding of the conversation engine: context construction
    ([build_context]), history updates ([append_history]), the interactive
    parameter commands, the sampling step and the two decode loops
    (full recompute and cache incremental), followed by the properties
    of the specification that concern them.

    Conventions.
    - A tensor of token ids of shape [1 x n] is the list of its [n] ids.
    - Python [int] is [Z]; Python [float] is a binary64 float ([float]);
      a Python [str] is the [string] of the bytes of its UTF-8 encoding.
    - The tokenizer, the [config] module, the network and the numeric
      libraries are collaborators of the driver; they are records of
      operations that the definitions take as arguments. *)

From Stdlib Require Import ZArith List String Ascii Bool Lia Floats Uint63.
From Stdlib Require Import Permutation Sorted.
Import ListNotations.
Open Scope string_scope.
Open Scope list_scope.
Open Scope Z_scope.

(* ===================================================================== *)
(** ** Python helpers                                                     *)
(* ===================================================================== *)

Module Py.

(** [l[start:]] with CPython's normalisation of the start index: a
    negative start counts from the end and is clamped at 0, a
    non-negative one is clamped at [len(l)]. *)
Definition slice_from {A : Type} (start : Z) (l : list A) : list A :=
  let n := Z.of_nat (List.length l) in
  let s := if start <? 0 then Z.max 0 (n + start) else Z.min start n in
  skipn (Z.to_nat s) l.

(** [l[-1:]]: the last element as a list, [[]] on the empty list. *)
Definition last_slice {A : Type} (l : list A) : list A := slice_from (-1) l.

(** The one-character string [chr(10)]. *)
Definition newline : string := String (ascii_of_nat 10) EmptyString.

(** [s * n] for a string and a count. *)
Fixpoint repeat_string (s : string) (n : nat) : string :=
  match n with
  | O => EmptyString
  | S n' => (s ++ repeat_string s n')%string
  end.

(** Truthiness of [str | None]: [None] and the empty string are false. *)
Definition truthy (s : option string) : bool :=
  match s with
  | Some (String _ _) => true
  | _ => false
  end.

(** [str(x)] for [x : str | None], the text [print] and an f-string
    show for it. *)
Definition show (x : option string) : string :=
  match x with
  | Some s => s
  | None => "None"
  end.

End Py.

(* ===================================================================== *)
(** ** Collaborators: tokenizer and configuration                         *)
(* ===================================================================== *)

(** The [tokenizers.Tokenizer] interface the driver uses:
    [encode(text).ids], [id_to_token(id)] and [get_vocab_size()].
    [id_to_token] returns [None] for an id that is not in the
    vocabulary; the network can produce one when it has more outputs
    than the vocabulary has tokens (line 78 pads the vocabulary of
    [RWKV7] to a power of 2). *)
Record Tokenizer : Type := {
  encode : string -> list Z;
  id_to_token : Z -> option string;
  get_vocab_size : Z
}.

(** The constants of the [config] module read by the driver. *)
Record Config : Type := {
  HUMAN_PREFIX : string;
  AI_PREFIX : string;
  ENABLE_KVCACHE : bool
}.

Definition Turn : Type := (string * string)%type.
Definition History : Type := list Turn.

(* ===================================================================== *)
(** ** Context builder                                                    *)
(* ===================================================================== *)

Section ContextBuilder.

Variable config : Config.
Variable tokenizer : Tokenizer.

Definition human_prefix_ids : list Z := encode tokenizer (HUMAN_PREFIX config).
Definition ai_prefix_ids : list Z := encode tokenizer (AI_PREFIX config).
Definition separator_ids : list Z :=
  encode tokenizer (Py.repeat_string Py.newline 3).

(** [tokenizer.encode(system_prompt).ids + separator_ids if system_prompt
    else []] *)
Definition system_prompt_ids (system_prompt : option string) : list Z :=
  match system_prompt with
  | Some s => if Py.truthy system_prompt
              then encode tokenizer s ++ separator_ids
              else []
  | None => []
  end.

(** One iteration of the [for i in range(len(history))] loop. *)
Definition build_step (history : History) (ids : list Z) (i : nat) : list Z :=
  let turn := nth i history (EmptyString, EmptyString) in
  let ids := ids ++ (human_prefix_ids ++ encode tokenizer (fst turn) ++ separator_ids) in
  let ids := ids ++ (ai_prefix_ids ++ encode tokenizer (snd turn)) in
  if Z.of_nat i <? Z.of_nat (List.length history) - 1
  then ids ++ separator_ids
  else ids.

(** The value of [ids] when the loop ends. *)
Definition turn_ids (history : History) : list Z :=
  fold_left (build_step history) (seq 0 (List.length history)) [].

(** [build_context(history, tokenizer, max_length, system_prompt)] *)
Definition build_context (history : History) (max_length : Z)
           (system_prompt : option string) : list Z :=
  let sp := system_prompt_ids system_prompt in
  sp ++ Py.slice_from (Z.of_nat (List.length sp) - max_length) (turn_ids history).

(** The layout the specification gives for the turn portion: one block
    per turn, the separator between consecutive blocks only. *)
Definition spec_turn_block (t : Turn) : list Z :=
  human_prefix_ids ++ encode tokenizer (fst t) ++ separator_ids
    ++ ai_prefix_ids ++ encode tokenizer (snd t).

Fixpoint spec_turn_layout (history : History) : list Z :=
  match history with
  | [] => []
  | [t] => spec_turn_block t
  | t :: rest => spec_turn_block t ++ separator_ids ++ spec_turn_layout rest
  end.

End ContextBuilder.

(** [append_history(history, role, text)]; [None] is the [IndexError] of
    [history[-1]] on an empty history. *)
Definition append_history (history : History) (role : string) (text : string)
  : option History :=
  if String.eqb role "human" then Some (history ++ [(text, EmptyString)])
  else match rev history with
       | [] => None
       | last_turn :: before => Some (rev before ++ [(fst last_turn, text)])
       end.

(* ===================================================================== *)
(** ** Python floats                                                      *)
(* ===================================================================== *)

Module PyFloat.

(** The integer nearest to [m * 2^e], ties to the even one. *)
Definition round_half_even (m : positive) (e : Z) : Z :=
  if 0 <=? e then Z.pos m * 2 ^ e
  else
    let d := 2 ^ (- e) in
    let q := Z.pos m / d in
    let r := Z.pos m mod d in
    match 2 * r ?= d with
    | Lt => q
    | Gt => q + 1
    | Eq => if Z.even q then q else q + 1
    end.

(** [round(x)] for a float: [None] is the [ValueError] raised on NaN and
    the [OverflowError] raised on an infinity. *)
Definition round (x : float) : option Z :=
  match Prim2SF x with
  | S754_zero _ => Some 0
  | S754_infinity _ => None
  | S754_nan => None
  | S754_finite s m e =>
      Some (if s then - round_half_even m e else round_half_even m e)
  end.

(** [float(n)] for an int of magnitude below [2^63]. *)
Definition of_int (n : Z) : float :=
  if n <? 0 then PrimFloat.opp (PrimFloat.of_uint63 (Uint63.of_Z (- n)))
  else PrimFloat.of_uint63 (Uint63.of_Z n).

(** [n * x] for an int [n] and a float [x]. *)
Definition int_mul (n : Z) (x : float) : float := PrimFloat.mul (of_int n) x.

End PyFloat.

(* ===================================================================== *)
(** ** Python strings                                                     *)
(* ===================================================================== *)

Module PyStr.

(** A Python [str] is modelled by its UTF-8 encoding, one [ascii] per
    byte. Comparison, concatenation, [startswith] with an ASCII prefix,
    and the last character when it is an ASCII one are then the
    operations on bytes. Whitespace is what [str.isspace] says of a
    character: U+0009..U+000D, U+001C..U+0020, U+0085, U+00A0, U+1680,
    U+2000..U+200A, U+2028, U+2029, U+202F, U+205F and U+3000. *)

(** The whitespace characters of one byte. *)
Definition isspace (c : ascii) : bool :=
  let n := nat_of_ascii c in
  ((9 <=? n) && (n <=? 13) || (28 <=? n) && (n <=? 32))%nat.

(** The whitespace characters of two bytes: U+0085 and U+00A0. *)
Definition isspace2 (a b : ascii) : bool :=
  let x := nat_of_ascii a in
  let y := nat_of_ascii b in
  ((x =? 194) && ((y =? 133) || (y =? 160)))%nat.

(** The whitespace characters of three bytes: U+1680, U+2000..U+200A,
    U+2028, U+2029, U+202F, U+205F and U+3000. *)
Definition isspace3 (a b c : ascii) : bool :=
  let x := nat_of_ascii a in
  let y := nat_of_ascii b in
  let z := nat_of_ascii c in
  ((x =? 225) && (y =? 154) && (z =? 128)
   || (x =? 226) && (y =? 128)
      && ((128 <=? z) && (z <=? 138) || (z =? 168) || (z =? 169) || (z =? 175))
   || (x =? 226) && (y =? 129) && (z =? 159)
   || (x =? 227) && (y =? 128) && (z =? 128))%nat.

(** Does [s] begin with a whitespace character? With [backwards] the
    bytes of [s] are read as those of a reversed string, so that the
    test is for a whitespace character at the end of that string. *)
Definition space_first (backwards : bool) (s : string) : bool :=
  match s with
  | EmptyString => false
  | String a r1 =>
      isspace a
      || match r1 with
         | EmptyString => false
         | String b r2 =>
             (if backwards then isspace2 b a else isspace2 a b)
             || match r2 with
                | EmptyString => false
                | String c _ => if backwards then isspace3 c b a else isspace3 a b c
                end
         end
  end.

(** [text.split()]: the maximal runs of characters that are not
    whitespace. [cur] is the run being read, reversed. *)
Fixpoint split_aux (s : string) (cur : list ascii) : list string :=
  let flush := match cur with
               | [] => []
               | _ => [string_of_list_ascii (rev cur)]
               end in
  match s with
  | EmptyString => flush
  | String a r1 =>
      if isspace a then flush ++ split_aux r1 []
      else
        match r1 with
        | EmptyString => split_aux r1 (a :: cur)
        | String b r2 =>
            if isspace2 a b then flush ++ split_aux r2 []
            else
              match r2 with
              | EmptyString => split_aux r1 (a :: cur)
              | String c r3 =>
                  if isspace3 a b c then flush ++ split_aux r3 []
                  else split_aux r1 (a :: cur)
              end
        end
  end.

Definition split (s : string) : list string := split_aux s [].

Definition startswith (text pre : string) : bool := String.prefix pre text.

(** [s] without the whitespace characters it begins with. *)
Fixpoint strip_front (backwards : bool) (s : string) : string :=
  match s with
  | EmptyString => s
  | String a r1 =>
      if isspace a then strip_front backwards r1
      else
        match r1 with
        | EmptyString => s
        | String b r2 =>
            if (if backwards then isspace2 b a else isspace2 a b)
            then strip_front backwards r2
            else
              match r2 with
              | EmptyString => s
              | String c r3 =>
                  if (if backwards then isspace3 c b a else isspace3 a b c)
                  then strip_front backwards r3
                  else s
              end
        end
  end.

(** [text.lstrip()] *)
Definition lstrip (s : string) : string := strip_front false s.

Definition rev_string (s : string) : string :=
  string_of_list_ascii (rev (list_ascii_of_string s)).

(** [text.rstrip()] *)
Definition rstrip (s : string) : string :=
  rev_string (strip_front true (rev_string s)).

(** [text.strip()] *)
Definition strip (s : string) : string := rstrip (lstrip s).

End PyStr.

(* ===================================================================== *)
(** ** Session parameters and the parameter commands                      *)
(* ===================================================================== *)

(** The entries of the [train_config] dictionary the driver reads after
    start-up. *)
Record TrainConfig : Type := {
  max_length : Z;
  system_prompt : option string;
  temperature : float;
  top_p : float
}.

Definition set_top_p (tc : TrainConfig) (v : float) : TrainConfig :=
  {| max_length := max_length tc; system_prompt := system_prompt tc;
     temperature := temperature tc; top_p := v |}.

Definition set_temperature (tc : TrainConfig) (v : float) : TrainConfig :=
  {| max_length := max_length tc; system_prompt := system_prompt tc;
     temperature := v; top_p := top_p tc |}.

(** What the driver prints. *)
Inductive Output : Type :=
| TopPSet (v : float)            (* top_p set to {v}. *)
| TopPUsage                      (* top_p value should be a float between 0 and 1. ... *)
| TemperatureSet (v : float)     (* temperature set to {v}. *)
| TemperatureUsage               (* temperature value should be a float between 0 and 2. ... *)
| HistoryCleared
| ContextTokens (tokens : list string)
| HistoryDump (h : History)
| Token (confidence_level : Z) (token : string)  (* colour [confidence_level + 239] *)
| ResetColour.

Section Commands.

(** The builtin [float(s)]: [None] is its [ValueError]. *)
Variable float_of_str : string -> option float.

(** The body of [if text.startswith("!top_p")]. *)
Definition cmd_top_p (text : string) (tc : TrainConfig) : TrainConfig * Output :=
  match nth_error (PyStr.split text) 1 with
  | None => (tc, TopPUsage)                       (* IndexError *)
  | Some arg =>
      match float_of_str arg with
      | None => (tc, TopPUsage)                   (* ValueError *)
      | Some v =>
          if (PrimFloat.leb v 0 || PrimFloat.ltb 1 v)%bool
          then (tc, TopPUsage)                    (* raise ValueError *)
          else (set_top_p tc v, TopPSet v)
      end
  end.

(** The body of [if text.startswith("!temperature")]. *)
Definition cmd_temperature (text : string) (tc : TrainConfig) : TrainConfig * Output :=
  match nth_error (PyStr.split text) 1 with
  | None => (tc, TemperatureUsage)
  | Some arg =>
      match float_of_str arg with
      | None => (tc, TemperatureUsage)
      | Some v =>
          if (PrimFloat.leb v 0 || PrimFloat.ltb 2 v)%bool
          then (tc, TemperatureUsage)
          else (set_temperature tc v, TemperatureSet v)
      end
  end.

End Commands.

(** The valid domains of the specification. *)
Definition valid_top_p (v : float) : bool :=
  (PrimFloat.ltb 0 v && PrimFloat.leb v 1)%bool.

Definition valid_temperature (v : float) : bool :=
  (PrimFloat.ltb 0 v && PrimFloat.leb v 2)%bool.

(* ===================================================================== *)
(** ** Collaborators: tensor library and network                          *)
(* ===================================================================== *)

(** The numeric operations of the sampling step that libraries
    compute: the tensor operations, on 1-d float tensors, and the power
    [x ** 0.5] of a Python float, which is the [pow] of the C library.
    [None] is the [RuntimeError] the operation raises. The random
    generator is explicit: [multinomial] takes the uniform variate it
    consumes. *)
Record Torch : Type := {
  div_scalar : list float -> float -> list float;          (* x / t *)
  softmax : list float -> list float;                      (* F.softmax(x, dim=-1) *)
  topk : list float -> Z -> option (list float * list Z);  (* x.topk(k) *)
  multinomial : list float -> float -> option nat;         (* torch.multinomial(p, 1) *)
  pow_half : float -> float                                (* x ** 0.5 *)
}.

(** The part of the tensor library's contract the driver depends on:
    [topk] returns [k] values with the [k] distinct indices they sit at,
    and so the empty selection for [k = 0]; no entry it leaves out is
    larger than one it returns; it raises when [k] is outside
    [0 .. len(x)]; [multinomial(p, 1)] returns a position of [p], and
    raises when [p] is empty (one sample, without replacement). *)
Record TorchSpec (T : Torch) : Prop := {
  topk_some : forall x k, 0 <= k <= Z.of_nat (List.length x) ->
      exists vals idxs, topk T x k = Some (vals, idxs);
  topk_shape : forall x k vals idxs, topk T x k = Some (vals, idxs) ->
      0 <= k /\ Z.of_nat (List.length vals) = k /\ List.length idxs = List.length vals /\
      NoDup idxs /\
      forall j, (j < List.length vals)%nat ->
        exists i, nth_error idxs j = Some (Z.of_nat i) /\
                  nth_error x i = nth_error vals j;
  topk_top : forall x k vals idxs, topk T x k = Some (vals, idxs) ->
      forall i w v, nth_error x i = Some w -> ~ In (Z.of_nat i) idxs ->
                    In v vals -> PrimFloat.ltb v w = false;
  multinomial_range : forall p u i, multinomial T p u = Some i ->
      (i < List.length p)%nat;
  multinomial_empty : forall u, multinomial T [] u = None
}.

(** Modelled from the spec: the network classes [NGPT] and [RWKV7] of
    [minilm2/llm/model.py] are not part of the sources at hand. The
    Model Adapter of the specification is a causal language model:
    [forward(tokens)] gives one row of next-token logits per position,
    the row at position [i] depending on the tokens up to [i];
    [advance(tokens)] gives the rows of the new positions in the context
    of everything the cache has seen, the Cache State being exactly that
    token sequence. [logits_at ctx] is the row after the context [ctx]. *)
Record Model : Type := {
  logits_at : list Z -> list float
}.

Definition prefixes {A : Type} (l : list A) : list (list A) :=
  map (fun n => firstn n l) (seq 1 (List.length l)).

(** [model(input_ids)[0]] *)
Definition forward (M : Model) (input_ids : list Z) : list (list float) :=
  map (logits_at M) (prefixes input_ids).

(** [model.update(tokens)[0]] and the new cache, from the cache [cache]. *)
Definition update (M : Model) (cache tokens : list Z)
  : list Z * list (list float) :=
  (cache ++ tokens, map (fun p => logits_at M (cache ++ p)) (prefixes tokens)).

(** [rows[-1]]: [None] is the [IndexError] on an empty first dimension. *)
Definition last_row {A : Type} (rows : list A) : option A :=
  nth_error rows (List.length rows - 1).

(* ===================================================================== *)
(** ** Sampling step                                                      *)
(* ===================================================================== *)

Definition bind {A B : Type} (x : option A) (f : A -> option B) : option B :=
  match x with
  | Some a => f a
  | None => None
  end.

Notation "' p <- x ;; k" := (bind x (fun p => k))
  (at level 61, p pattern, x at next level, right associativity).

(** The outcome of one sampling step. *)
Record Sample : Type := {
  token_id : Z;
  prob : float;
  confidence_level : Z
}.

(** Lines 175-181 and 204-211: from the last-position logits to the
    sampled token and its confidence; [None] is an exception raised on
    the way. *)
Definition sample_step (T : Torch) (vocab_size : Z) (tc : TrainConfig)
           (last_logits : list float) (u : float) : option Sample :=
  let logits := softmax T (div_scalar T last_logits (temperature tc)) in
  ' k <- PyFloat.round (PyFloat.int_mul vocab_size (top_p tc)) ;;
  ' (probs, indices) <- topk T logits k ;;
  ' sample <- multinomial T probs u ;;
  ' tok <- nth_error indices sample ;;
  ' p <- nth_error probs sample ;;
  ' c <- PyFloat.round (PrimFloat.mul (pow_half T p) 16) ;;
  Some {| token_id := tok; prob := p; confidence_level := c |}.

(* ===================================================================== *)
(** ** Decode loops                                                       *)
(* ===================================================================== *)

(** What one iteration of a decode loop meets: the variate its draw
    consumes, or the operator's interrupt, which the [try] block catches
    wherever it lands. What the interrupt leaves behind depends on where
    it lands:
    - before the network is called ([KeyboardInterrupt]);
    - after the call has returned and before the token is printed
      ([InterruptAfterCall]): the variables assigned in between are not
      read once the loop has left, so every point in between is
      modelled by the first;
    - between the print of the token and the update of the response
      ([InterruptAfterPrint], with the variate the iteration consumed);
      an iteration that raises or stops before the print is not
      interrupted there.
    A call of the network is atomic. *)
Inductive Event : Type :=
| Draw (u : float)
| KeyboardInterrupt
| InterruptAfterCall
| InterruptAfterPrint (u : float).

(** How a decode loop stands when the events run out or it has left. *)
Inductive Outcome : Type :=
| Running        (* no event left: the loop is still generating *)
| Stopped        (* [break] on the third blank line *)
| Interrupted    (* [break] in the [except KeyboardInterrupt] handler *)
| Crashed.       (* an exception other than the interrupt left the loop *)

(** The variables of a turn, with two histories added for the
    properties, both in order: the arguments of the model calls, and
    the sampled tokens that reached the blank-line test. *)
Record Gen : Type := {
  input_ids : list Z;
  cache : list Z;
  last_out : option Z;
  n_blankline : Z;
  response : string;
  printed : list Output;
  calls : list (list Z);
  sampled : list Z
}.

Definition with_input (g : Gen) (input : list Z) : Gen :=
  {| input_ids := input; cache := cache g; last_out := last_out g;
     n_blankline := n_blankline g; response := response g;
     printed := printed g; calls := calls g; sampled := sampled g |}.

Definition with_call (g : Gen) (arg cache' : list Z) : Gen :=
  {| input_ids := input_ids g; cache := cache'; last_out := last_out g;
     n_blankline := n_blankline g; response := response g;
     printed := printed g; calls := calls g ++ [arg];
     sampled := sampled g |}.

Definition with_sample (g : Gen) (input : list Z) (lo : option Z) (tok : Z) : Gen :=
  {| input_ids := input; cache := cache g; last_out := lo;
     n_blankline := n_blankline g; response := response g;
     printed := printed g; calls := calls g;
     sampled := sampled g ++ [tok] |}.

Definition with_count (g : Gen) (n : Z) : Gen :=
  {| input_ids := input_ids g; cache := cache g; last_out := last_out g;
     n_blankline := n; response := response g;
     printed := printed g; calls := calls g; sampled := sampled g |}.

Definition with_response (g : Gen) (r : string) : Gen :=
  {| input_ids := input_ids g; cache := cache g; last_out := last_out g;
     n_blankline := n_blankline g; response := r;
     printed := printed g; calls := calls g; sampled := sampled g |}.

Definition with_print (g : Gen) (o : Output) : Gen :=
  {| input_ids := input_ids g; cache := cache g; last_out := last_out g;
     n_blankline := n_blankline g; response := response g;
     printed := printed g ++ [o]; calls := calls g; sampled := sampled g |}.

(** Truthiness of [last_out: torch.Tensor | None]: [None] is false, and a
    tensor with one element is true exactly when that element is not 0. *)
Definition tensor_truthy (lo : option Z) : bool :=
  match lo with
  | None => false
  | Some t => negb (t =? 0)
  end.

(** [token == "\n"] for [token : str | None]. *)
Definition is_newline (token : option string) : bool :=
  match token with
  | Some t => String.eqb t Py.newline
  | None => false
  end.

Section Decoding.

Variable config : Config.
Variable tokenizer : Tokenizer.
Variable T : Torch.
Variable M : Model.
Variable train_config : TrainConfig.

Definition vocab_size : Z := get_vocab_size tokenizer.

(** Lines 190-191 and 219-220: print the token and add it to the
    response, unless the interrupt lands in between. A token that is
    [None] is printed as such, and adding it to the response raises
    [TypeError]. *)
Definition emit (interrupted : bool) (g : Gen) (s : Sample) : Outcome * Gen :=
  let token := id_to_token tokenizer (token_id s) in
  let g := with_print g (Token (confidence_level s) (Py.show token)) in
  if interrupted then (Interrupted, with_print g ResetColour)
  else match token with
       | Some t => (Running, with_response g (response g ++ t))
       | None => (Crashed, g)
       end.

(** Lines 183-191 and 212-220: count blank lines, leave on the third in
    a row, otherwise print the token and add it to the response. *)
Definition stop_or_emit (interrupted : bool) (g : Gen) (s : Sample)
  : Outcome * Gen :=
  let token := id_to_token tokenizer (token_id s) in
  if is_newline token then
    let g := with_count g (n_blankline g + 1) in
    if n_blankline g >=? 3 then (Stopped, g)
    else emit interrupted g s
  else
    let g := with_count g 0 in
    emit interrupted g s.

(** Lines 174-191: the model call, the sampling step and what follows
    it, with the variate [u]. *)
Definition full_step (interrupted : bool) (g : Gen) (u : float) : Outcome * Gen :=
  let g := with_call g (input_ids g) (cache g) in
  match last_row (forward M (input_ids g)) with
  | None => (Crashed, g)
  | Some row =>
      match sample_step T vocab_size train_config row u with
      | None => (Crashed, g)
      | Some s =>
          let input := Py.slice_from (- max_length train_config)
                                     (input_ids g ++ [token_id s]) in
          let g := with_sample g input (last_out g) (token_id s) in
          stop_or_emit interrupted g s
      end
  end.

(** One iteration of [while not config.ENABLE_KVCACHE] (lines 173-194). *)
Definition full_iteration (g : Gen) (ev : Event) : Outcome * Gen :=
  match ev with
  | KeyboardInterrupt => (Interrupted, with_print g ResetColour)
  | InterruptAfterCall =>
      (Interrupted, with_print (with_call g (input_ids g) (cache g)) ResetColour)
  | Draw u => full_step false g u
  | InterruptAfterPrint u => full_step true g u
  end.

(** Lines 199-203: the [update] call of an iteration, with the last
    row of what it returns. *)
Definition cache_call (history : History) (g : Gen) : Gen * option (list float) :=
  let g := if negb (tensor_truthy (last_out g))
           then with_input g (build_context config tokenizer (Py.last_slice history)
                                            (max_length train_config) None)
           else g in
  let arg := if negb (tensor_truthy (last_out g))
             then input_ids g
             else match last_out g with Some t => [t] | None => [] end in
  let (cache', rows) := update M (cache g) arg in
  (with_call g arg cache', last_row rows).

(** Lines 199-220: the [update] call, the sampling step and what
    follows it, with the variate [u]. *)
Definition cache_step (interrupted : bool) (history : History) (g : Gen) (u : float)
  : Outcome * Gen :=
  let (g, row) := cache_call history g in
  match row with
  | None => (Crashed, g)
  | Some row =>
      match sample_step T vocab_size train_config row u with
      | None => (Crashed, g)
      | Some s =>
          let g := with_sample g (input_ids g) (Some (token_id s)) (token_id s) in
          stop_or_emit interrupted g s
      end
  end.

(** One iteration of [while config.ENABLE_KVCACHE] (lines 198-223). *)
Definition cache_iteration (history : History) (g : Gen) (ev : Event)
  : Outcome * Gen :=
  match ev with
  | KeyboardInterrupt => (Interrupted, with_print g ResetColour)
  | InterruptAfterCall =>
      (Interrupted, with_print (fst (cache_call history g)) ResetColour)
  | Draw u => cache_step false history g u
  | InterruptAfterPrint u => cache_step true history g u
  end.

(** A [while] loop over the events it meets. *)
Fixpoint run_loop (iteration : Gen -> Event -> Outcome * Gen)
         (evs : list Event) (g : Gen) : Outcome * Gen :=
  match evs with
  | [] => (Running, g)
  | ev :: evs' =>
      match iteration g ev with
      | (Running, g') => run_loop iteration evs' g'
      | halted => halted
      end
  end.

(** Lines 166-170 and 196: the variables as a turn starts generating.
    [input_ids] is the full context in both modes. *)
Definition start_turn (history : History) (cache0 : list Z) : Gen :=
  {| input_ids := build_context config tokenizer history
                                (max_length train_config) (system_prompt train_config);
     cache := cache0; last_out := None; n_blankline := 0;
     response := EmptyString; printed := []; calls := []; sampled := [] |}.

(** Lines 164-223: generation for the human turn [text]. [None] is the
    exception of a failed [append_history]. *)
Definition generate (history : History) (cache0 : list Z) (text : string)
           (evs : list Event) : option (History * (Outcome * Gen)) :=
  ' history <- append_history history "human" text ;;
  let g := start_turn history cache0 in
  Some (history,
        if ENABLE_KVCACHE config
        then run_loop (cache_iteration history) evs g
        else run_loop full_iteration evs g).

(** Lines 106-107 and 127-128: the cache after priming an empty cache
    with the system prompt. *)
Definition prime_cache : list Z :=
  fst (update M [] (build_context config tokenizer []
                                  (max_length train_config) (system_prompt train_config))).

End Decoding.

(* ===================================================================== *)
(** ** Session                                                            *)
(* ===================================================================== *)

Record Session : Type := {
  history : History;
  params : TrainConfig;
  kv_cache : list Z;
  console : list Output
}.

Section SessionLoop.

Variable config : Config.
Variable tokenizer : Tokenizer.
Variable T : Torch.
Variable M : Model.
Variable float_of_str : string -> option float.

(** Lines 104-107: the session as the prompt loop starts. *)
Definition start_session (tc : TrainConfig) : Session :=
  {| history := []; params := tc;
     kv_cache := if ENABLE_KVCACHE config
                 then prime_cache config tokenizer M tc else [];
     console := [] |}.

(** Lines 123-225: one line of input, with the events its generation
    meets. [None] is an exception that ends the process; a generation
    that is still [Running] when the events run out has not returned. *)
Definition handle_line (s : Session) (text : string) (evs : list Event)
  : option Session :=
  if String.eqb text "!clear" then
    Some {| history := []; params := params s;
            kv_cache := if ENABLE_KVCACHE config
                        then prime_cache config tokenizer M (params s) else kv_cache s;
            console := console s ++ [HistoryCleared] |}
  else if PyStr.startswith text "!top_p" then
    let (tc, o) := cmd_top_p float_of_str text (params s) in
    Some {| history := history s; params := tc; kv_cache := kv_cache s;
            console := console s ++ [o] |}
  else if PyStr.startswith text "!temperature" then
    let (tc, o) := cmd_temperature float_of_str text (params s) in
    Some {| history := history s; params := tc; kv_cache := kv_cache s;
            console := console s ++ [o] |}
  else if PyStr.startswith text "!context" then
    let ctx := build_context config tokenizer (history s)
                             (max_length (params s)) (system_prompt (params s)) in
    match ctx with
    | [_] => None      (* [squeeze()] leaves a 0-d tensor: iterating it is a TypeError *)
    | _ =>
        Some {| history := history s; params := params s; kv_cache := kv_cache s;
                console := console s
                           ++ [ContextTokens
                                 (map (fun i => Py.show (id_to_token tokenizer i)) ctx)] |}
    end
  else if PyStr.startswith text "!history" then
    Some {| history := history s; params := params s; kv_cache := kv_cache s;
            console := console s ++ [HistoryDump (history s)] |}
  else
    ' (h, (o, g)) <- generate config tokenizer T M (params s) (history s) (kv_cache s) text evs ;;
    match o with
    | Stopped | Interrupted =>
        ' h' <- append_history h "ai" (PyStr.strip (response g)) ;;
        Some {| history := h'; params := params s; kv_cache := cache g;
                console := console s ++ printed g |}
    | Running | Crashed => None
    end.

(** Lines 109-225: the prompt loop over the lines entered, each with
    the events of its generation. *)
Fixpoint run_session (s : Session) (lines : list (string * list Event))
  : option Session :=
  match lines with
  | [] => Some s
  | (text, evs) :: rest =>
      ' s' <- handle_line s text evs ;;
      run_session s' rest
  end.

End SessionLoop.

(* ===================================================================== *)
(** ** Reading the text of a turn                                         *)
(* ===================================================================== *)

(** The last byte of a text; [None] is the [IndexError] of [text[-1]]
    on the empty string. The driver compares [text[-1]] with a
    backslash only, and a text ends with the character backslash
    exactly when its last byte is one. *)
Fixpoint str_last (s : string) : option ascii :=
  match s with
  | EmptyString => None
  | String c EmptyString => Some c
  | String _ rest => str_last rest
  end.

(** The text without its last byte: [text[:-1]] for a text that ends
    with a backslash. *)
Fixpoint str_drop_last (s : string) : string :=
  match s with
  | EmptyString => EmptyString
  | String _ EmptyString => EmptyString
  | String c rest => String c (str_drop_last rest)
  end.

(** The continuation marker, a backslash. *)
Definition backslash : ascii := ascii_of_nat 92.

(** How the reading of a text ends. *)
Inductive Read : Type :=
| ReadText (text : string) (rest : list string)  (* the text, and the lines not read *)
| ReadEOF                                        (* [EOFError]: the prompt loop ends *)
| ReadIndexError.                                (* [text[-1]] on an empty text *)

(** Lines 112-119, from the value [text] of the variable: [lines] are
    the lines the calls of [input] return, the input being at its end
    after the last one. *)
Fixpoint read_text (lines : list string) (text : string) : Read :=
  match lines with
  | [] => ReadEOF
  | line :: rest =>
      let text := match text with
                  | EmptyString => line                 (* [if not text] *)
                  | _ => (text ++ line)%string
                  end in
      match str_last text with
      | None => ReadIndexError
      | Some c =>
          if Ascii.eqb c backslash
          then read_text rest (str_drop_last text ++ Py.newline)%string
          else ReadText text rest
      end
  end.

(** Lines 110-122: the text of one turn, [text] starting empty. *)
Definition read_turn (lines : list string) : Read := read_text lines EmptyString.

(* ===================================================================== *)
(** ** Loading a checkpoint in half precision                             *)
(* ===================================================================== *)

Inductive DType : Type := Float32 | Float16.

Section Checkpoint.

(** Tensors, and [t.to(torch.float16)]. *)
Variable Tensor : Type.
Variable to_float16 : Tensor -> Tensor.

(** What [load_in_fp16] reads and writes of a [torch.nn.Module]:
    [named_parameters()] with the data of each, and the attribute
    [dtype]. *)
Record Net : Type := {
  named_parameters : list (string * Tensor);
  dtype : DType
}.

(** A state dict, and [state_dict[name]]; [None] is a name that is not
    among [state_dict.keys()]. *)
Definition StateDict : Type := list (string * Tensor).

Fixpoint dict_get (d : StateDict) (name : string) : option Tensor :=
  match d with
  | [] => None
  | (k, v) :: rest => if String.eqb k name then Some v else dict_get rest name
  end.

(** [torch.load(path)]: [None] is the exception of a failed load.
    [os.path.join], and the globals [config_dir] and
    [train_config["checkpoint_file"]] of the driver. *)
Variable torch_load : string -> option StateDict.
Variable path_join : string -> string -> string.
Variable config_dir : string.
Variable checkpoint_file : string.

(** The body of the loop of lines 39-41. *)
Definition load_parameter (state_dict : StateDict) (entry : string * Tensor)
  : string * Tensor :=
  match dict_get state_dict (fst entry) with
  | Some t => (fst entry, to_float16 t)
  | None => entry
  end.

(** [load_in_fp16(model, model_path)] *)
Definition load_in_fp16 (model : Net) (model_path : option string) : option Net :=
  let ckpt := match model_path with
              | Some p => if Py.truthy model_path then p
                          else path_join config_dir checkpoint_file
              | None => path_join config_dir checkpoint_file
              end in
  match torch_load ckpt with
  | None => None
  | Some state_dict =>
      Some {| named_parameters := map (load_parameter state_dict) (named_parameters model);
              dtype := Float16 |}
  end.

End Checkpoint.

(* ===================================================================== *)
(** ** Vocabulary of the properties                                       *)
(* ===================================================================== *)

(** The number of newline tokens at the front of a token list, and at
    its end. *)
Fixpoint leading_newlines (toks : list (option string)) : Z :=
  match toks with
  | t :: rest => if is_newline t then 1 + leading_newlines rest else 0
  | [] => 0
  end.

Definition trailing_newlines (toks : list (option string)) : Z :=
  leading_newlines (rev toks).

Definition three_newlines : list (option string) :=
  [Some Py.newline; Some Py.newline; Some Py.newline].

(** The stop policy on the result of a decode loop, [toks] being the
    sampled tokens as decoded: a loop that has stopped sampled three
    newline tokens last; three consecutive newline tokens occur in the
    sampled sequence only at its very end, and then the loop has stopped;
    the counter is the number of newline tokens since the last token
    that is not one. *)
Definition stop_policy_holds (tokenizer : Tokenizer) (r : Outcome * Gen) : Prop :=
  let toks := map (id_to_token tokenizer) (sampled (snd r)) in
  (fst r = Stopped -> exists pre, toks = pre ++ three_newlines) /\
  (forall pre post, toks = pre ++ three_newlines ++ post ->
                    fst r = Stopped /\ post = []) /\
  n_blankline (snd r) = trailing_newlines toks.

(** The state of a loop that is still generating: the counter is the
    trailing newline count, below 3, and no three consecutive newline
    tokens have been sampled. *)
Definition counting (tokenizer : Tokenizer) (g : Gen) : Prop :=
  let toks := map (id_to_token tokenizer) (sampled g) in
  n_blankline g = trailing_newlines toks /\ n_blankline g < 3 /\
  forall pre post, toks <> pre ++ three_newlines ++ post.

(** What one iteration of either decode loop does to the sampled tokens,
    the counter and the outcome: it leaves without sampling (interrupt
    or exception), or it samples one token [t], counts it, and stops
    exactly when the count reaches 3; when it does not stop there it
    goes on, unless an interrupt or an exception comes after the
    count. *)
Definition policy_step (tokenizer : Tokenizer)
           (iteration : Gen -> Event -> Outcome * Gen) : Prop :=
  forall g ev o g', iteration g ev = (o, g') ->
    (sampled g' = sampled g /\ n_blankline g' = n_blankline g /\
     (o = Interrupted \/ o = Crashed)) \/
    (exists t,
        sampled g' = sampled g ++ [t] /\
        let nl := is_newline (id_to_token tokenizer t) in
        n_blankline g' = (if nl then n_blankline g + 1 else 0) /\
        if nl && (n_blankline g + 1 >=? 3) then o = Stopped else o <> Stopped).

(** A rank of the numbers among the floats, in their order: sign class,
    then exponent and mantissa, both negated for negative numbers. *)
Definition sf_rank (x : spec_float) : Z * Z * Z :=
  match x with
  | S754_zero _ => (0, 0, 0)
  | S754_infinity s => (if s then -2 else 2, 0, 0)
  | S754_nan => (0, 0, 0)
  | S754_finite s m e => if s then (-1, - e, - Z.pos m) else (1, e, Z.pos m)
  end.

Definition rank_lt (a b : Z * Z * Z) : Prop :=
  let '(a1, a2, a3) := a in
  let '(b1, b2, b3) := b in
  a1 < b1 \/ (a1 = b1 /\ (a2 < b2 \/ (a2 = b2 /\ a3 < b3))).

(** Descending order of the values of indexed entries: the later entry
    is not larger. *)
Definition not_below (a b : float * Z) : Prop :=
  PrimFloat.ltb (fst a) (fst b) = false.

(** The last [m] tokens of a sequence, for [m > 0]: the slice
    [[:, -m:]]. *)
Definition window (m : Z) (l : list Z) : list Z := Py.slice_from (- m) l.

(** The input the [i]-th forward call of a turn is expected to receive,
    counting from 0, when the turn starts from the context [ctx0] and
    samples the tokens [toks]: the context itself at first, then the
    window over the context extended by the first [i] sampled tokens. *)
Definition nth_input (m : Z) (ctx0 toks : list Z) (i : nat) : list Z :=
  match i with
  | O => ctx0
  | S _ => window m (ctx0 ++ firstn i toks)
  end.

Definition calls_are_windows (m : Z) (ctx0 : list Z) (g : Gen) : Prop :=
  forall i c, nth_error (calls g) i = Some c -> c = nth_input m ctx0 (sampled g) i.

(** The full-recompute loop between two iterations. *)
Definition in_step (m : Z) (ctx0 : list Z) (g : Gen) : Prop :=
  input_ids g = nth_input m ctx0 (sampled g) (List.length (sampled g)) /\
  List.length (calls g) = List.length (sampled g) /\
  calls_are_windows m ctx0 g.

(** The contexts a cache that starts as [cache0] holds after each of the
    calls [args]. *)
Fixpoint cache_contexts (cache0 : list Z) (args : list (list Z)) : list (list Z) :=
  match args with
  | [] => []
  | a :: rest => (cache0 ++ a) :: cache_contexts (cache0 ++ a) rest
  end.

(** The two decode loops agree on what a turn produces, and the
    contexts of the full-recompute calls are those the cache holds after
    each [update] call. *)
Definition same_output (cache0 : list Z) (gf gc : Gen) : Prop :=
  sampled gf = sampled gc /\ n_blankline gf = n_blankline gc /\
  response gf = response gc /\ printed gf = printed gc /\
  calls gf = cache_contexts cache0 (calls gc).

(** The two decode loops between two iterations, the turn starting from
    the context [ctx0] in full-recompute mode and from the cache
    [cache0] in cache-incremental mode: the full-recompute input is the
    context extended by the sampled tokens, and the cache holds all of
    it but the token sampled last. *)
Definition in_sync (cache0 ctx0 : list Z) (gf gc : Gen) : Prop :=
  same_output cache0 gf gc /\
  input_ids gf = ctx0 ++ sampled gf /\
  cache0 ++ List.concat (calls gc) = cache gc /\
  match last_out gc with
  | None => sampled gc = [] /\ cache gc = cache0
  | Some t => exists pre, sampled gc = pre ++ [t] /\ cache gc = ctx0 ++ pre
  end.

(** The argument of the next [update] call of the cache loop, [turn]
    being the encoding of the newest human turn. *)
Definition next_arg (turn : list Z) (g : Gen) : list Z :=
  if negb (tensor_truthy (last_out g)) then turn
  else match last_out g with Some t => [t] | None => [] end.

(** The tokens the console shows, in order. *)
Fixpoint printed_tokens (out : list Output) : list string :=
  match out with
  | [] => []
  | Token _ token :: rest => token :: printed_tokens rest
  | _ :: rest => printed_tokens rest
  end.

(** The sampled tokens that are echoed: all of them, but for the newline
    a loop stops on. *)
Definition emitted (r : Outcome * Gen) : list Z :=
  match fst r with
  | Stopped => removelast (sampled (snd r))
  | _ => sampled (snd r)
  end.

(** Lines joined as continued lines are: each followed by a newline. *)
Fixpoint continued (parts : list string) : string :=
  match parts with
  | [] => EmptyString
  | l :: rest => (l ++ Py.newline ++ continued rest)%string
  end.

(** What one iteration of either decode loop does to the sampled tokens,
    the response and the console: it leaves without sampling; or it
    stops on a sampled token without echoing it; or it echoes the
    sampled token and then adds it to the response and goes on, unless
    an interrupt comes first or the token is [None], which leave the
    response as it was. *)
Definition echo_step (tokenizer : Tokenizer)
           (iteration : Gen -> Event -> Outcome * Gen) : Prop :=
  forall g ev o g', iteration g ev = (o, g') ->
    ((o = Interrupted \/ o = Crashed) /\ sampled g' = sampled g /\
     response g' = response g /\
     printed_tokens (printed g') = printed_tokens (printed g)) \/
    (o = Stopped /\ response g' = response g /\ printed g' = printed g /\
     exists t, sampled g' = sampled g ++ [t]) \/
    (exists t,
        sampled g' = sampled g ++ [t] /\
        printed_tokens (printed g')
        = printed_tokens (printed g) ++ [Py.show (id_to_token tokenizer t)] /\
        ((o = Running /\
          response g' = (response g ++ Py.show (id_to_token tokenizer t))%string /\
          id_to_token tokenizer t <> None) \/
         ((o = Interrupted \/ o = Crashed) /\ response g' = response g))).

(** A text with no whitespace character at either end. *)
Definition trimmed (s : string) : Prop :=
  PyStr.space_first false s = false /\
  PyStr.space_first true (PyStr.rev_string s) = false.

(** A line the prompt loop does not send to the network. *)
Definition is_setting_or_inspection (text : string) : bool :=
  PyStr.startswith text "!top_p" || PyStr.startswith text "!temperature"
  || PyStr.startswith text "!context" || PyStr.startswith text "!history".

(** Two sessions that differ in what the console has shown only. *)
Definition same_state (a b : Session) : Prop :=
  history a = history b /\ params a = params b /\ kv_cache a = kv_cache b.

(** A line the prompt loop sends to the network as a human turn. *)
Definition is_turn (text : string) : bool :=
  negb (String.eqb text "!clear") && negb (is_setting_or_inspection text).

(** The decode loop the configuration selects, run from the start of a
    turn over the history [h], whose last entry is the turn. *)
Definition turn_loop (config : Config) (tokenizer : Tokenizer) (T : Torch)
           (M : Model) (tc : TrainConfig) (h : History) (cache0 : list Z)
           (evs : list Event) : Outcome * Gen :=
  if ENABLE_KVCACHE config
  then run_loop (cache_iteration config tokenizer T M tc h) evs
                (start_turn config tokenizer tc h cache0)
  else run_loop (full_iteration tokenizer T M tc) evs
                (start_turn config tokenizer tc h cache0).

(** A session the prompt loop can be in: what some lines make of the
    session the driver starts with. *)
Definition reachable (config : Config) (tokenizer : Tokenizer) (T : Torch)
           (M : Model) (float_of_str : string -> option float)
           (tc : TrainConfig) (s : Session) : Prop :=
  exists lines,
    run_session config tokenizer T M float_of_str
                (start_session config tokenizer M tc) lines = Some s.

(** Two states of a decode loop that differ in [input_ids] only. *)
Definition same_but_input (a b : Gen) : Prop :=
  cache a = cache b /\ last_out a = last_out b /\
  n_blankline a = n_blankline b /\ response a = response b /\
  printed a = printed b /\ calls a = calls b /\ sampled a = sampled b.

(** The text of a list of tokens. *)
Definition joined (tokens : list string) : string :=
  fold_right String.append EmptyString tokens.

(** A decode loop between two iterations: the console shows the sampled
    tokens, all of them in the vocabulary, and the response is their
    text. *)
Definition echoing (tokenizer : Tokenizer) (g : Gen) : Prop :=
  printed_tokens (printed g)
  = map (fun t => Py.show (id_to_token tokenizer t)) (sampled g) /\
  response g = joined (printed_tokens (printed g)) /\
  Forall (fun t => id_to_token tokenizer t <> None) (sampled g).

(** What a turn has echoed and what it has kept, [r] being the result
    of its decode loop. The console shows the sampled tokens in the
    order they were sampled, the newline the loop stopped on left out.
    All of them but possibly the last are in the vocabulary. The
    response is the text the console shows; the one exception is a loop
    left by an interrupt or an exception that came between the print of
    a token and the update of the response: the token echoed last is
    then missing from the response. *)
Definition echo_holds (tokenizer : Tokenizer) (r : Outcome * Gen) : Prop :=
  let shown := printed_tokens (printed (snd r)) in
  shown = map (fun t => Py.show (id_to_token tokenizer t)) (emitted r) /\
  Forall (fun t => id_to_token tokenizer t <> None) (removelast (emitted r)) /\
  (response (snd r) = joined shown \/
   ((fst r = Interrupted \/ fst r = Crashed) /\
    response (snd r) = joined (removelast shown))).

(* ===================================================================== *)
(** ** Example collaborators                                              *)
(* ===================================================================== *)

(** A byte-level tokenizer: one token per byte of the text, the id
    being the byte. A token below 128 shows as the ASCII character, a
    token from 128 to 255 as the character U+0080..U+00FF of that
    number, and there is no token from 256 on. *)
Definition byte_encode (s : string) : list Z :=
  map (fun c => Z.of_nat (nat_of_ascii c)) (list_ascii_of_string s).

Definition byte_token (i : Z) : option string :=
  if (0 <=? i) && (i <? 128)
  then Some (String (ascii_of_nat (Z.to_nat i)) EmptyString)
  else if (128 <=? i) && (i <? 256)
  then Some (String (ascii_of_nat (Z.to_nat (192 + i / 64)))
                    (String (ascii_of_nat (Z.to_nat (128 + i mod 64))) EmptyString))
  else None.

Definition byte_tokenizer : Tokenizer := {|
  encode := byte_encode;
  id_to_token := byte_token;
  get_vocab_size := 256
|}.

Definition demo_config (kv : bool) : Config := {|
  HUMAN_PREFIX := "H:";
  AI_PREFIX := "A:";
  ENABLE_KVCACHE := kv
|}.

(** A reference numeric library on lists of floats. The exponential is
    a stand-in for the library's, exact where the examples need it: at 0
    and at minus infinity; the power [x ** 0.5] is the square root. *)
Module RefTorch.

Definition ref_div_scalar (x : list float) (t : float) : list float :=
  map (fun v => PrimFloat.div v t) x.

Definition square_n (n : nat) (y : float) : float :=
  Nat.iter n (fun z => PrimFloat.mul z z) y.

Definition ref_exp (x : float) : float :=
  if PrimFloat.eqb x 0 then 1%float
  else if PrimFloat.ltb x (-700)%float then 0%float
  else square_n 20 (PrimFloat.add 1 (PrimFloat.div x 1048576)).

Definition fmax (a b : float) : float := if PrimFloat.ltb a b then b else a.

Definition ref_softmax (x : list float) : list float :=
  let m := fold_left fmax x neg_infinity in
  let e := map (fun v => ref_exp (PrimFloat.sub v m)) x in
  let s := fold_left PrimFloat.add e 0%float in
  map (fun v => PrimFloat.div v s) e.

(** Insertion into a list sorted by descending value, after the entries
    that are not smaller. *)
Fixpoint insert_desc (a : float * Z) (l : list (float * Z)) : list (float * Z) :=
  match l with
  | [] => [a]
  | b :: rest => if PrimFloat.ltb (fst b) (fst a) then a :: l
                 else b :: insert_desc a rest
  end.

Definition sort_desc (l : list (float * Z)) : list (float * Z) :=
  fold_right insert_desc [] l.

Definition indexed (x : list float) : list (float * Z) :=
  combine x (map Z.of_nat (seq 0 (List.length x))).

Definition ref_topk (x : list float) (k : Z) : option (list float * list Z) :=
  if (k <? 0) || (Z.of_nat (List.length x) <? k) then None
  else let top := firstn (Z.to_nat k) (sort_desc (indexed x)) in
       Some (map fst top, map snd top).

Definition valid_weight (v : float) : bool :=
  PrimFloat.leb 0 v && PrimFloat.ltb v infinity.

(** The first position whose running sum exceeds the target, the last
    position when none does. *)
Fixpoint pick (p : list float) (acc target : float) (i : nat) : nat :=
  match p with
  | [] => i
  | v :: rest =>
      let acc' := PrimFloat.add acc v in
      match rest with
      | [] => i
      | _ => if PrimFloat.ltb target acc' then i else pick rest acc' target (S i)
      end
  end.

Definition ref_multinomial (p : list float) (u : float) : option nat :=
  let total := fold_left PrimFloat.add p 0%float in
  match p with
  | [] => None
  | _ => if forallb valid_weight p && PrimFloat.ltb 0 total
         then Some (pick p 0%float (PrimFloat.mul u total) 0)
         else None
  end.

Definition ref : Torch := {|
  div_scalar := ref_div_scalar;
  softmax := ref_softmax;
  topk := ref_topk;
  multinomial := ref_multinomial;
  pow_half := PrimFloat.sqrt
|}.

End RefTorch.

(** Logits that put all the mass on one token: 0 there, minus infinity
    elsewhere. *)
Definition one_hot_logits (size : nat) (tok : Z) : list float :=
  map (fun i => if Z.of_nat i =? tok then 0%float else neg_infinity) (seq 0 size).

(** A network over the byte vocabulary whose next token is a function of
    the last token of its context. *)
Definition last_token_model (next : Z -> Z) : Model := {|
  logits_at := fun ctx => one_hot_logits 256 (next (last ctx (-1)))
|}.

(** A network over the byte vocabulary that answers a context ending
    in [:] (the end of the ai prefix) with [x] when the context has an
    even number of tokens and with [y] otherwise, and anything else with
    a newline. *)
Definition parity_model : Model := {|
  logits_at := fun ctx =>
    one_hot_logits 256
      (if last ctx (-1) =? 58
       then (if Z.even (Z.of_nat (List.length ctx)) then 120 else 121)
       else 10)
|}.

(** After token 0 comes 65, after anything else comes 0. *)
Definition zero_then_A : Model :=
  last_token_model (fun t => if t =? 0 then 65 else 0).

Definition demo_params (m : Z) (sp : option string) (t p : float) : TrainConfig :=
  {| max_length := m; system_prompt := sp; temperature := t; top_p := p |}.

(** A parser for the few spellings the examples use. *)
Definition demo_float_of_str (s : string) : option float :=
  if String.eqb s "nan" then Some nan
  else if String.eqb s "0.9" then Some 0x1.ccccccccccccdp-1%float
  else if String.eqb s "0.5" then Some 0.5%float
  else if String.eqb s "1.5" then Some 1.5%float
  else if String.eqb s "2.5" then Some 2.5%float
  else if String.eqb s "1" then Some 1%float
  else None.

(* ===================================================================== *)
(** * Properties                                                          *)
(* ===================================================================== *)

(** ** Slices *)

Lemma slice_from_skipn {A : Type} (start : Z) (l : list A) :
  exists d : nat, Py.slice_from start l = skipn d l.
Proof. unfold Py.slice_from. eexists. reflexivity. Qed.

Lemma slice_from_zero {A : Type} (l : list A) : Py.slice_from 0 l = l.
Proof.
  unfold Py.slice_from. simpl.
  replace (Z.to_nat (Z.min 0 (Z.of_nat (List.length l)))) with O by lia.
  reflexivity.
Qed.

Lemma slice_from_neg_length {A : Type} (k : Z) (l : list A) :
  0 < k ->
  Z.of_nat (List.length (Py.slice_from (- k) l)) = Z.min k (Z.of_nat (List.length l)).
Proof.
  intros Hk. unfold Py.slice_from.
  destruct (Z.ltb_spec (- k) 0); [| lia].
  rewrite length_skipn. lia.
Qed.

Lemma slice_from_neg_all {A : Type} (k : Z) (l : list A) :
  Z.of_nat (List.length l) <= k -> Py.slice_from (- k) l = l.
Proof.
  intros Hk. unfold Py.slice_from.
  destruct (Z.ltb_spec (- k) 0).
  - replace (Z.to_nat (Z.max 0 (Z.of_nat (List.length l) + - k))) with O by lia.
    reflexivity.
  - replace (Z.to_nat (Z.min (- k) (Z.of_nat (List.length l)))) with O by lia.
    reflexivity.
Qed.

Lemma slice_from_neg_app {A : Type} (k : Z) (l : list A) :
  0 < k ->
  exists dropped, l = dropped ++ Py.slice_from (- k) l /\
    Z.of_nat (List.length dropped) = Z.max 0 (Z.of_nat (List.length l) - k).
Proof.
  intros Hk. unfold Py.slice_from.
  destruct (Z.ltb_spec (- k) 0); [| lia].
  set (d := Z.to_nat (Z.max 0 (Z.of_nat (List.length l) + - k))).
  exists (firstn d l). split.
  - symmetry. apply firstn_skipn.
  - rewrite length_firstn. lia.
Qed.

(** ** Context builder *)

Section ContextBuilderFacts.

Variable config : Config.
Variable tokenizer : Tokenizer.

Local Abbreviation turns := (turn_ids config tokenizer).
Local Abbreviation build := (build_context config tokenizer).
Local Abbreviation layout := (spec_turn_layout config tokenizer).
Local Abbreviation block := (spec_turn_block config tokenizer).
Local Abbreviation sep := (separator_ids tokenizer).

Lemma build_step_at (done : History) (t : Turn) (rest : History) (ids : list Z) :
  build_step config tokenizer (done ++ t :: rest) ids (List.length done) =
  ids ++ block t ++ match rest with [] => [] | _ => sep end.
Proof.
  unfold build_step, spec_turn_block.
rewrite app_nth2, Nat.sub_diag by lia. simpl nth.
rewrite length_app. simpl List.length.
destruct (Z.of_nat (List.length done) <? _) eqn:E;
  [apply Z.ltb_lt in E | apply Z.ltb_ge in E];
  destruct rest as [| t' rest']; simpl List.length in E; try lia;
  rewrite <- ?app_assoc, ?app_nil_r; reflexivity.
Qed.

Lemma build_loop_from (rest done : History) (ids : list Z) :
  fold_left (build_step config tokenizer (done ++ rest))
            (seq (List.length done) (List.length rest)) ids
  = ids ++ layout rest.
Proof.
  revert done ids. induction rest as [| t rest IH]; intros done ids.
  - simpl. now rewrite app_nil_r.
  - cbn [List.length seq fold_left].
    rewrite build_step_at.
    specialize (IH (done ++ [t]) (ids ++ block t ++ match rest with [] => [] | _ => sep end)).
    rewrite <- app_assoc in IH. cbn [app] in IH.
    rewrite length_app in IH. cbn [List.length] in IH.
    rewrite Nat.add_1_r in IH. rewrite IH.
    destruct rest as [| t' rest'].
    + cbn [spec_turn_layout]. now rewrite !app_nil_r.
    + change (layout (t :: t' :: rest')) with (block t ++ sep ++ layout (t' :: rest')).
      now rewrite <- !app_assoc.
Qed.

(** The loop of [build_context] produces the layout of the specification. *)
Lemma turn_ids_layout (history : History) : turns history = layout history.
Proof.
  unfold turn_ids.
  exact (build_loop_from history [] []).
Qed.

Lemma system_prompt_ids_present (s : string) :
  s <> EmptyString ->
  system_prompt_ids tokenizer (Some s) = encode tokenizer s ++ sep.
Proof. intros Hs. destruct s; [congruence | reflexivity]. Qed.

(** With room left after the pinned prefix, the result fits the budget
    and fills it exactly when something had to be dropped. *)
Lemma build_context_length_room (history : History) (max_length : Z)
      (system_prompt : option string) :
  Z.of_nat (List.length (system_prompt_ids tokenizer system_prompt)) < max_length ->
  Z.of_nat (List.length (build history max_length system_prompt)) <= max_length /\
  (max_length < Z.of_nat (List.length (system_prompt_ids tokenizer system_prompt
                                        ++ turns history)) ->
   Z.of_nat (List.length (build history max_length system_prompt)) = max_length).
Proof.
  intros Hroom. unfold build_context.
  set (sp := system_prompt_ids tokenizer system_prompt) in *.
  set (ids := turns history).
  replace (Z.of_nat (List.length sp) - max_length)
    with (- (max_length - Z.of_nat (List.length sp))) by lia.
  rewrite !length_app, !Nat2Z.inj_add, slice_from_neg_length by lia.
  lia.
Qed.

(** When the pinned prefix takes the whole budget the slice start is 0
    and the turn tokens are kept in full. *)
Lemma build_context_no_room (history : History) (max_length : Z)
      (system_prompt : option string) :
  Z.of_nat (List.length (system_prompt_ids tokenizer system_prompt)) = max_length ->
  build history max_length system_prompt
  = system_prompt_ids tokenizer system_prompt ++ turns history.
Proof.
  intros Heq. unfold build_context. rewrite Heq, Z.sub_diag.
  now rewrite slice_from_zero.
Qed.

(** Nothing is dropped when the whole context fits. *)
Lemma build_context_fits (history : History) (max_length : Z)
      (system_prompt : option string) :
  Z.of_nat (List.length (system_prompt_ids tokenizer system_prompt ++ turns history))
    <= max_length ->
  build history max_length system_prompt
  = system_prompt_ids tokenizer system_prompt ++ turns history.
Proof.
  intros Hfit. unfold build_context.
  rewrite length_app, Nat2Z.inj_add in Hfit.
  replace (Z.of_nat (List.length (system_prompt_ids tokenizer system_prompt)) - max_length)
    with (- (max_length - Z.of_nat (List.length (system_prompt_ids tokenizer system_prompt))))
    by lia.
  rewrite slice_from_neg_all by lia. reflexivity.
Qed.

End ContextBuilderFacts.

(** C3. For every history and every present (non-empty) system prompt,
    the encoded system prompt followed by the separator is a literal
    prefix of the result of [build_context], and what truncation removes
    is one contiguous block at the left end of the turn tokens: the turn
    tokens split as [dropped ++ kept] and the result is the pinned
    prefix followed by [kept]. *)
Theorem build_context_pins_prefix_and_drops_oldest
        (config : Config) (tokenizer : Tokenizer) (history : History)
        (max_length : Z) (s : string) :
  s <> EmptyString ->
  exists dropped kept : list Z,
    turn_ids config tokenizer history = dropped ++ kept /\
    build_context config tokenizer history max_length (Some s)
    = (encode tokenizer s ++ separator_ids tokenizer) ++ kept.
Proof.
  intros Hs. unfold build_context.
  rewrite (system_prompt_ids_present tokenizer s Hs).
  destruct (slice_from_skipn
              (Z.of_nat (List.length (encode tokenizer s ++ separator_ids tokenizer))
               - max_length)
              (turn_ids config tokenizer history)) as [d Hd].
  exists (firstn d (turn_ids config tokenizer history)),
         (skipn d (turn_ids config tokenizer history)).
  split.
  - symmetry. apply firstn_skipn.
  - now rewrite Hd.
Qed.

Lemma build_context_pins_prefix_and_drops_oldest_witness :
  exists dropped kept : list Z,
    turn_ids (demo_config false) byte_tokenizer [("hello", "hi there"); ("bye", EmptyString)]
    = dropped ++ kept /\
    build_context (demo_config false) byte_tokenizer
                  [("hello", "hi there"); ("bye", EmptyString)] 12 (Some "Be terse")
    = (encode byte_tokenizer "Be terse" ++ separator_ids byte_tokenizer) ++ kept.
Proof.
  apply (@build_context_pins_prefix_and_drops_oldest
           (demo_config false) byte_tokenizer
           [("hello", "hi there"); ("bye", EmptyString)] 12 "Be terse").
  discriminate.
Defined.

(** C9. [build_context] emits, for each turn in order, human-prefix +
    encode(human_text) + separator + ai-prefix + encode(ai_text), with the
    separator between consecutive turns and not after the last one; when
    [max_length] is large enough for the whole context the result is the
    pinned prefix followed by that layout, and for the history
    [[("hi", "")]] with system prompt "Be terse" it is
    encode("Be terse") + separator + human-prefix + encode("hi") +
    separator + ai-prefix + encode(""). *)
Theorem build_context_layout
        (config : Config) (tokenizer : Tokenizer) (history : History)
        (max_length : Z) (system_prompt : option string) :
  Z.of_nat (List.length (system_prompt_ids tokenizer system_prompt
                         ++ turn_ids config tokenizer history)) <= max_length ->
  turn_ids config tokenizer history = spec_turn_layout config tokenizer history /\
  build_context config tokenizer history max_length system_prompt
  = system_prompt_ids tokenizer system_prompt ++ spec_turn_layout config tokenizer history /\
  (history = [("hi", EmptyString)] -> system_prompt = Some "Be terse" ->
   build_context config tokenizer history max_length system_prompt
   = encode tokenizer "Be terse" ++ separator_ids tokenizer
     ++ human_prefix_ids config tokenizer ++ encode tokenizer "hi"
     ++ separator_ids tokenizer
     ++ ai_prefix_ids config tokenizer ++ encode tokenizer EmptyString).
Proof.
  intros Hfit.
  pose proof (build_context_fits config tokenizer history max_length system_prompt Hfit) as Hb.
  rewrite turn_ids_layout in Hb.
  split; [apply turn_ids_layout |]. split; [exact Hb |].
  intros Hh Hs. rewrite Hb. subst history system_prompt.
  cbn [system_prompt_ids Py.truthy spec_turn_layout]. unfold spec_turn_block.
  cbn [fst snd]. now rewrite <- !app_assoc.
Qed.

Lemma build_context_layout_witness :
  build_context (demo_config false) byte_tokenizer [("hi", EmptyString)] 64 (Some "Be terse")
  = encode byte_tokenizer "Be terse" ++ separator_ids byte_tokenizer
    ++ human_prefix_ids (demo_config false) byte_tokenizer ++ encode byte_tokenizer "hi"
    ++ separator_ids byte_tokenizer
    ++ ai_prefix_ids (demo_config false) byte_tokenizer
    ++ encode byte_tokenizer EmptyString.
Proof.
  refine (proj2 (proj2 (@build_context_layout (demo_config false) byte_tokenizer
                          [("hi", EmptyString)] 64 (Some "Be terse") _)) eq_refl eq_refl).
  vm_compute. discriminate.
Defined.

(** C2 (failing input). The pinned prefix of the system prompt "ab" has
    5 tokens under the byte tokenizer, which does not exceed
    [max_length = 5]; for the history [[("hi", "")]] the result of
    [build_context] nevertheless has 14 tokens: the pinned prefix and
    all 9 turn tokens, none dropped. *)
Theorem build_context_exceeds_budget_when_prefix_fills_it :
  Z.of_nat (List.length (system_prompt_ids byte_tokenizer (Some "ab"))) = 5 /\
  build_context (demo_config false) byte_tokenizer [("hi", EmptyString)] 5 (Some "ab")
  = system_prompt_ids byte_tokenizer (Some "ab")
    ++ turn_ids (demo_config false) byte_tokenizer [("hi", EmptyString)] /\
  Z.of_nat (List.length (build_context (demo_config false) byte_tokenizer
                                        [("hi", EmptyString)] 5 (Some "ab"))) = 14.
Proof. repeat split; vm_compute; reflexivity. Qed.

(** ** Parameter commands *)

Lemma SFcompare_antisym (x y : spec_float) :
  SFcompare y x = option_map CompOpp (SFcompare x y).
Proof.
  destruct x as [sx | sx | | sx mx ex], y as [sy | sy | | sy my ey];
    cbn [SFcompare option_map]; try reflexivity;
    try (destruct sx; reflexivity); try (destruct sy; reflexivity);
    try (destruct sx, sy; reflexivity).
  destruct sx, sy; cbn [CompOpp]; try reflexivity;
    rewrite (Z.compare_antisym ey ex);
    destruct (ey ?= ex); cbn [CompOpp]; try reflexivity;
    rewrite (Pos.compare_cont_antisym mx my Eq); cbn [CompOpp];
    destruct (Pos.compare_cont Eq mx my); reflexivity.
Qed.

Lemma not_nan_compare (v c : float) :
  PrimFloat.is_nan v = false -> PrimFloat.is_nan c = false ->
  exists r, SFcompare (Prim2SF v) (Prim2SF c) = Some r.
Proof.
  unfold PrimFloat.is_nan. rewrite !FloatAxioms.eqb_spec. unfold SFeqb.
  intros Hv Hc.
  destruct (Prim2SF v) as [sv | sv | | sv mv ev], (Prim2SF c) as [sc | sc | | sc mc ec];
    cbn in Hv, Hc; try discriminate; cbn [SFcompare]; eexists; reflexivity.
Qed.

(** For a number (not NaN) the test of the commands is the complement of
    membership in the interval [(0, hi]]. *)
Lemma domain_test_complement (v hi : float) :
  PrimFloat.is_nan v = false -> PrimFloat.is_nan hi = false ->
  (PrimFloat.leb v 0 || PrimFloat.ltb hi v)%bool
  = negb (PrimFloat.ltb 0 v && PrimFloat.leb v hi).
Proof.
  intros Hv Hhi.
  destruct (@not_nan_compare v 0%float Hv eq_refl) as [c0 H0].
  destruct (@not_nan_compare v hi Hv Hhi) as [c1 H1].
  rewrite !FloatAxioms.leb_spec, !FloatAxioms.ltb_spec.
  unfold SFleb, SFltb.
  rewrite (SFcompare_antisym (Prim2SF v) (Prim2SF 0)),
          (SFcompare_antisym (Prim2SF v) (Prim2SF hi)), H0, H1.
  destruct c0, c1; reflexivity.
Qed.

Section CommandFacts.

Variable float_of_str : string -> option float.
Variable tc : TrainConfig.

(** A missing or unparsable argument is rejected and nothing changes. *)
Lemma cmd_top_p_malformed (text : string) :
  (forall arg, nth_error (PyStr.split text) 1 = Some arg -> float_of_str arg = None) ->
  cmd_top_p float_of_str text tc = (tc, TopPUsage).
Proof.
  intros H. unfold cmd_top_p.
  destruct (nth_error (PyStr.split text) 1) as [arg |]; [| reflexivity].
  now rewrite (H arg eq_refl).
Qed.

Lemma cmd_temperature_malformed (text : string) :
  (forall arg, nth_error (PyStr.split text) 1 = Some arg -> float_of_str arg = None) ->
  cmd_temperature float_of_str text tc = (tc, TemperatureUsage).
Proof.
  intros H. unfold cmd_temperature.
  destruct (nth_error (PyStr.split text) 1) as [arg |]; [| reflexivity].
  now rewrite (H arg eq_refl).
Qed.

(** A number is stored exactly when it is in the domain. *)
Lemma cmd_top_p_number (text arg : string) (v : float) :
  nth_error (PyStr.split text) 1 = Some arg -> float_of_str arg = Some v ->
  PrimFloat.is_nan v = false ->
  cmd_top_p float_of_str text tc
  = if valid_top_p v then (set_top_p tc v, TopPSet v) else (tc, TopPUsage).
Proof.
  intros Harg Hv Hn. unfold cmd_top_p, valid_top_p. rewrite Harg, Hv.
  rewrite (@domain_test_complement v 1%float Hn eq_refl).
  now destruct (PrimFloat.ltb 0 v && PrimFloat.leb v 1)%bool.
Qed.

Lemma cmd_temperature_number (text arg : string) (v : float) :
  nth_error (PyStr.split text) 1 = Some arg -> float_of_str arg = Some v ->
  PrimFloat.is_nan v = false ->
  cmd_temperature float_of_str text tc
  = if valid_temperature v then (set_temperature tc v, TemperatureSet v)
    else (tc, TemperatureUsage).
Proof.
  intros Harg Hv Hn. unfold cmd_temperature, valid_temperature. rewrite Harg, Hv.
  rewrite (@domain_test_complement v 2%float Hn eq_refl).
  now destruct (PrimFloat.ltb 0 v && PrimFloat.leb v 2)%bool.
Qed.

End CommandFacts.

Lemma commands_store_nan (float_of_str : string -> option float) (tc : TrainConfig) :
  float_of_str "nan" = Some nan ->
  cmd_top_p float_of_str "!top_p nan" tc = (set_top_p tc nan, TopPSet nan) /\
  cmd_temperature float_of_str "!temperature nan" tc
  = (set_temperature tc nan, TemperatureSet nan).
Proof.
  intros Hnan. unfold cmd_top_p, cmd_temperature.
  assert (Hp : nth_error (PyStr.split "!top_p nan") 1 = Some "nan") by reflexivity.
  assert (Ht : nth_error (PyStr.split "!temperature nan") 1 = Some "nan") by reflexivity.
  rewrite Hp, Ht, Hnan. split; reflexivity.
Qed.

(** C8 (failing input). NaN is outside both domains, and when the
    builtin [float] reads the argument [nan] as NaN, as Python's does,
    the input lines [!top_p nan] and [!temperature nan] pass the range
    test: the session stores NaN as the parameter and prints the
    confirmation. *)
Theorem parameter_commands_store_nan
        (config : Config) (tokenizer : Tokenizer) (T : Torch) (M : Model)
        (float_of_str : string -> option float) (s : Session) (evs : list Event) :
  float_of_str "nan" = Some nan ->
  valid_top_p nan = false /\ valid_temperature nan = false /\
  handle_line config tokenizer T M float_of_str s "!top_p nan" evs
  = Some {| history := history s; params := set_top_p (params s) nan;
            kv_cache := kv_cache s; console := console s ++ [TopPSet nan] |} /\
  handle_line config tokenizer T M float_of_str s "!temperature nan" evs
  = Some {| history := history s; params := set_temperature (params s) nan;
            kv_cache := kv_cache s; console := console s ++ [TemperatureSet nan] |}.
Proof.
  intros Hnan.
  destruct (commands_store_nan float_of_str (params s) Hnan) as [Hp Ht].
  split; [reflexivity |]. split; [reflexivity |].
  unfold handle_line.
  change (String.eqb "!top_p nan" "!clear") with false.
  change (String.eqb "!temperature nan" "!clear") with false.
  change (PyStr.startswith "!top_p nan" "!top_p") with true.
  change (PyStr.startswith "!temperature nan" "!top_p") with false.
  change (PyStr.startswith "!temperature nan" "!temperature") with true.
  cbv iota. rewrite Hp, Ht. split; reflexivity.
Qed.

Lemma parameter_commands_store_nan_witness :
  let s := start_session (demo_config false) byte_tokenizer zero_then_A
                         (demo_params 64 None 1 0.5) in
  valid_top_p nan = false /\ valid_temperature nan = false /\
  handle_line (demo_config false) byte_tokenizer RefTorch.ref zero_then_A
              demo_float_of_str s "!top_p nan" []
  = Some {| history := history s; params := set_top_p (params s) nan;
            kv_cache := kv_cache s; console := console s ++ [TopPSet nan] |} /\
  handle_line (demo_config false) byte_tokenizer RefTorch.ref zero_then_A
              demo_float_of_str s "!temperature nan" []
  = Some {| history := history s; params := set_temperature (params s) nan;
            kv_cache := kv_cache s; console := console s ++ [TemperatureSet nan] |}.
Proof.
  apply (parameter_commands_store_nan (demo_config false) byte_tokenizer RefTorch.ref
           zero_then_A demo_float_of_str
           (start_session (demo_config false) byte_tokenizer zero_then_A
                          (demo_params 64 None 1 0.5)) []).
  reflexivity.
Defined.

(** The example of the specification: [!top_p 1.5] is rejected and
    leaves the stored value alone, [!top_p 0.9] is stored and confirmed. *)
Example top_p_commands_of_the_specification :
  let s := start_session (demo_config false) byte_tokenizer zero_then_A
                         (demo_params 64 None 1 0.5) in
  let line := handle_line (demo_config false) byte_tokenizer RefTorch.ref zero_then_A
                          demo_float_of_str s in
  line "!top_p 1.5" []
  = Some {| history := []; params := params s; kv_cache := [];
            console := [TopPUsage] |} /\
  line "!top_p 0.9" []
  = Some {| history := [];
            params := set_top_p (params s) 0x1.ccccccccccccdp-1;
            kv_cache := []; console := [TopPSet 0x1.ccccccccccccdp-1] |} /\
  line "!top_p" []
  = Some {| history := []; params := params s; kv_cache := [];
            console := [TopPUsage] |} /\
  line "!top_p abc" []
  = Some {| history := []; params := params s; kv_cache := [];
            console := [TopPUsage] |}.
Proof. vm_compute. repeat split. Qed.

(** After [!top_p nan] the next generation dies in [round]: the product
    of the vocabulary size with NaN is NaN. *)
Example generation_after_nan_top_p :
  let tc := demo_params 64 None 1 nan in
  fst (run_loop (full_iteration byte_tokenizer RefTorch.ref zero_then_A tc)
                [Draw 0.25]
                (start_turn (demo_config false) byte_tokenizer tc
                            [("hi", EmptyString)] [])) = Crashed.
Proof. vm_compute. reflexivity. Qed.

(** ** Order of the floats *)

Lemma SFltb_rank (x y : spec_float) :
  SFltb x y = true -> rank_lt (sf_rank x) (sf_rank y).
Proof.
  unfold SFltb.
  destruct x as [sx | sx | | sx mx ex], y as [sy | sy | | sy my ey];
    cbn [SFcompare sf_rank]; try discriminate;
    try (destruct sx; cbn; try discriminate; lia);
    try (destruct sy; cbn; try discriminate; lia);
    try (destruct sx, sy; cbn; try discriminate; lia).
  destruct sx, sy; cbn [rank_lt]; try discriminate; try lia.
  - destruct (Z.compare_spec ex ey); try discriminate; try lia.
    rewrite Pos.compare_cont_spec; cbn [Pos.switch_Eq].
    destruct (Pos.compare_spec mx my); cbn [CompOpp]; try discriminate. lia.
  - destruct (Z.compare_spec ex ey); try discriminate; try lia.
    rewrite Pos.compare_cont_spec; cbn [Pos.switch_Eq].
    destruct (Pos.compare_spec mx my); try discriminate. lia.
Qed.

Lemma rank_SFltb (x y : spec_float) :
  x <> S754_nan -> y <> S754_nan ->
  rank_lt (sf_rank x) (sf_rank y) -> SFltb x y = true.
Proof.
  unfold SFltb.
  destruct x as [sx | sx | | sx mx ex], y as [sy | sy | | sy my ey];
    cbn [SFcompare sf_rank]; try congruence; intros _ _;
    try (destruct sx; cbn; try reflexivity; lia);
    try (destruct sy; cbn; try reflexivity; lia);
    try (destruct sx, sy; cbn; try reflexivity; lia).
  destruct sx, sy; cbn [rank_lt]; try reflexivity; try lia.
  - intros H. destruct (Z.compare_spec ex ey); try reflexivity; try lia.
    rewrite Pos.compare_cont_spec; cbn [Pos.switch_Eq].
    destruct (Pos.compare_spec mx my); cbn [CompOpp]; try reflexivity; lia.
  - intros H. destruct (Z.compare_spec ex ey); try reflexivity; try lia.
    rewrite Pos.compare_cont_spec; cbn [Pos.switch_Eq].
    destruct (Pos.compare_spec mx my); try reflexivity; lia.
Qed.

Lemma ltb_not_nan (x y : float) :
  PrimFloat.ltb x y = true -> Prim2SF x <> S754_nan /\ Prim2SF y <> S754_nan.
Proof.
  rewrite FloatAxioms.ltb_spec. unfold SFltb.
  destruct (Prim2SF x), (Prim2SF y); cbn; try discriminate; split; discriminate.
Qed.

Lemma ltb_trans (x y z : float) :
  PrimFloat.ltb x y = true -> PrimFloat.ltb y z = true -> PrimFloat.ltb x z = true.
Proof.
  intros Hxy Hyz.
  destruct (ltb_not_nan _ _ Hxy) as [Hx _], (ltb_not_nan _ _ Hyz) as [_ Hz].
  rewrite FloatAxioms.ltb_spec in *. apply SFltb_rank in Hxy, Hyz.
  apply rank_SFltb; try assumption.
  unfold rank_lt in *.
  destruct (sf_rank (Prim2SF x)) as [[a1 a2] a3], (sf_rank (Prim2SF y)) as [[b1 b2] b3],
           (sf_rank (Prim2SF z)) as [[c1 c2] c3]. lia.
Qed.

Lemma ltb_asym (x y : float) :
  PrimFloat.ltb x y = true -> PrimFloat.ltb y x = false.
Proof.
  intros Hxy. destruct (PrimFloat.ltb y x) eqn:Hyx; [| reflexivity].
  rewrite FloatAxioms.ltb_spec in *. apply SFltb_rank in Hxy, Hyx. unfold rank_lt in *.
  destruct (sf_rank (Prim2SF x)) as [[a1 a2] a3], (sf_rank (Prim2SF y)) as [[b1 b2] b3]. lia.
Qed.

(** ** The reference tensor library meets the contract *)

Module RefTorchFacts.
Import RefTorch.

Lemma insert_desc_perm (a : float * Z) (l : list (float * Z)) :
  Permutation (a :: l) (insert_desc a l).
Proof.
  induction l as [| b l IH]; cbn [insert_desc]; [reflexivity |].
  destruct (PrimFloat.ltb (fst b) (fst a)); [reflexivity |].
  rewrite perm_swap. now constructor.
Qed.

Lemma sort_desc_perm (l : list (float * Z)) : Permutation l (sort_desc l).
Proof.
  induction l as [| a l IH]; cbn [sort_desc fold_right]; [reflexivity |].
  rewrite <- insert_desc_perm. now constructor.
Qed.

Lemma indexed_from_in (x : list float) (start : nat) (v : float) (z : Z) :
  In (v, z) (combine x (map Z.of_nat (seq start (List.length x)))) ->
  exists i, z = Z.of_nat (start + i) /\ nth_error x i = Some v.
Proof.
  revert start. induction x as [| w x IH]; intros start Hin; [destruct Hin |].
  cbn [List.length seq map combine] in Hin. destruct Hin as [Heq | Hin].
  - inversion Heq; subst. exists O. split; [f_equal; lia | reflexivity].
  - destruct (IH (S start) Hin) as [i [Hz Hi]].
    exists (S i). split; [rewrite Hz; f_equal; lia | exact Hi].
Qed.

Lemma snd_combine_same_length {A B : Type} (x : list A) (l : list B) :
  List.length x = List.length l -> map snd (combine x l) = l.
Proof.
  revert l. induction x as [| a x IH]; intros [| b l] Hlen;
    try discriminate; [reflexivity |].
  cbn [combine map snd]. f_equal. apply IH. now inversion Hlen.
Qed.

Lemma indexed_snd (x : list float) :
  map snd (indexed x) = map Z.of_nat (seq 0 (List.length x)).
Proof.
  unfold indexed. apply snd_combine_same_length.
  now rewrite length_map, length_seq.
Qed.

Lemma indexed_length (x : list float) : List.length (indexed x) = List.length x.
Proof.
  unfold indexed. rewrite length_combine, length_map, length_seq. lia.
Qed.

Lemma NoDup_firstn_of {A : Type} (n : nat) (l : list A) :
  NoDup l -> NoDup (firstn n l).
Proof.
  intros Hl. rewrite <- (firstn_skipn n l) in Hl.
  exact (NoDup_app_remove_r _ _ Hl).
Qed.

Lemma NoDup_map_inj {A B : Type} (f : A -> B) (l : list A) :
  (forall a b, f a = f b -> a = b) -> NoDup l -> NoDup (map f l).
Proof.
  intros Hinj Hl. induction Hl as [| a l Hnin Hl IH]; cbn [map]; constructor.
  - intros Hin. apply in_map_iff in Hin. destruct Hin as [b [Hb Hin]].
    apply Hinj in Hb. now subst.
  - exact IH.
Qed.

Lemma sorted_indices_nodup (x : list float) :
  NoDup (map snd (sort_desc (indexed x))).
Proof.
  apply (Permutation_NoDup (l := map snd (indexed x))).
  - apply Permutation_map, sort_desc_perm.
  - rewrite indexed_snd. apply NoDup_map_inj.
    + intros a b. apply Nat2Z.inj.
    + apply seq_NoDup.
Qed.

Lemma ref_topk_some (x : list float) (k : Z) :
  0 <= k <= Z.of_nat (List.length x) ->
  exists vals idxs, ref_topk x k = Some (vals, idxs).
Proof.
  intros Hk. unfold ref_topk.
  destruct (Z.ltb_spec k 0); [lia |].
  destruct (Z.ltb_spec (Z.of_nat (List.length x)) k); [lia |].
  cbn [orb]. eexists; eexists; reflexivity.
Qed.

Lemma ref_topk_shape (x : list float) (k : Z) (vals : list float) (idxs : list Z) :
  ref_topk x k = Some (vals, idxs) ->
  0 <= k /\ Z.of_nat (List.length vals) = k /\ List.length idxs = List.length vals /\
  NoDup idxs /\
  forall j, (j < List.length vals)%nat ->
    exists i, nth_error idxs j = Some (Z.of_nat i) /\
              nth_error x i = nth_error vals j.
Proof.
  unfold ref_topk.
  destruct (Z.ltb_spec k 0); [discriminate |].
  destruct (Z.ltb_spec (Z.of_nat (List.length x)) k); [discriminate |].
  cbn [orb]. intros Heq. inversion Heq as [[Hv Hi]]. clear Heq.
  clear Hv Hi.
  set (top := firstn (Z.to_nat k) (sort_desc (indexed x))).
  assert (Hlen : List.length top = Z.to_nat k).
  { unfold top. rewrite length_firstn.
    rewrite <- (Permutation_length (sort_desc_perm (indexed x))), indexed_length. lia. }
  split; [assumption |]. rewrite !length_map, Hlen.
  split; [lia |]. split; [reflexivity |].
  split; [unfold top; rewrite <- firstn_map; apply NoDup_firstn_of, sorted_indices_nodup |].
  intros j Hj.
  destruct (nth_error top j) as [[v z] |] eqn:Hnth.
  - assert (Hin : In (v, z) (indexed x)).
    { apply (Permutation_in (l := sort_desc (indexed x))).
      - symmetry. apply sort_desc_perm.
      - apply nth_error_In in Hnth. unfold top in Hnth.
        rewrite <- (firstn_skipn (Z.to_nat k) (sort_desc (indexed x))).
        apply in_or_app. now left. }
    destruct (indexed_from_in x 0 v z Hin) as [i [Hz Hxi]].
    exists i. rewrite !nth_error_map, Hnth. cbn [option_map fst snd].
    split; [now rewrite Hz | exact Hxi].
  - apply nth_error_None in Hnth. lia.
Qed.

Lemma insert_desc_sorted (a : float * Z) (l : list (float * Z)) :
  StronglySorted not_below l -> StronglySorted not_below (insert_desc a l).
Proof.
  intros Hl. induction Hl as [| b l Hl IH Hb]; cbn [insert_desc].
  - repeat constructor.
  - destruct (PrimFloat.ltb (fst b) (fst a)) eqn:Hba.
    + constructor; [now constructor |]. constructor.
      * now apply ltb_asym.
      * apply Forall_forall. intros c Hc.
        pose proof (proj1 (Forall_forall _ _) Hb c Hc) as Hbc. unfold not_below in *.
        destruct (PrimFloat.ltb (fst a) (fst c)) eqn:Hac; [| reflexivity].
        now rewrite (ltb_trans _ _ _ Hba Hac) in Hbc.
    + constructor; [exact IH |].
      apply (Permutation_Forall (insert_desc_perm a l)). now constructor.
Qed.

Lemma sort_desc_sorted (l : list (float * Z)) : StronglySorted not_below (sort_desc l).
Proof.
  induction l as [| a l IH]; cbn [sort_desc fold_right]; [constructor |].
  now apply insert_desc_sorted.
Qed.

Lemma sorted_app_order {A : Type} (R : A -> A -> Prop) (l1 l2 : list A) :
  StronglySorted R (l1 ++ l2) -> forall a b, In a l1 -> In b l2 -> R a b.
Proof.
  induction l1 as [| x l1 IH]; intros Hs a b Ha Hb; [destruct Ha |].
  cbn [app] in Hs. inversion Hs as [| y l Hl Hx]; subst.
  destruct Ha as [-> | Ha]; [| now apply IH].
  apply (proj1 (Forall_forall _ _) Hx). apply in_or_app. now right.
Qed.

Lemma indexed_from_nth (x : list float) (start i : nat) (w : float) :
  nth_error x i = Some w ->
  In (w, Z.of_nat (start + i)) (combine x (map Z.of_nat (seq start (List.length x)))).
Proof.
  revert start i. induction x as [| v x IH]; intros start i Hi; [destruct i; discriminate |].
  cbn [List.length seq map combine]. destruct i as [| i].
  - inversion Hi; subst. left. f_equal. f_equal. lia.
  - right. replace (start + S i)%nat with (S start + i)%nat by lia. now apply IH.
Qed.

Lemma ref_topk_top (x : list float) (k : Z) (vals : list float) (idxs : list Z) :
  ref_topk x k = Some (vals, idxs) ->
  forall i w v, nth_error x i = Some w -> ~ In (Z.of_nat i) idxs ->
                In v vals -> PrimFloat.ltb v w = false.
Proof.
  unfold ref_topk.
  destruct ((k <? 0) || (Z.of_nat (List.length x) <? k)); [discriminate |].
  intros Heq i w v Hw Hout Hv. inversion Heq as [[Hvals Hidxs]]. clear Heq.
  set (sorted := sort_desc (indexed x)) in *.
  assert (Hin : In (w, Z.of_nat i) sorted).
  { apply (Permutation_in _ (sort_desc_perm (indexed x))).
    exact (indexed_from_nth x 0 i w Hw). }
  rewrite <- (firstn_skipn (Z.to_nat k) sorted) in Hin.
  apply in_app_or in Hin. destruct Hin as [Hin | Hin].
  - exfalso. apply Hout. rewrite <- Hidxs.
    apply in_map_iff. now exists (w, Z.of_nat i).
  - rewrite <- Hvals in Hv. apply in_map_iff in Hv. destruct Hv as [[v' j] [Hfst Hkept]].
    cbn [fst] in Hfst. subst v'.
    apply (sorted_app_order not_below (firstn (Z.to_nat k) sorted)
                            (skipn (Z.to_nat k) sorted)
             ltac:(rewrite firstn_skipn; apply sort_desc_sorted)
             (v, j) (w, Z.of_nat i) Hkept Hin).
Qed.

Lemma pick_range (p : list float) (acc target : float) (i : nat) :
  p <> [] -> (pick p acc target i < i + List.length p)%nat.
Proof.
  revert acc i. induction p as [| v rest IH]; intros acc i Hne; [congruence |].
  cbn [pick List.length]. destruct rest as [| w rest']; [lia |].
  destruct (PrimFloat.ltb target (PrimFloat.add acc v)); [lia |].
  specialize (IH (PrimFloat.add acc v) (S i)).
  cbn [List.length] in IH |- *. assert (w :: rest' <> []) by discriminate.
  specialize (IH H). lia.
Qed.

Lemma ref_multinomial_range (p : list float) (u : float) (i : nat) :
  ref_multinomial p u = Some i -> (i < List.length p)%nat.
Proof.
  unfold ref_multinomial. destruct p as [| v rest]; [discriminate |].
  destruct (forallb valid_weight (v :: rest) && _)%bool; [| discriminate].
  intros Heq. inversion Heq. apply (@pick_range (v :: rest)). discriminate.
Qed.

Lemma ref_spec : TorchSpec ref.
Proof.
  constructor.
  - exact ref_topk_some.
  - exact ref_topk_shape.
  - exact ref_topk_top.
  - exact ref_multinomial_range.
  - reflexivity.
Qed.

End RefTorchFacts.

(** ** Sampling step *)

Lemma bind_some {A B : Type} (x : option A) (f : A -> option B) (b : B) :
  bind x f = Some b -> exists a, x = Some a /\ f a = Some b.
Proof. destruct x as [a |]; [now exists a | discriminate]. Qed.

(** When the rounded count is 0 the draw has nothing to draw from. *)
Lemma sample_step_none_of_zero (T : Torch) (HT : TorchSpec T) (vocab : Z)
      (tc : TrainConfig) (last_logits : list float) (u : float) :
  PyFloat.round (PyFloat.int_mul vocab (top_p tc)) = Some 0 ->
  sample_step T vocab tc last_logits u = None.
Proof.
  intros Hk. unfold sample_step. rewrite Hk. cbn [bind].
  destruct (topk T _ 0) as [[probs indices] |] eqn:Htop; [| reflexivity].
  cbn [bind].
  destruct (topk_shape T HT _ _ _ _ Htop) as [_ [Hlen _]].
  destruct probs; [| discriminate].
  now rewrite (multinomial_empty T HT).
Qed.

(** C7 (failing input). [top_p = 2^-10] is in the domain [(0, 1]], and
    with a vocabulary of 256 tokens [round(256 * 2^-10) = round(0.25) = 0]:
    the selection is empty and the sampling step raises, whatever the
    logits and the draw. *)
Theorem sample_step_raises_for_small_top_p
        (T : Torch) (tc : TrainConfig) (last_logits : list float) (u : float) :
  TorchSpec T ->
  top_p tc = 0x1p-10%float ->
  valid_top_p (top_p tc) = true /\
  PyFloat.round (PyFloat.int_mul 256 (top_p tc)) = Some 0 /\
  sample_step T 256 tc last_logits u = None.
Proof.
  intros HT Hp.
  assert (Hk : PyFloat.round (PyFloat.int_mul 256 (top_p tc)) = Some 0)
    by (rewrite Hp; vm_compute; reflexivity).
  split; [rewrite Hp; reflexivity |]. split; [exact Hk |].
  now apply sample_step_none_of_zero.
Qed.

Lemma sample_step_raises_for_small_top_p_witness :
  valid_top_p 0x1p-10%float = true /\
  PyFloat.round (PyFloat.int_mul 256 0x1p-10%float) = Some 0 /\
  sample_step RefTorch.ref 256 (demo_params 64 None 1 0x1p-10)
              (one_hot_logits 256 3) 0.25%float = None.
Proof.
  apply (sample_step_raises_for_small_top_p RefTorch.ref
           (demo_params 64 None 1 0x1p-10) (one_hot_logits 256 3) 0.25%float).
  - exact RefTorchFacts.ref_spec.
  - reflexivity.
Defined.

(** C6 (failing input). A vocabulary of 32000 tokens, temperature 1.0
    and [top_p = 0.00001] (the float that [float] reads from that
    text): both parameters are in their domain, and
    [round(32000 * 0.00001) = round(0.32) = 0]. The step then keeps no
    token and raises in the draw, whatever the model output and the
    variate: it computes no token and no confidence. *)
Theorem sample_step_fails_for_valid_parameters
        (T : Torch) (tc : TrainConfig) (last_logits : list float) (u : float) :
  TorchSpec T ->
  temperature tc = 1%float ->
  top_p tc = 0x1.4f8b588e368f1p-17%float ->
  valid_temperature (temperature tc) = true /\
  valid_top_p (top_p tc) = true /\
  PyFloat.round (PyFloat.int_mul 32000 (top_p tc)) = Some 0 /\
  topk T (softmax T (div_scalar T last_logits (temperature tc))) 0 <> None /\
  sample_step T 32000 tc last_logits u = None.
Proof.
  intros HT Ht Hp.
  assert (Hk : PyFloat.round (PyFloat.int_mul 32000 (top_p tc)) = Some 0)
    by (rewrite Hp; vm_compute; reflexivity).
  split; [rewrite Ht; reflexivity |]. split; [rewrite Hp; reflexivity |].
  split; [exact Hk |]. split.
  - destruct (topk_some T HT (softmax T (div_scalar T last_logits (temperature tc))) 0)
      as [vals [idxs Htop]]; [lia |]. rewrite Htop. discriminate.
  - now apply sample_step_none_of_zero.
Qed.

Lemma sample_step_fails_for_valid_parameters_witness :
  let tc := demo_params 2048 None 1 0x1.4f8b588e368f1p-17 in
  valid_temperature (temperature tc) = true /\
  valid_top_p (top_p tc) = true /\
  PyFloat.round (PyFloat.int_mul 32000 (top_p tc)) = Some 0 /\
  topk RefTorch.ref
       (softmax RefTorch.ref
                (div_scalar RefTorch.ref (one_hot_logits 256 3) (temperature tc))) 0
  <> None /\
  sample_step RefTorch.ref 32000 tc (one_hot_logits 256 3) 0.25%float = None.
Proof.
  apply (sample_step_fails_for_valid_parameters RefTorch.ref
           (demo_params 2048 None 1 0x1.4f8b588e368f1p-17)
           (one_hot_logits 256 3) 0.25%float).
  - exact RefTorchFacts.ref_spec.
  - reflexivity.
  - reflexivity.
Defined.

(** What a sampling step that returns a sample has computed: the
    probabilities are the softmax of the last-position logits divided
    by the temperature; [k = round(vocab_size * top_p)] of them are
    kept by [topk] -- exactly [k] distinct tokens, whatever their
    cumulative mass, and no token left out has a larger probability
    than a kept one; the multinomial draw is over the kept
    probabilities as they are; the chosen token is the kept index at the
    drawn position, its probability is the softmax probability of that
    token, and the confidence is [round(probability ** 0.5 * 16)]. *)
Lemma sample_step_computes
        (T : Torch) (vocab : Z) (tc : TrainConfig)
        (last_logits : list float) (u : float) (s : Sample) :
  TorchSpec T ->
  sample_step T vocab tc last_logits u = Some s ->
  let dist := softmax T (div_scalar T last_logits (temperature tc)) in
  exists (k : Z) (probs : list float) (indices : list Z) (sample : nat),
    PyFloat.round (PyFloat.int_mul vocab (top_p tc)) = Some k /\
    topk T dist k = Some (probs, indices) /\
    Z.of_nat (List.length probs) = k /\
    List.length indices = List.length probs /\
    NoDup indices /\
    (forall i w v, nth_error dist i = Some w -> ~ In (Z.of_nat i) indices ->
                   In v probs -> PrimFloat.ltb v w = false) /\
    multinomial T probs u = Some sample /\
    nth_error indices sample = Some (token_id s) /\
    nth_error probs sample = Some (prob s) /\
    nth_error dist (Z.to_nat (token_id s)) = Some (prob s) /\
    0 <= token_id s /\
    PyFloat.round (PrimFloat.mul (pow_half T (prob s)) 16)
    = Some (confidence_level s).
Proof.
  intros HT Hs dist. unfold sample_step in Hs. fold dist in Hs.
  apply bind_some in Hs. destruct Hs as [k [Hk Hs]].
  apply bind_some in Hs. destruct Hs as [[probs indices] [Htop Hs]].
  apply bind_some in Hs. destruct Hs as [sample [Hm Hs]].
  apply bind_some in Hs. destruct Hs as [tok [Htok Hs]].
  apply bind_some in Hs. destruct Hs as [p [Hp Hs]].
  apply bind_some in Hs. destruct Hs as [c [Hc Hs]].
  inversion Hs; subst s; clear Hs. cbn [token_id prob confidence_level].
  destruct (topk_shape T HT _ _ _ _ Htop) as [_ [Hlen [Hli [Hnd Hidx]]]].
  pose proof (topk_top T HT _ _ _ _ Htop) as Hmax.
  pose proof (multinomial_range T HT _ _ _ Hm) as Hr.
  destruct (Hidx sample Hr) as [i [Hi Hxi]].
  rewrite Htok in Hi. inversion Hi; subst tok.
  exists k, probs, indices, sample.
  rewrite Nat2Z.id, Hxi, Hp.
  repeat split; try assumption; try reflexivity. lia.
Qed.

Example sample_step_computes_at_a_one_hot_output :
  let tc := demo_params 64 None 1 0.5 in
  let s := {| token_id := 3; prob := 1; confidence_level := 16 |} in
  let dist := softmax RefTorch.ref
                (div_scalar RefTorch.ref (one_hot_logits 256 3) (temperature tc)) in
  exists (k : Z) (probs : list float) (indices : list Z) (sample : nat),
    PyFloat.round (PyFloat.int_mul 256 (top_p tc)) = Some k /\
    topk RefTorch.ref dist k = Some (probs, indices) /\
    Z.of_nat (List.length probs) = k /\
    List.length indices = List.length probs /\
    NoDup indices /\
    (forall i w v, nth_error dist i = Some w -> ~ In (Z.of_nat i) indices ->
                   In v probs -> PrimFloat.ltb v w = false) /\
    multinomial RefTorch.ref probs 0.25%float = Some sample /\
    nth_error indices sample = Some (token_id s) /\
    nth_error probs sample = Some (prob s) /\
    nth_error dist (Z.to_nat (token_id s)) = Some (prob s) /\
    0 <= token_id s /\
    PyFloat.round (PrimFloat.mul (pow_half RefTorch.ref (prob s)) 16)
    = Some (confidence_level s).
Proof.
  apply (sample_step_computes RefTorch.ref 256 (demo_params 64 None 1 0.5)
           (one_hot_logits 256 3) 0.25%float
           {| token_id := 3; prob := 1; confidence_level := 16 |}).
  - exact RefTorchFacts.ref_spec.
  - vm_compute. reflexivity.
Defined.

(** ** Stop policy *)

Lemma is_newline_spec (t : option string) :
  is_newline t = true <-> t = Some Py.newline.
Proof.
  destruct t as [x |]; cbn [is_newline]; [| split; discriminate].
  split; [intros H; apply String.eqb_eq in H; now subst | intros H].
  inversion H. apply String.eqb_refl.
Qed.

Lemma leading_newlines_nonneg (toks : list (option string)) :
  0 <= leading_newlines toks.
Proof.
  induction toks as [| t rest IH]; cbn [leading_newlines]; [lia |].
  destruct (is_newline t); lia.
Qed.

Lemma trailing_newlines_snoc (toks : list (option string)) (t : option string) :
  trailing_newlines (toks ++ [t])
  = if is_newline t then 1 + trailing_newlines toks else 0.
Proof.
  unfold trailing_newlines. rewrite rev_app_distr. reflexivity.
Qed.

Lemma trailing_two (toks : list (option string)) :
  2 <= trailing_newlines toks ->
  exists pre, toks = pre ++ [Some Py.newline; Some Py.newline].
Proof.
  unfold trailing_newlines. intros H.
  destruct (rev toks) as [| a [| b r]] eqn:Hrev; cbn [leading_newlines] in H.
  - lia.
  - destruct (is_newline a); lia.
  - destruct (is_newline a) eqn:Ha; [| lia].
    destruct (is_newline b) eqn:Hb; [| lia].
    apply is_newline_spec in Ha, Hb. subst a b.
    exists (rev r). rewrite <- (rev_involutive toks), Hrev.
    cbn [rev]. now rewrite <- app_assoc.
Qed.

Lemma trailing_after_two (pre : list (option string)) :
  2 <= trailing_newlines (pre ++ [Some Py.newline; Some Py.newline]).
Proof.
  unfold trailing_newlines. rewrite rev_app_distr.
  cbn [rev app leading_newlines is_newline]. rewrite String.eqb_refl.
  pose proof (leading_newlines_nonneg (rev pre)). lia.
Qed.

(** A decomposition of [toks ++ [t]] around three newlines either has
    them at the very end or is one of [toks]. *)
Lemma triple_snoc (toks pre post : list (option string)) (t : option string) :
  toks ++ [t] = pre ++ three_newlines ++ post ->
  (post = [] /\ t = Some Py.newline
   /\ toks = pre ++ [Some Py.newline; Some Py.newline]) \/
  (exists post', post = post' ++ [t] /\ toks = pre ++ three_newlines ++ post').
Proof.
  intros H. destruct (rev post) as [| x rp] eqn:Hrev.
  - left. apply (f_equal (@rev (option string))) in Hrev.
    rewrite rev_involutive in Hrev.
    cbn [rev] in Hrev. subst post. rewrite app_nil_r in H.
    change three_newlines
      with ([Some Py.newline; Some Py.newline] ++ [Some Py.newline]) in H.
    rewrite app_assoc in H. apply app_inj_tail in H. destruct H as [-> ->].
    auto.
  - right. apply (f_equal (@rev (option string))) in Hrev.
    rewrite rev_involutive in Hrev.
    cbn [rev] in Hrev. subst post. exists (rev rp).
    rewrite !app_assoc in H. apply app_inj_tail in H. destruct H as [-> ->].
    rewrite <- !app_assoc. auto.
Qed.

(** What [emit] leaves alone. *)
Lemma emit_frame (tokenizer : Tokenizer) (interrupted : bool) (g : Gen) (s : Sample) :
  let g' := snd (emit tokenizer interrupted g s) in
  input_ids g' = input_ids g /\ cache g' = cache g /\ last_out g' = last_out g /\
  calls g' = calls g /\ sampled g' = sampled g /\ n_blankline g' = n_blankline g /\
  fst (emit tokenizer interrupted g s) <> Stopped.
Proof.
  unfold emit. destruct interrupted;
    [| destruct (id_to_token tokenizer (token_id s))];
    cbn; repeat split; discriminate.
Qed.

Lemma stop_or_emit_effect (tokenizer : Tokenizer) (interrupted : bool)
      (g : Gen) (s : Sample) :
  let nl := is_newline (id_to_token tokenizer (token_id s)) in
  let r := stop_or_emit tokenizer interrupted g s in
  sampled (snd r) = sampled g /\
  n_blankline (snd r) = (if nl then n_blankline g + 1 else 0) /\
  if nl && (n_blankline g + 1 >=? 3) then fst r = Stopped else fst r <> Stopped.
Proof.
  unfold stop_or_emit.
  destruct (is_newline (id_to_token tokenizer (token_id s)));
    cbn [with_count n_blankline andb].
  - destruct (n_blankline g + 1 >=? 3); [cbn; auto |].
    match goal with |- context [emit _ _ ?g0 _] =>
      destruct (emit_frame tokenizer interrupted g0 s) as [_ [_ [_ [_ [E1 [E2 E3]]]]]]
    end. cbv zeta. rewrite E1, E2. auto.
  - match goal with |- context [emit _ _ ?g0 _] =>
      destruct (emit_frame tokenizer interrupted g0 s) as [_ [_ [_ [_ [E1 [E2 E3]]]]]]
    end. cbv zeta. rewrite E1, E2. auto.
Qed.

(** What [stop_or_emit] leaves alone, and what it computes from the
    counter, the response and the console only. *)
Lemma stop_or_emit_frame (tokenizer : Tokenizer) (interrupted : bool)
      (g : Gen) (s : Sample) :
  let g' := snd (stop_or_emit tokenizer interrupted g s) in
  input_ids g' = input_ids g /\ cache g' = cache g /\ last_out g' = last_out g /\
  calls g' = calls g /\ sampled g' = sampled g.
Proof.
  unfold stop_or_emit.
  repeat match goal with |- context [if ?b then _ else _] => destruct b end;
    try (cbn; repeat split; fail);
    match goal with |- context [emit _ _ ?g0 _] =>
      destruct (emit_frame tokenizer interrupted g0 s) as [E1 [E2 [E3 [E4 [E5 _]]]]]
    end; cbv zeta; rewrite E1, E2, E3, E4, E5; repeat split.
Qed.

Lemma stop_or_emit_same (tokenizer : Tokenizer) (interrupted : bool)
      (g1 g2 : Gen) (s : Sample) :
  n_blankline g1 = n_blankline g2 -> response g1 = response g2 ->
  printed g1 = printed g2 ->
  let r1 := stop_or_emit tokenizer interrupted g1 s in
  let r2 := stop_or_emit tokenizer interrupted g2 s in
  fst r1 = fst r2 /\ n_blankline (snd r1) = n_blankline (snd r2) /\
  response (snd r1) = response (snd r2) /\ printed (snd r1) = printed (snd r2).
Proof.
  intros Hn Hr Hp. unfold stop_or_emit, emit.
  destruct (is_newline (id_to_token tokenizer (token_id s)));
    cbn [with_count n_blankline]; rewrite <- ?Hn;
    repeat match goal with |- context [if ?b then _ else _] => destruct b end;
    try destruct (id_to_token tokenizer (token_id s));
    cbn [with_count with_print with_response n_blankline response printed fst snd];
    rewrite ?Hn, ?Hr, ?Hp; repeat split.
Qed.

Lemma full_step_policy (tokenizer : Tokenizer) (T : Torch) (M : Model)
      (tc : TrainConfig) (interrupted : bool) (g : Gen) (u : float)
      (o : Outcome) (g' : Gen) :
  full_step tokenizer T M tc interrupted g u = (o, g') ->
  (sampled g' = sampled g /\ n_blankline g' = n_blankline g /\
   (o = Interrupted \/ o = Crashed)) \/
  (exists t,
      sampled g' = sampled g ++ [t] /\
      let nl := is_newline (id_to_token tokenizer t) in
      n_blankline g' = (if nl then n_blankline g + 1 else 0) /\
      if nl && (n_blankline g + 1 >=? 3) then o = Stopped else o <> Stopped).
Proof.
  unfold full_step. intros H.
  destruct (last_row _) as [row |]; [| inversion H; subst; left; cbn; auto].
  destruct (sample_step _ _ _ _ _) as [s |]; [| inversion H; subst; left; cbn; auto].
  right. exists (token_id s).
  match type of H with stop_or_emit _ _ ?g0 _ = _ =>
    pose proof (stop_or_emit_effect tokenizer interrupted g0 s) as E
  end.
  cbv zeta in E. rewrite H in E. cbn [fst snd] in E. exact E.
Qed.

Lemma cache_call_frame (config : Config) (tokenizer : Tokenizer) (M : Model)
      (tc : TrainConfig) (h : History) (g : Gen) :
  let g' := fst (cache_call config tokenizer M tc h g) in
  sampled g' = sampled g /\ n_blankline g' = n_blankline g /\
  response g' = response g /\ printed g' = printed g /\ last_out g' = last_out g /\
  exists arg, calls g' = calls g ++ [arg] /\ cache g' = cache g ++ arg.
Proof.
  unfold cache_call, update.
  destruct (negb (tensor_truthy (last_out g))); cbn; repeat split; eauto.
Qed.

Lemma cache_step_policy (config : Config) (tokenizer : Tokenizer) (T : Torch)
      (M : Model) (tc : TrainConfig) (h : History) (interrupted : bool)
      (g : Gen) (u : float) (o : Outcome) (g' : Gen) :
  cache_step config tokenizer T M tc interrupted h g u = (o, g') ->
  (sampled g' = sampled g /\ n_blankline g' = n_blankline g /\
   (o = Interrupted \/ o = Crashed)) \/
  (exists t,
      sampled g' = sampled g ++ [t] /\
      let nl := is_newline (id_to_token tokenizer t) in
      n_blankline g' = (if nl then n_blankline g + 1 else 0) /\
      if nl && (n_blankline g + 1 >=? 3) then o = Stopped else o <> Stopped).
Proof.
  unfold cache_step. intros H.
  destruct (cache_call_frame config tokenizer M tc h g) as [Hs [Hn _]].
  destruct (cache_call config tokenizer M tc h g) as [g1 row]. cbn [fst] in Hs, Hn.
  destruct row as [row |]; [| inversion H; subst; left; auto].
  destruct (sample_step _ _ _ _ _) as [s |]; [| inversion H; subst; left; auto].
  right. exists (token_id s).
  match type of H with stop_or_emit _ _ ?g0 _ = _ =>
    pose proof (stop_or_emit_effect tokenizer interrupted g0 s) as E
  end.
  cbv zeta in E. rewrite H in E.
  cbn [fst snd with_sample sampled n_blankline] in E. rewrite Hs, Hn in E. exact E.
Qed.

Lemma full_iteration_policy (tokenizer : Tokenizer) (T : Torch) (M : Model)
      (tc : TrainConfig) :
  policy_step tokenizer (full_iteration tokenizer T M tc).
Proof.
  intros g ev o g' H. destruct ev as [u | | | u]; cbn [full_iteration] in H;
    try (now apply full_step_policy in H);
    inversion H; subst; left; cbn; auto.
Qed.

Lemma cache_iteration_policy (config : Config) (tokenizer : Tokenizer) (T : Torch)
      (M : Model) (tc : TrainConfig) (history : History) :
  policy_step tokenizer (cache_iteration config tokenizer T M tc history).
Proof.
  intros g ev o g' H. destruct ev as [u | | | u]; cbn [cache_iteration] in H;
    try (now apply cache_step_policy in H).
  - inversion H; subst; left; cbn; auto.
  - destruct (cache_call_frame config tokenizer M tc history g) as [Hs [Hn _]].
    inversion H; subst; left. cbn [with_print sampled n_blankline]. auto.
Qed.

Lemma counting_start (config : Config) (tokenizer : Tokenizer) (tc : TrainConfig)
      (history : History) (cache0 : list Z) :
  counting tokenizer (start_turn config tokenizer tc history cache0).
Proof.
  unfold counting, start_turn. cbn [sampled n_blankline map].
  split; [reflexivity |]. split; [lia |].
  intros pre post H. destruct pre; discriminate.
Qed.

(** A loop that left without stopping keeps the policy. *)
Lemma counting_holds (tokenizer : Tokenizer) (o : Outcome) (g : Gen) :
  counting tokenizer g -> o <> Stopped -> stop_policy_holds tokenizer (o, g).
Proof.
  intros [Hn [Hlt Hno]] Ho. unfold stop_policy_holds. cbn [fst snd].
  split; [congruence |]. split; [| exact Hn].
  intros pre post H. now apply Hno in H.
Qed.

Lemma run_loop_policy (tokenizer : Tokenizer)
      (iteration : Gen -> Event -> Outcome * Gen) :
  policy_step tokenizer iteration ->
  forall evs g, counting tokenizer g ->
                stop_policy_holds tokenizer (run_loop iteration evs g).
Proof.
  intros Hstep evs. induction evs as [| ev evs IH]; intros g Hg.
  - cbn [run_loop]. apply counting_holds; [exact Hg | discriminate].
  - cbn [run_loop]. destruct (iteration g ev) as [o g'] eqn:Hit.
    destruct Hg as [Hn [Hlt Hno]].
    destruct (Hstep g ev o g' Hit) as [[Hs [Hc Ho]] | [t [Hs [Hc Ho]]]].
    + assert (Hg' : counting tokenizer g').
      { unfold counting. rewrite Hs, Hc. auto. }
      destruct Ho as [-> | ->]; apply counting_holds; auto; discriminate.
    + cbv zeta in Hc, Ho.
      set (toks := map (id_to_token tokenizer) (sampled g)) in *.
      assert (Htoks : map (id_to_token tokenizer) (sampled g')
                      = toks ++ [id_to_token tokenizer t]).
      { rewrite Hs, map_app. reflexivity. }
      assert (Hgo : is_newline (id_to_token tokenizer t)
                    && (n_blankline g + 1 >=? 3) = false ->
                    counting tokenizer g').
      { intros Hb. unfold counting. cbv zeta. rewrite Htoks, Hc.
        rewrite trailing_newlines_snoc.
        destruct (is_newline (id_to_token tokenizer t)) eqn:Hnl.
        - cbn [andb] in Hb.
          destruct (Z.geb_spec (n_blankline g + 1) 3) as [| Hlt3]; [discriminate |].
          split; [lia |]. split; [lia |].
          intros pre post H.
          destruct (triple_snoc _ _ _ _ H) as [[_ [_ Ht]] | [post' [_ Ht]]];
            [| now apply Hno in Ht].
          pose proof (trailing_after_two pre) as H2. fold toks in Hn.
          rewrite <- Ht in H2. lia.
        - split; [reflexivity |]. split; [lia |].
          intros pre post H.
          destruct (triple_snoc _ _ _ _ H) as [[_ [Ht _]] | [post' [_ Ht]]];
            [| now apply Hno in Ht].
          apply is_newline_spec in Ht. congruence. }
      destruct (is_newline (id_to_token tokenizer t)
                && (n_blankline g + 1 >=? 3)) eqn:Hb.
      * (* the third newline in a row *)
        subst o. apply andb_true_iff in Hb. destruct Hb as [Hnl Hge].
        apply is_newline_spec in Hnl.
        destruct (Z.geb_spec (n_blankline g + 1) 3) as [Hge3 |]; [| discriminate].
        unfold stop_policy_holds. cbn [fst snd]. rewrite Htoks, Hnl.
        destruct (trailing_two toks ltac:(fold toks in Hn; lia)) as [pre0 Hpre0].
        split; [| split].
        -- intros _. exists pre0. rewrite Hpre0, <- app_assoc. reflexivity.
        -- intros pre post H. split; [reflexivity |].
           destruct (triple_snoc _ _ _ _ H) as [[Hp _] | [post' [_ Ht]]];
             [exact Hp | now apply Hno in Ht].
        -- rewrite Hc, Hnl. cbn [is_newline]. rewrite String.eqb_refl.
           rewrite trailing_newlines_snoc. cbn [is_newline].
           rewrite String.eqb_refl. fold toks in Hn. lia.
      * specialize (Hgo eq_refl).
        destruct o; [now apply IH | contradiction | |];
          apply counting_holds; auto; discriminate.
Qed.

(** C4. In both generation modes, whatever the events of the turn: a
    loop that stops on the blank-line count has sampled three newline
    tokens last; three consecutive newline tokens occur among the
    sampled tokens only as the last three, with the loop stopped there
    (so it never runs past a third newline, and never stops on fewer);
    and the counter is the number of newline tokens since the last
    token that is not a newline, hence 0 right after such a token. *)
Theorem stop_policy_in_both_modes
        (config : Config) (tokenizer : Tokenizer) (T : Torch) (M : Model)
        (tc : TrainConfig) (history : History) (cache0 : list Z)
        (evs : list Event) :
  stop_policy_holds tokenizer
    (run_loop (full_iteration tokenizer T M tc) evs
              (start_turn config tokenizer tc history cache0)) /\
  stop_policy_holds tokenizer
    (run_loop (cache_iteration config tokenizer T M tc history) evs
              (start_turn config tokenizer tc history cache0)).
Proof.
  split; apply run_loop_policy;
    auto using full_iteration_policy, cache_iteration_policy, counting_start.
Qed.

(** A run of the model that always answers with a newline stops at the
    third one, with events to spare. *)
Example three_newlines_stop_the_turn :
  let r := run_loop (full_iteration byte_tokenizer RefTorch.ref
                       (last_token_model (fun _ => 10)) (demo_params 64 None 1 1))
                    [Draw 0.25; Draw 0.25; Draw 0.25; Draw 0.25; Draw 0.25]
                    (start_turn (demo_config false) byte_tokenizer
                                (demo_params 64 None 1 1) [("hi", EmptyString)] []) in
  fst r = Stopped /\ sampled (snd r) = [10; 10; 10] /\
  response (snd r) = (Py.newline ++ Py.newline)%string.
Proof. vm_compute. repeat split. Qed.

(** ** Sliding window of the full-recompute loop *)

Lemma slice_from_neg_skipn {A : Type} (m : Z) (l : list A) :
  0 < m -> Py.slice_from (- m) l = skipn (List.length l - Z.to_nat m) l.
Proof.
  intros Hm. unfold Py.slice_from.
  destruct (Z.ltb_spec (- m) 0); [| lia]. f_equal. lia.
Qed.

Lemma slice_window {A : Type} (m : Z) (l : list A) (t : A) :
  0 < m ->
  Py.slice_from (- m) (Py.slice_from (- m) l ++ [t]) = Py.slice_from (- m) (l ++ [t]).
Proof.
  intros Hm. rewrite !slice_from_neg_skipn by assumption.
  rewrite !length_app, length_skipn. cbn [List.length].
  set (n := List.length l). set (k := Z.to_nat m).
  assert (Hk : (0 < k)%nat) by (unfold k; lia).
  destruct (Nat.le_gt_cases k n) as [Hle | Hgt].
  - replace (n - (n - k) + 1 - k)%nat with 1%nat by lia.
    replace (n + 1 - k)%nat with (S (n - k)) by lia.
    rewrite !skipn_app, length_skipn. fold n.
    replace (S (n - k) - n)%nat with O by lia.
    replace (1 - (n - (n - k)))%nat with O by lia.
    rewrite skipn_skipn. do 2 f_equal.
  - replace (n - k)%nat with O by lia. cbn [skipn]. rewrite Nat.sub_0_r.
    replace (n + 1 - k)%nat with O by lia. reflexivity.
Qed.

Lemma slice_drop_front {A : Type} (m : Z) (a b : list A) :
  0 < m -> m <= Z.of_nat (List.length b) ->
  Py.slice_from (- m) (a ++ b) = Py.slice_from (- m) b.
Proof.
  intros Hm Hb. rewrite !slice_from_neg_skipn by assumption.
  rewrite length_app, skipn_app.
  replace (List.length a + List.length b - Z.to_nat m - List.length a)%nat
    with (List.length b - Z.to_nat m)%nat by lia.
  rewrite skipn_all2 by lia. reflexivity.
Qed.

Lemma last_row_prefixes {A B : Type} (f : list A -> B) (l : list A) :
  l <> [] -> last_row (map f (prefixes l)) = Some (f l).
Proof.
  intros Hne. unfold last_row, prefixes.
  rewrite !length_map, length_seq, !nth_error_map.
  assert (Hlen : (0 < List.length l)%nat) by (destruct l; [congruence | cbn; lia]).
  rewrite nth_error_seq.
  destruct (Nat.ltb_spec (List.length l - 1) (List.length l)); [| lia].
  cbn [option_map]. do 2 f_equal.
  replace (1 + (List.length l - 1))%nat with (List.length l) by lia.
  apply firstn_all.
Qed.

Lemma last_row_forward (M : Model) (input : list Z) :
  input <> [] -> last_row (forward M input) = Some (logits_at M input).
Proof. apply last_row_prefixes. Qed.

Lemma last_row_update (M : Model) (cache0 tokens : list Z) :
  tokens <> [] ->
  update M cache0 tokens
  = (cache0 ++ tokens, snd (update M cache0 tokens)) /\
  last_row (snd (update M cache0 tokens)) = Some (logits_at M (cache0 ++ tokens)).
Proof.
  intros Hne. split; [reflexivity |]. cbn [update snd].
  apply (last_row_prefixes (fun p => logits_at M (cache0 ++ p)) tokens Hne).
Qed.

Lemma last_row_empty {A : Type} : last_row (@nil A) = None.
Proof. reflexivity. Qed.

Lemma nth_input_snoc (m : Z) (ctx0 toks : list Z) (t : Z) (i : nat) :
  (i <= List.length toks)%nat ->
  nth_input m ctx0 (toks ++ [t]) i = nth_input m ctx0 toks i.
Proof.
  intros Hi. destruct i as [| i]; [reflexivity |]. cbn [nth_input].
  rewrite firstn_app. replace (S i - List.length toks)%nat with O by lia.
  cbn [firstn]. now rewrite app_nil_r.
Qed.

Lemma nth_input_next (m : Z) (ctx0 toks : list Z) (t : Z) :
  0 < m ->
  window m (nth_input m ctx0 toks (List.length toks) ++ [t])
  = nth_input m ctx0 (toks ++ [t]) (S (List.length toks)).
Proof.
  intros Hm. cbn [nth_input].
  replace (S (List.length toks)) with (List.length (toks ++ [t]))
    by (rewrite length_app; cbn [List.length]; lia).
  rewrite firstn_all, app_assoc.
  destruct toks as [| x toks];
    [cbn [List.length nth_input]; now rewrite app_nil_r |].
  cbn [List.length nth_input]. unfold window.
  change (S (List.length toks)) with (List.length (x :: toks)).
  rewrite firstn_all. now apply slice_window.
Qed.

Section WindowFacts.

Variable tokenizer : Tokenizer.
Variable T : Torch.
Variable M : Model.
Variable tc : TrainConfig.
Variable ctx0 : list Z.

Hypothesis budget_positive : 0 < max_length tc.

Lemma next_call_is_window (g : Gen) :
  in_step (max_length tc) ctx0 g ->
  forall toks, sampled g = firstn (List.length (sampled g)) toks ->
               (List.length (sampled g) <= List.length toks)%nat ->
  forall i c, nth_error (calls g ++ [input_ids g]) i = Some c ->
              c = nth_input (max_length tc) ctx0 toks i.
Proof.
  intros [Hin [Hlen Hcalls]] toks Hpre Hle i c Hi.
  assert (Hsame : forall j, (j <= List.length (sampled g))%nat ->
             nth_input (max_length tc) ctx0 toks j
             = nth_input (max_length tc) ctx0 (sampled g) j).
  { intros j Hj. destruct j as [| j]; [reflexivity |]. cbn [nth_input].
    rewrite Hpre, firstn_firstn.
    now replace (Nat.min (S j) (List.length (sampled g))) with (S j) by lia. }
  destruct (Nat.lt_ge_cases i (List.length (calls g))) as [Hlt | Hge].
  - rewrite nth_error_app1 in Hi by assumption.
    rewrite Hsame by lia. now apply Hcalls.
  - rewrite nth_error_app2 in Hi by assumption.
    destruct (i - List.length (calls g))%nat as [| d] eqn:Hd;
      [| destruct d; discriminate].
    cbn in Hi. inversion Hi; subst c.
    replace i with (List.length (sampled g)) by lia.
    rewrite Hsame by lia. exact Hin.
Qed.

Lemma full_step_window (interrupted : bool) (g : Gen) (u : float)
      (o : Outcome) (g' : Gen) :
  in_step (max_length tc) ctx0 g ->
  full_step tokenizer T M tc interrupted g u = (o, g') ->
  calls_are_windows (max_length tc) ctx0 g' /\
  (o = Running -> in_step (max_length tc) ctx0 g').
Proof.
  intros Hstep H. pose proof (next_call_is_window g Hstep) as Hcall.
  destruct Hstep as [Hin [Hlen Hcalls]]. unfold full_step in H.
  destruct (last_row _) as [row |];
    [| inversion H; subst; split; [| discriminate];
       intros i c Hi; cbn [with_call calls sampled] in Hi |- *;
       apply (Hcall (sampled g)); auto; now rewrite firstn_all].
  destruct (sample_step _ _ _ _ _) as [s |];
    [| inversion H; subst; split; [| discriminate];
       intros i c Hi; cbn [with_call calls sampled] in Hi |- *;
       apply (Hcall (sampled g)); auto; now rewrite firstn_all].
  match type of H with stop_or_emit _ _ ?g0 _ = _ =>
    pose proof (stop_or_emit_frame tokenizer interrupted g0 s) as F
  end.
  cbv zeta in F. rewrite H in F. cbn [snd] in F.
  destruct F as [F1 [_ [_ [F4 F5]]]].
  cbn [with_sample with_call calls sampled input_ids] in F1, F4, F5.
  assert (Hw : calls_are_windows (max_length tc) ctx0 g').
  { intros i c Hi. rewrite F4 in Hi. rewrite F5. apply Hcall; auto.
    - now rewrite firstn_app, Nat.sub_diag, firstn_all, app_nil_r.
    - rewrite length_app. lia. }
  split; [exact Hw |].
  intros _. split; [| split; [| exact Hw]].
  - rewrite F1, F5, Hin.
    replace (List.length (sampled g ++ [token_id s]))
      with (S (List.length (sampled g)))
      by (rewrite length_app; cbn [List.length]; lia).
    now apply nth_input_next.
  - rewrite F4, F5, !length_app. cbn [List.length]. lia.
Qed.

Lemma full_iteration_window (g : Gen) (ev : Event) (o : Outcome) (g' : Gen) :
  in_step (max_length tc) ctx0 g ->
  full_iteration tokenizer T M tc g ev = (o, g') ->
  calls_are_windows (max_length tc) ctx0 g' /\
  (o = Running -> in_step (max_length tc) ctx0 g').
Proof.
  intros Hstep H. destruct ev as [u | | | u]; cbn [full_iteration] in H;
    try exact (full_step_window _ g u o g' Hstep H).
  - inversion H; subst. split; [| discriminate].
    destruct Hstep as [_ [_ Hcalls]].
    intros i c Hi. cbn [with_print calls sampled] in Hi |- *. now apply Hcalls.
  - inversion H; subst. split; [| discriminate].
    intros i c Hi. cbn [with_print with_call calls sampled] in Hi |- *.
    apply (next_call_is_window g Hstep (sampled g)); auto.
    now rewrite firstn_all.
Qed.

Lemma full_loop_window (evs : list Event) (g : Gen) :
  in_step (max_length tc) ctx0 g ->
  calls_are_windows (max_length tc) ctx0
                    (snd (run_loop (full_iteration tokenizer T M tc) evs g)).
Proof.
  revert g. induction evs as [| ev evs IH]; intros g Hg.
  - cbn [run_loop snd]. apply Hg.
  - cbn [run_loop].
    destruct (full_iteration tokenizer T M tc g ev) as [o g'] eqn:Hit.
    destruct (full_iteration_window g ev o g' Hg Hit) as [Hw Hrun].
    destruct o; cbn [snd]; auto.
Qed.

End WindowFacts.

(** C10 (as stated, refuted). With the system prompt "abc" the pinned
    prefix has 6 tokens, more than [max_length = 5]; the loop passes the
    result of [build_context] on as it is, and the first forward call of
    the turn "hi" receives 14 tokens. *)
Lemma full_recompute_first_input_over_budget :
  let tc := demo_params 5 (Some "abc") 1 1 in
  let g := snd (run_loop (full_iteration byte_tokenizer RefTorch.ref zero_then_A tc)
                         [Draw 0.25]
                         (start_turn (demo_config false) byte_tokenizer tc
                                     [("hi", EmptyString)] [])) in
  Z.of_nat (List.length (system_prompt_ids byte_tokenizer (system_prompt tc))) = 6 /\
  exists c, nth_error (calls g) 0 = Some c /\ Z.of_nat (List.length c) = 14 /\
            max_length tc < Z.of_nat (List.length c).
Proof.
  vm_compute. split; [reflexivity |]. eexists. repeat split.
Qed.

(** C10 (amended). In full-recompute mode with a positive [max_length]:
    the first forward call receives the result of [build_context],
    which has at most [max_length] tokens when the pinned prefix is
    shorter than [max_length]; every later call receives the last
    [max_length] tokens of the previous input extended by the token
    sampled from it, so at most [max_length] tokens; call [i] thus
    receives the last [max_length] tokens of the initial context
    extended by the first [i] sampled tokens, a window that reserves
    nothing: from call [max_length] on it holds sampled tokens only,
    the system prompt having left it. *)
Theorem full_recompute_inputs_slide
        (config : Config) (tokenizer : Tokenizer) (T : Torch) (M : Model)
        (tc : TrainConfig) (history : History) (cache0 : list Z)
        (evs : list Event) :
  0 < max_length tc ->
  let ctx0 := build_context config tokenizer history (max_length tc) (system_prompt tc) in
  let g := snd (run_loop (full_iteration tokenizer T M tc) evs
                         (start_turn config tokenizer tc history cache0)) in
  (forall c, nth_error (calls g) 0 = Some c ->
     c = ctx0 /\
     (Z.of_nat (List.length (system_prompt_ids tokenizer (system_prompt tc)))
        < max_length tc ->
      Z.of_nat (List.length c) <= max_length tc)) /\
  (forall i c, nth_error (calls g) (S i) = Some c ->
     Z.of_nat (List.length c) <= max_length tc /\
     c = Py.slice_from (- max_length tc) (ctx0 ++ firstn (S i) (sampled g)) /\
     (max_length tc <= Z.of_nat (S i) -> (S i <= List.length (sampled g))%nat ->
      c = Py.slice_from (- max_length tc) (firstn (S i) (sampled g)))) /\
  (forall i c t c', nth_error (calls g) i = Some c ->
     nth_error (sampled g) i = Some t ->
     nth_error (calls g) (S i) = Some c' ->
     c' = Py.slice_from (- max_length tc) (c ++ [t])).
Proof.
  intros Hpos ctx0 g.
  assert (Hw : calls_are_windows (max_length tc) ctx0 g).
  { apply (full_loop_window tokenizer T M tc ctx0 Hpos).
    cbn [start_turn]. repeat split.
    intros i c Hi. destruct i; discriminate. }
  split; [| split].
  - intros c Hc. pose proof (Hw 0%nat c Hc) as H0. cbn [nth_input] in H0.
    split; [exact H0 |]. intros Hroom. rewrite H0.
    now apply build_context_length_room.
  - intros i c Hi. pose proof (Hw (S i) c Hi) as Hc. cbn [nth_input] in Hc.
    unfold window in Hc. split; [| split; [exact Hc |]].
    + rewrite Hc, slice_from_neg_length by exact Hpos. lia.
    + intros Hi1 Hi2. rewrite Hc. apply slice_drop_front; [exact Hpos |].
      rewrite length_firstn. lia.
  - intros i c t c' Hi Ht Hi'.
    assert (Hlt : (i < List.length (sampled g))%nat)
      by (apply nth_error_Some; congruence).
    assert (Hsplit : firstn (S i) (sampled g) = firstn i (sampled g) ++ [t]).
    { rewrite <- (firstn_skipn i (sampled g)) in Ht.
      rewrite nth_error_app2 in Ht by (rewrite length_firstn; lia).
      rewrite length_firstn in Ht.
      replace (i - Nat.min i (List.length (sampled g)))%nat with O in Ht by lia.
      destruct (skipn i (sampled g)) as [| x rest] eqn:Hsk; [discriminate |].
      cbn in Ht. inversion Ht; subst x.
      rewrite <- (firstn_skipn i (sampled g)) at 1. rewrite Hsk.
      replace (S i) with (List.length (firstn i (sampled g)) + 1)%nat
        by (rewrite length_firstn; lia).
      rewrite firstn_app_2. reflexivity. }
    rewrite (Hw _ _ Hi'), (Hw _ _ Hi). cbn [nth_input]. unfold window.
    rewrite Hsplit, app_assoc.
    destruct i as [| i];
      [cbn [nth_input firstn]; now rewrite app_nil_r |].
    cbn [nth_input]. unfold window. now rewrite slice_window.
Qed.

Lemma full_recompute_inputs_slide_witness :
  let tc := demo_params 12 (Some "ab") 1 1 in
  let ctx0 := build_context (demo_config false) byte_tokenizer [("hi", EmptyString)]
                            (max_length tc) (system_prompt tc) in
  let g := snd (run_loop (full_iteration byte_tokenizer RefTorch.ref zero_then_A tc)
                         [Draw 0.25; Draw 0.25]
                         (start_turn (demo_config false) byte_tokenizer tc
                                     [("hi", EmptyString)] [])) in
  (forall c, nth_error (calls g) 0 = Some c ->
     c = ctx0 /\
     (Z.of_nat (List.length (system_prompt_ids byte_tokenizer (system_prompt tc)))
        < max_length tc ->
      Z.of_nat (List.length c) <= max_length tc)) /\
  (forall i c, nth_error (calls g) (S i) = Some c ->
     Z.of_nat (List.length c) <= max_length tc /\
     c = Py.slice_from (- max_length tc) (ctx0 ++ firstn (S i) (sampled g)) /\
     (max_length tc <= Z.of_nat (S i) -> (S i <= List.length (sampled g))%nat ->
      c = Py.slice_from (- max_length tc) (firstn (S i) (sampled g)))) /\
  (forall i c t c', nth_error (calls g) i = Some c ->
     nth_error (sampled g) i = Some t ->
     nth_error (calls g) (S i) = Some c' ->
     c' = Py.slice_from (- max_length tc) (c ++ [t])).
Proof.
  apply (full_recompute_inputs_slide (demo_config false) byte_tokenizer RefTorch.ref
           zero_then_A (demo_params 12 (Some "ab") 1 1) [("hi", EmptyString)] []
           [Draw 0.25; Draw 0.25]).
  vm_compute. reflexivity.
Defined.

(** With [max_length = 12] the context of the turn "hi" under the system
    prompt "ab" is full; after one sampled token the window has lost the
    first token of the system prompt. *)
Example system_prompt_slides_out :
  let tc := demo_params 12 (Some "ab") 1 1 in
  let g := snd (run_loop (full_iteration byte_tokenizer RefTorch.ref zero_then_A tc)
                         [Draw 0.25; Draw 0.25]
                         (start_turn (demo_config false) byte_tokenizer tc
                                     [("hi", EmptyString)] [])) in
  system_prompt_ids byte_tokenizer (system_prompt tc) = [97; 98; 10; 10; 10] /\
  calls g = [[97; 98; 10; 10; 10; 104; 105; 10; 10; 10; 65; 58];
             [98; 10; 10; 10; 104; 105; 10; 10; 10; 65; 58; 0]].
Proof. vm_compute. split; reflexivity. Qed.

(** ** Cache-incremental decoding against full recomputation *)

Lemma cache_contexts_snoc (cache0 : list Z) (args : list (list Z)) (a : list Z) :
  cache_contexts cache0 (args ++ [a])
  = cache_contexts cache0 args ++ [(cache0 ++ List.concat args) ++ a].
Proof.
  revert cache0. induction args as [| b args IH]; intros cache0.
  - cbn. now rewrite app_nil_r.
  - cbn [app cache_contexts List.concat]. rewrite IH. now rewrite <- !app_assoc.
Qed.

Lemma run_loop_sampled_incl (tokenizer : Tokenizer)
      (iteration : Gen -> Event -> Outcome * Gen) :
  policy_step tokenizer iteration ->
  forall evs g, incl (sampled g) (sampled (snd (run_loop iteration evs g))).
Proof.
  intros Hstep evs. induction evs as [| ev evs IH]; intros g.
  - apply incl_refl.
  - cbn [run_loop]. destruct (iteration g ev) as [o g'] eqn:Hit.
    assert (Hinc : incl (sampled g) (sampled g')).
    { destruct (Hstep g ev o g' Hit) as [[Hs _] | [t [Hs _]]]; rewrite Hs;
        [apply incl_refl | apply incl_appl, incl_refl]. }
    destruct o; cbn [snd]; try exact Hinc.
    eapply incl_tran; [exact Hinc | apply IH].
Qed.

Section CacheAgainstFull.

Variable config : Config.
Variable tokenizer : Tokenizer.
Variable T : Torch.
Variable M : Model.
Variable tc : TrainConfig.
Variable h : History.
Variable cache0 : list Z.
Variable ctx0 : list Z.

Local Abbreviation turn :=
  (build_context config tokenizer (Py.last_slice h) (max_length tc) None).

Hypothesis context_splits : ctx0 = cache0 ++ turn.
Hypothesis turn_not_empty : turn <> [].

Lemma cache_call_next (g : Gen) :
  cache_call config tokenizer M tc h g
  = (with_call (if negb (tensor_truthy (last_out g))
                then with_input g turn else g)
               (next_arg turn g) (cache g ++ next_arg turn g),
     last_row (map (fun p => logits_at M (cache g ++ p)) (prefixes (next_arg turn g)))).
Proof.
  unfold cache_call, next_arg, update.
  destruct (last_out g) as [t |] eqn:Hlo; cbn [tensor_truthy];
    [destruct (t =? 0) eqn:Hz |];
    cbn [negb with_input last_out input_ids cache tensor_truthy];
    rewrite ?Hlo; cbn [negb tensor_truthy]; rewrite ?Hz; reflexivity.
Qed.

Lemma cache_iteration_draw (g : Gen) (u : float) :
  cache_iteration config tokenizer T M tc h g (Draw u)
  = let g1 := with_call (if negb (tensor_truthy (last_out g))
                         then with_input g turn else g)
                        (next_arg turn g) (cache g ++ next_arg turn g) in
    match last_row (map (fun p => logits_at M (cache g ++ p)) (prefixes (next_arg turn g))) with
    | None => (Crashed, g1)
    | Some row =>
        match sample_step T (vocab_size tokenizer) tc row u with
        | None => (Crashed, g1)
        | Some s =>
            stop_or_emit tokenizer false
              (with_sample g1 (input_ids g1) (Some (token_id s)) (token_id s)) s
        end
    end.
Proof.
  cbn [cache_iteration]. unfold cache_step. rewrite cache_call_next. reflexivity.
Qed.

Lemma next_arg_in_sync (gf gc : Gen) :
  in_sync cache0 ctx0 gf gc -> Forall (fun t => t <> 0) (sampled gf) ->
  next_arg turn gc <> [] /\ cache gc ++ next_arg turn gc = ctx0 ++ sampled gf.
Proof.
  intros [[Hs _] [_ [_ Hlast]]] Hnz. unfold next_arg.
  destruct (last_out gc) as [t |].
  - destruct Hlast as [pre [Hpre Hcache]].
    assert (Ht : t <> 0).
    { rewrite Hs, Hpre in Hnz. apply Forall_app in Hnz. destruct Hnz as [_ Hnz].
      now inversion Hnz. }
    cbn [tensor_truthy]. destruct (Z.eqb_spec t 0); [contradiction |]. cbn [negb].
    split; [discriminate |]. rewrite Hcache, Hs, Hpre. now rewrite <- app_assoc.
  - destruct Hlast as [Hnil Hcache]. cbn [tensor_truthy negb].
    split; [exact turn_not_empty |].
    rewrite Hcache, Hs, Hnil, app_nil_r. now rewrite context_splits.
Qed.

(** The model call of an iteration, in both loops. *)
Lemma call_in_sync (gf gc : Gen) :
  in_sync cache0 ctx0 gf gc ->
  Forall (fun t => t <> 0) (sampled gf) ->
  let gc1 := fst (cache_call config tokenizer M tc h gc) in
  snd (cache_call config tokenizer M tc h gc) = Some (logits_at M (ctx0 ++ sampled gf)) /\
  last_row (forward M (input_ids gf)) = Some (logits_at M (ctx0 ++ sampled gf)) /\
  same_output cache0 (with_call gf (input_ids gf) (cache gf)) gc1 /\
  calls gc1 = calls gc ++ [next_arg turn gc] /\
  cache gc1 = ctx0 ++ sampled gf /\
  last_out gc1 = last_out gc.
Proof.
  intros Hsync Hnz.
  destruct (next_arg_in_sync gf gc Hsync Hnz) as [Harg Hcache].
  destruct Hsync as [[Hs [Hn [Hr [Hp Hc]]]] [Hin [Hcc Hlast]]].
  rewrite cache_call_next. cbn [fst snd].
  assert (Hne : ctx0 ++ sampled gf <> []).
  { rewrite context_splits. intros Hnil. apply app_eq_nil in Hnil.
    destruct Hnil as [Hnil _]. apply app_eq_nil in Hnil. now destruct Hnil. }
  rewrite Hin, (last_row_forward M _ Hne).
  rewrite (last_row_prefixes (fun p => logits_at M (cache gc ++ p)) (next_arg turn gc) Harg).
  rewrite Hcache.
  assert (Hcalls : calls gf ++ [ctx0 ++ sampled gf]
                   = cache_contexts cache0 (calls gc ++ [next_arg turn gc])).
  { rewrite cache_contexts_snoc, Hcc, Hcache, Hc. reflexivity. }
  split; [reflexivity |]. split; [reflexivity |].
  unfold same_output.
  destruct (negb (tensor_truthy (last_out gc)));
    cbn [with_call with_input sampled n_blankline response printed calls cache last_out];
    rewrite ?Hin; auto 10.
Qed.

Lemma step_in_sync (interrupted : bool) (gf gc : Gen) (u : float)
      (o : Outcome) (gf' : Gen) :
  in_sync cache0 ctx0 gf gc ->
  Forall (fun t => t <> 0) (sampled gf) ->
  Z.of_nat (List.length ctx0 + List.length (sampled gf)) < max_length tc ->
  full_step tokenizer T M tc interrupted gf u = (o, gf') ->
  exists gc', cache_step config tokenizer T M tc interrupted h gc u = (o, gc') /\
              same_output cache0 gf' gc' /\ (o = Running -> in_sync cache0 ctx0 gf' gc').
Proof.
  intros Hsync Hnz Hfit Hfull.
  destruct (call_in_sync gf gc Hsync Hnz) as [Hrow [Hrowf [Hout1 [Hk [Hca Hlo]]]]].
  destruct Hsync as [[Hs [Hn [Hr [Hp Hc]]]] [Hin [Hcc Hlast]]].
  unfold cache_step. unfold full_step in Hfull.
  cbn [with_call input_ids cache] in Hfull. rewrite Hrowf in Hfull.
  destruct (cache_call config tokenizer M tc h gc) as [gc1 row].
  cbn [fst snd] in Hrow, Hout1, Hk, Hca, Hlo. subst row.
  destruct Hout1 as [O1 [O2 [O3 [O4 O5]]]].
  cbn [with_call sampled n_blankline response printed calls] in O1, O2, O3, O4, O5.
  destruct (sample_step T (vocab_size tokenizer) tc (logits_at M (ctx0 ++ sampled gf)) u)
    as [s |].
  2: { inversion Hfull; subst. exists gc1. split; [reflexivity |].
       split; [| discriminate]. unfold same_output.
       cbn [with_call sampled n_blankline response printed calls]. auto. }
  match type of Hfull with stop_or_emit _ _ ?g0 _ = _ => set (gfs := g0) in * end.
  match goal with |- context [stop_or_emit _ _ ?g0 _] => set (gcs := g0) end.
  assert (Hfields : sampled gfs = sampled gf ++ [token_id s] /\
                    sampled gcs = sampled gc ++ [token_id s] /\
                    n_blankline gfs = n_blankline gcs /\
                    response gfs = response gcs /\ printed gfs = printed gcs /\
                    calls gfs = cache_contexts cache0 (calls gcs) /\
                    calls gcs = calls gc ++ [next_arg turn gc] /\
                    input_ids gfs = ctx0 ++ sampled gf ++ [token_id s] /\
                    cache gcs = ctx0 ++ sampled gf /\
                    last_out gcs = Some (token_id s)).
  { unfold gfs, gcs.
    cbn [with_sample with_call sampled n_blankline response printed
         calls input_ids cache last_out].
    rewrite Hin in O5 |- *. rewrite <- O1.
    repeat split; try assumption; try reflexivity.
    - now rewrite Hs.
    - rewrite slice_from_neg_all, <- app_assoc; try reflexivity.
      rewrite !length_app. cbn [List.length]. lia. }
  destruct Hfields as [F1 [F2 [F3 [F4 [F5 [F6 [F7 [F8 [F9 F10]]]]]]]]].
  pose proof (stop_or_emit_same tokenizer interrupted gfs gcs s F3 F4 F5) as Hsame.
  pose proof (stop_or_emit_frame tokenizer interrupted gfs s) as Hff.
  pose proof (stop_or_emit_frame tokenizer interrupted gcs s) as Hfc.
  cbv zeta in Hsame, Hff, Hfc. rewrite Hfull in Hsame, Hff.
  destruct (stop_or_emit tokenizer interrupted gcs s) as [oc gc'].
  cbn [fst snd] in Hsame, Hff, Hfc.
  destruct Hsame as [S0 [S1 [S2 S3]]]. subst oc.
  destruct Hff as [A1 [A2 [A3 [A4 A5]]]].
  destruct Hfc as [B1 [B2 [B3 [B4 B5]]]].
  exists gc'. split; [reflexivity |].
  assert (Hout : same_output cache0 gf' gc').
  { unfold same_output. rewrite A5, B5, A4, B4, F1, F2, F6.
    repeat split; try assumption; congruence. }
  split; [exact Hout |].
  intros _. split; [exact Hout |].
  rewrite A1, A5, B2, B3, B4, B5, F1, F2, F7, F8, F9, F10.
  split; [reflexivity |]. split.
  - rewrite concat_app. cbn [List.concat]. rewrite app_nil_r, app_assoc, Hcc.
    destruct (next_arg_in_sync gf gc) as [_ Hcache]; [| exact Hnz | exact Hcache].
    unfold in_sync, same_output. auto 10.
  - exists (sampled gc). rewrite Hs. auto.
Qed.

Lemma iteration_in_sync (gf gc : Gen) (ev : Event) (o : Outcome) (gf' : Gen) :
  in_sync cache0 ctx0 gf gc ->
  Forall (fun t => t <> 0) (sampled gf) ->
  Z.of_nat (List.length ctx0 + List.length (sampled gf)) < max_length tc ->
  full_iteration tokenizer T M tc gf ev = (o, gf') ->
  exists gc', cache_iteration config tokenizer T M tc h gc ev = (o, gc') /\
              same_output cache0 gf' gc' /\ (o = Running -> in_sync cache0 ctx0 gf' gc').
Proof.
  intros Hsync Hnz Hfit Hfull.
  destruct ev as [u | | | u]; cbn [full_iteration cache_iteration] in Hfull |- *;
    try exact (step_in_sync _ gf gc u o gf' Hsync Hnz Hfit Hfull).
  - destruct Hsync as [[Hs [Hn [Hr [Hp Hc]]]] _].
    inversion Hfull; subst.
    eexists. split; [reflexivity |]. split; [| discriminate].
    unfold same_output. cbn [with_print sampled n_blankline response printed calls].
    rewrite Hp. auto.
  - destruct (call_in_sync gf gc Hsync Hnz) as [_ [_ [[O1 [O2 [O3 [O4 O5]]]] _]]].
    inversion Hfull; subst.
    eexists. split; [reflexivity |]. split; [| discriminate].
    unfold same_output. cbn [with_print sampled n_blankline response printed calls].
    cbn [with_call sampled n_blankline response printed calls] in O1, O2, O3, O4, O5.
    rewrite <- O4. auto.
Qed.

Lemma loops_in_sync (evs : list Event) (gf gc : Gen) :
  in_sync cache0 ctx0 gf gc ->
  Z.of_nat (List.length ctx0 + List.length (sampled gf) + List.length evs)
    <= max_length tc ->
  Forall (fun t => t <> 0)
         (sampled (snd (run_loop (full_iteration tokenizer T M tc) evs gf))) ->
  fst (run_loop (full_iteration tokenizer T M tc) evs gf)
  = fst (run_loop (cache_iteration config tokenizer T M tc h) evs gc) /\
  same_output cache0 (snd (run_loop (full_iteration tokenizer T M tc) evs gf))
              (snd (run_loop (cache_iteration config tokenizer T M tc h) evs gc)).
Proof.
  revert gf gc. induction evs as [| ev evs IH]; intros gf gc Hsync Hfit Hnz.
  - cbn [run_loop fst snd]. split; [reflexivity | apply Hsync].
  - assert (Hnz0 : Forall (fun t => t <> 0) (sampled gf)).
    { apply Forall_forall. intros t Ht.
      apply (proj1 (Forall_forall _ _) Hnz).
      apply (run_loop_sampled_incl tokenizer _
               (full_iteration_policy tokenizer T M tc) (ev :: evs) gf). exact Ht. }
    cbn [run_loop] in Hnz |- *.
    destruct (full_iteration tokenizer T M tc gf ev) as [o gf'] eqn:Hfull.
    cbn [List.length] in Hfit.
    destruct (iteration_in_sync gf gc ev o gf' Hsync Hnz0 ltac:(lia) Hfull)
      as [gc' [Hcache [Hout Hrun]]].
    rewrite Hcache.
    destruct o; cbn [fst snd]; try (split; [reflexivity | exact Hout]).
    apply IH; [now apply Hrun | | exact Hnz].
    destruct (full_iteration_policy tokenizer T M tc gf ev _ _ Hfull)
      as [[Hs _] | [t [Hs _]]]; rewrite Hs, ?length_app; cbn [List.length]; lia.
Qed.

End CacheAgainstFull.

Lemma build_context_empty_history (config : Config) (tokenizer : Tokenizer)
      (max_length : Z) (system_prompt : option string) :
  build_context config tokenizer [] max_length system_prompt
  = system_prompt_ids tokenizer system_prompt.
Proof.
  unfold build_context. cbn [turn_ids List.length seq fold_left].
  destruct (slice_from_skipn
              (Z.of_nat (List.length (system_prompt_ids tokenizer system_prompt))
               - max_length) (@nil Z)) as [d ->].
  rewrite skipn_nil. apply app_nil_r.
Qed.

(** As long as no sampled token has id 0, the two modes agree on any
    turn they start from the same context: given identical events, when
    the context of full recomputation is what the cache holds followed
    by the encoding of the newest human turn, and while the context and
    the tokens to come fit [max_length] (so nothing is truncated),
    cache-incremental decoding takes every row of logits in the same
    context as full-recompute decoding, and the two loops have the same
    outcome, sampled tokens, blank-line count, response and console. *)
Lemma cache_incremental_matches_full_recompute
      (config : Config) (tokenizer : Tokenizer) (T : Torch) (M : Model)
      (tc : TrainConfig) (h : History) (cache0 : list Z) (evs : list Event) :
  let ctx0 := build_context config tokenizer h (max_length tc) (system_prompt tc) in
  let turn := build_context config tokenizer (Py.last_slice h) (max_length tc) None in
  let rf := run_loop (full_iteration tokenizer T M tc) evs
                     (start_turn config tokenizer tc h cache0) in
  let rc := run_loop (cache_iteration config tokenizer T M tc h) evs
                     (start_turn config tokenizer tc h cache0) in
  ctx0 = cache0 ++ turn ->
  turn <> [] ->
  Z.of_nat (List.length ctx0 + List.length evs) <= max_length tc ->
  Forall (fun t => t <> 0) (sampled (snd rf)) ->
  fst rf = fst rc /\
  sampled (snd rf) = sampled (snd rc) /\
  n_blankline (snd rf) = n_blankline (snd rc) /\
  response (snd rf) = response (snd rc) /\
  printed (snd rf) = printed (snd rc) /\
  calls (snd rf) = cache_contexts cache0 (calls (snd rc)).
Proof.
  intros ctx0 turn rf rc Hctx Hturn Hfit Hnz. unfold rf, rc.
  apply (loops_in_sync config tokenizer T M tc h cache0 ctx0 Hctx Hturn).
  - unfold in_sync, same_output, start_turn.
    cbn [sampled n_blankline response printed calls input_ids
                             cache last_out cache_contexts List.concat].
    fold ctx0. rewrite !app_nil_r. repeat split.
  - cbn [start_turn sampled List.length]. lia.
  - exact Hnz.
Qed.

(** The first turn after priming, with the parity network: both modes
    stop on the third newline after one token. *)
Example first_turn_of_the_parity_model :
  let tc := demo_params 64 (Some "Be terse") 1 1 in
  let h := [("hi", EmptyString)] in
  let evs := [Draw 0.25; Draw 0.25; Draw 0.25; Draw 0.25; Draw 0.25] in
  let cache0 := prime_cache (demo_config true) byte_tokenizer parity_model tc in
  let rf := run_loop (full_iteration byte_tokenizer RefTorch.ref parity_model tc) evs
                     (start_turn (demo_config true) byte_tokenizer tc h cache0) in
  let rc := run_loop (cache_iteration (demo_config true) byte_tokenizer RefTorch.ref
                                      parity_model tc h)
                     evs (start_turn (demo_config true) byte_tokenizer tc h cache0) in
  fst rf = Stopped /\ sampled (snd rf) = [120; 10; 10; 10] /\
  fst rf = fst rc /\
  sampled (snd rf) = sampled (snd rc) /\
  n_blankline (snd rf) = n_blankline (snd rc) /\
  response (snd rf) = response (snd rc) /\
  printed (snd rf) = printed (snd rc) /\
  calls (snd rf) = cache_contexts cache0 (calls (snd rc)).
Proof.
  split; [reflexivity |]. split; [reflexivity |].
  apply (cache_incremental_matches_full_recompute
           (demo_config true) byte_tokenizer RefTorch.ref parity_model
           (demo_params 64 (Some "Be terse") 1 1) [("hi", EmptyString)]
           (prime_cache (demo_config true) byte_tokenizer parity_model
                        (demo_params 64 (Some "Be terse") 1 1))
           [Draw 0.25; Draw 0.25; Draw 0.25; Draw 0.25; Draw 0.25]).
  - reflexivity.
  - vm_compute. discriminate.
  - vm_compute. discriminate.
  - vm_compute. repeat constructor; discriminate.
Qed.

(** Across turns the driver does not keep the two contexts the same:
    after the turns "hi" and "yo" under the same draws, full
    recomputation has rebuilt the context of the second turn from the
    history (the stored answer, then the separator of three newlines),
    33 tokens, and answers [y]; the cache went into the second turn
    holding the tokens it was fed (the answer and the two newline tokens
    that were fed back, no separator), and answers [x]. *)
Example second_turn_contexts_differ :
  let tc := demo_params 64 (Some "Be terse") 1 1 in
  let evs := [Draw 0.25; Draw 0.25; Draw 0.25; Draw 0.25; Draw 0.25] in
  let session (kv : bool) :=
    run_session (demo_config kv) byte_tokenizer RefTorch.ref parity_model
                demo_float_of_str
                (start_session (demo_config kv) byte_tokenizer parity_model tc)
                [("hi", evs); ("yo", evs)] in
  option_map history (session false) = Some [("hi", "x"); ("yo", "y")] /\
  option_map history (session true) = Some [("hi", "x"); ("yo", "x")] /\
  option_map (fun s => List.length (kv_cache s)) (session true) = Some 35%nat /\
  List.length (build_context (demo_config false) byte_tokenizer
                             [("hi", "x"); ("yo", EmptyString)] 64 (Some "Be terse"))
  = 33%nat.
Proof. vm_compute. repeat split. Qed.

(** Which tokens each [update] call of the cache loop receives. *)
Lemma cache_iteration_call (config : Config) (tokenizer : Tokenizer) (T : Torch)
      (M : Model) (tc : TrainConfig) (h : History) (g : Gen) (u : float)
      (o : Outcome) (g' : Gen) :
  cache_iteration config tokenizer T M tc h g (Draw u) = (o, g') ->
  calls g'
  = calls g ++
    [match last_out g with
     | None => build_context config tokenizer (Py.last_slice h) (max_length tc) None
     | Some t =>
         if t =? 0
         then build_context config tokenizer (Py.last_slice h) (max_length tc) None
         else [t]
     end] /\
  (o = Running -> exists t, last_out g' = Some t /\ sampled g' = sampled g ++ [t]).
Proof.
  rewrite cache_iteration_draw. cbv zeta. unfold next_arg. intros H.
  assert (Harg :
    (if negb (tensor_truthy (last_out g))
     then build_context config tokenizer (Py.last_slice h) (max_length tc) None
     else match last_out g with Some t => [t] | None => [] end)
    = match last_out g with
      | None => build_context config tokenizer (Py.last_slice h) (max_length tc) None
      | Some t =>
          if t =? 0
          then build_context config tokenizer (Py.last_slice h) (max_length tc) None
          else [t]
      end).
  { destruct (last_out g) as [t |]; [| reflexivity].
    cbn [tensor_truthy]. now destruct (t =? 0). }
  rewrite Harg in H.
  destruct (last_row _) as [row |];
    [| inversion H; subst; split; [| discriminate];
       destruct (negb (tensor_truthy (last_out g))); reflexivity].
  destruct (sample_step _ _ _ _ _) as [s |];
    [| inversion H; subst; split; [| discriminate];
       destruct (negb (tensor_truthy (last_out g))); reflexivity].
  match type of H with stop_or_emit _ _ ?g0 _ = _ =>
    pose proof (stop_or_emit_frame tokenizer false g0 s) as F
  end.
  cbv zeta in F. rewrite H in F. cbn [snd] in F.
  destruct F as [_ [_ [F3 [F4 F5]]]]. rewrite F3, F4, F5.
  split; [destruct (negb (tensor_truthy (last_out g))); reflexivity |].
  intros _. exists (token_id s).
  destruct (negb (tensor_truthy (last_out g))); split; reflexivity.
Qed.

(** C5 (failing input). Cache-incremental mode, the turn "hi", a
    network that answers the turn with token 0 and two events: both
    draws sample token 0, and the second [update] call receives the
    encoding of the human turn again -- the same 9 tokens as the first
    call -- and not the token [0] sampled at the preceding step. *)
Theorem cache_loop_feeds_turn_again_after_token_zero :
  let tc := demo_params 64 (Some "Be terse") 1 1 in
  let h := [("hi", EmptyString)] in
  let turn := build_context (demo_config true) byte_tokenizer h 64 None in
  let r := run_loop (cache_iteration (demo_config true) byte_tokenizer RefTorch.ref
                                     zero_then_A tc h)
                    [Draw 0.25; Draw 0.25]
                    (start_turn (demo_config true) byte_tokenizer tc h
                                (prime_cache (demo_config true) byte_tokenizer
                                             zero_then_A tc)) in
  turn = [72; 58; 104; 105; 10; 10; 10; 65; 58] /\
  sampled (snd r) = [0; 0] /\
  nth_error (calls (snd r)) 0 = Some turn /\
  nth_error (calls (snd r)) 1 = Some turn /\
  nth_error (calls (snd r)) 1 <> Some [0].
Proof.
  vm_compute. repeat split; discriminate.
Qed.

(** C1 (failing input). The turn "hi" under both modes, from the same
    context (the cache holds the system prompt, and the context of full
    recomputation is the cache followed by the encoding of the turn),
    with the same four draws, contexts of at most 24 tokens under
    [max_length = 64] (nothing is truncated), and a network whose answer
    depends on the last token of its context. Full recomputation samples
    0, 65, 0, 65; the cache loop samples 0, 0, 0, 0. At the second step
    the context of full recomputation ends with the sampled token 0,
    and the cache holds the human turn twice instead: the test of line
    199 has taken the tensor holding token 0 for no token at all. *)
Theorem token_zero_splits_the_modes :
  let tc := demo_params 64 (Some "Be terse") 1 1 in
  let h := [("hi", EmptyString)] in
  let evs := [Draw 0.25; Draw 0.25; Draw 0.25; Draw 0.25] in
  let cache0 := prime_cache (demo_config true) byte_tokenizer zero_then_A tc in
  let ctx0 := build_context (demo_config true) byte_tokenizer h 64 (Some "Be terse") in
  let rf := run_loop (full_iteration byte_tokenizer RefTorch.ref zero_then_A tc) evs
                     (start_turn (demo_config true) byte_tokenizer tc h cache0) in
  let rc := run_loop (cache_iteration (demo_config true) byte_tokenizer RefTorch.ref
                                      zero_then_A tc h)
                     evs (start_turn (demo_config true) byte_tokenizer tc h cache0) in
  ctx0 = cache0 ++ build_context (demo_config true) byte_tokenizer h 64 None /\
  List.length (input_ids (snd rf)) = 24%nat /\
  fst rf = Running /\ fst rc = Running /\
  sampled (snd rf) = [0; 65; 0; 65] /\
  sampled (snd rc) = [0; 0; 0; 0] /\
  nth_error (calls (snd rf)) 1 = Some (ctx0 ++ [0]) /\
  nth_error (cache_contexts cache0 (calls (snd rc))) 1
  = Some (ctx0 ++ [72; 58; 104; 105; 10; 10; 10; 65; 58]) /\
  response (snd rf) <> response (snd rc).
Proof.
  vm_compute. repeat split; discriminate.
Qed.

(* ===================================================================== *)
(** * Further properties of the driver                                    *)
(* ===================================================================== *)

(** ** History updates *)

(** X1. Appending a human turn and then its answer adds exactly the
    turn [(text, answer)] at the end of the history, whatever the
    history was; neither step can fail. *)
Theorem append_history_human_then_ai (h : History) (text answer : string) :
  bind (append_history h "human" text)
       (fun h' => append_history h' "ai" answer)
  = Some (h ++ [(text, answer)]).
Proof.
  unfold append_history. cbn [String.eqb Ascii.eqb Bool.eqb bind].
  change (String.eqb "human" "human") with true.
  change (String.eqb "ai" "human") with false. cbv iota. cbn [bind].
  rewrite rev_app_distr. cbn [rev app fst]. now rewrite rev_involutive.
Qed.

(** X2. Every role other than ["human"] is an answer: on an empty
    history the call raises ([history[-1]] is out of range), and
    otherwise it replaces the ai text of the last turn, keeping its
    human text, the turns before it and the length of the history. *)
Theorem append_history_answer (h : History) (role text : string) :
  role <> "human" ->
  (h = [] -> append_history h role text = None) /\
  (forall before t, h = before ++ [t] ->
     append_history h role text = Some (before ++ [(fst t, text)])) /\
  (forall h', append_history h role text = Some h' ->
     List.length h' = List.length h /\
     removelast h' = removelast h /\
     option_map fst (last_row h') = option_map fst (last_row h)).
Proof.
  intros Hrole. unfold append_history.
  destruct (String.eqb_spec role "human") as [-> | _]; [congruence |].
  assert (Hsnoc : forall before t, h = before ++ [t] ->
            match rev h with
            | [] => None
            | last_turn :: b => Some (rev b ++ [(fst last_turn, text)])
            end = Some (before ++ [(fst t, text)])).
  { intros before t ->. rewrite rev_app_distr. cbn [rev app].
    now rewrite rev_involutive. }
  split; [intros ->; reflexivity |]. split; [exact Hsnoc |].
  intros h' Hh'. destruct (rev h) as [| t b] eqn:Hrev; [discriminate |].
  assert (Hh : h = rev b ++ [t]).
  { rewrite <- (rev_involutive h), Hrev. reflexivity. }
  inversion Hh'; subst h'. clear Hh' Hrev Hsnoc. subst h.
  rewrite !removelast_last, !length_app. cbn [List.length].
  unfold last_row. rewrite !length_app. cbn [List.length].
  rewrite !nth_error_app2 by lia.
  replace (List.length (rev b) + 1 - 1 - List.length (rev b))%nat with O by lia.
  repeat split.
Qed.

Lemma append_history_answer_witness :
  let h := [("hi", "x"); ("yo", EmptyString)] in
  (h = [] -> append_history h "ai" "hello" = None) /\
  (forall before t, h = before ++ [t] ->
     append_history h "ai" "hello" = Some (before ++ [(fst t, "hello")])) /\
  (forall h', append_history h "ai" "hello" = Some h' ->
     List.length h' = List.length h /\
     removelast h' = removelast h /\
     option_map fst (last_row h') = option_map fst (last_row h)).
Proof.
  apply (append_history_answer [("hi", "x"); ("yo", EmptyString)] "ai" "hello").
  discriminate.
Defined.

(** ** Context builder *)

(** X3. When the pinned prefix is shorter than [max_length], the result
    of [build_context] has at most [max_length] tokens, and exactly
    [max_length] when the pinned prefix and the turn tokens together
    have more. *)
Theorem build_context_within_budget
        (config : Config) (tokenizer : Tokenizer) (h : History)
        (max_length : Z) (system_prompt : option string) :
  Z.of_nat (List.length (system_prompt_ids tokenizer system_prompt)) < max_length ->
  Z.of_nat (List.length (build_context config tokenizer h max_length system_prompt))
    <= max_length /\
  (max_length < Z.of_nat (List.length (system_prompt_ids tokenizer system_prompt
                                        ++ turn_ids config tokenizer h)) ->
   Z.of_nat (List.length (build_context config tokenizer h max_length system_prompt))
   = max_length).
Proof. apply build_context_length_room. Qed.

Lemma build_context_within_budget_witness :
  Z.of_nat (List.length (build_context (demo_config false) byte_tokenizer
                                        [("hello", "hi there"); ("bye", EmptyString)]
                                        16 (Some "Be terse")))
    <= 16 /\
  (16 < Z.of_nat (List.length (system_prompt_ids byte_tokenizer (Some "Be terse")
                               ++ turn_ids (demo_config false) byte_tokenizer
                                           [("hello", "hi there"); ("bye", EmptyString)])) ->
   Z.of_nat (List.length (build_context (demo_config false) byte_tokenizer
                                         [("hello", "hi there"); ("bye", EmptyString)]
                                         16 (Some "Be terse")))
   = 16).
Proof.
  apply (build_context_within_budget (demo_config false) byte_tokenizer
           [("hello", "hi there"); ("bye", EmptyString)] 16 (Some "Be terse")).
  vm_compute. reflexivity.
Defined.

Lemma layout_snoc (config : Config) (tokenizer : Tokenizer) (h : History) (t : Turn) :
  spec_turn_layout config tokenizer (h ++ [t])
  = spec_turn_layout config tokenizer h
    ++ match h with [] => [] | _ => separator_ids tokenizer end
    ++ spec_turn_block config tokenizer t.
Proof.
  induction h as [| a h IH]; [reflexivity |].
  destruct h as [| b h].
  - reflexivity.
  - change (spec_turn_layout config tokenizer ((a :: b :: h) ++ [t]))
      with (spec_turn_block config tokenizer a ++ separator_ids tokenizer
            ++ spec_turn_layout config tokenizer ((b :: h) ++ [t])).
    rewrite IH.
    change (spec_turn_layout config tokenizer (a :: b :: h))
      with (spec_turn_block config tokenizer a ++ separator_ids tokenizer
            ++ spec_turn_layout config tokenizer (b :: h)).
    now rewrite <- !app_assoc.
Qed.

(** X4. While everything fits [max_length], the context of a history
    extended by one turn is the context of the history, then the
    separator unless the history is empty, then the context of the new
    turn alone built without system prompt. *)
Theorem build_context_appends_turn
        (config : Config) (tokenizer : Tokenizer) (h : History) (t : Turn)
        (max_length : Z) (system_prompt : option string) :
  Z.of_nat (List.length (system_prompt_ids tokenizer system_prompt
                         ++ turn_ids config tokenizer (h ++ [t]))) <= max_length ->
  build_context config tokenizer (h ++ [t]) max_length system_prompt
  = build_context config tokenizer h max_length system_prompt
    ++ match h with [] => [] | _ => separator_ids tokenizer end
    ++ build_context config tokenizer [t] max_length None.
Proof.
  intros Hfit.
  assert (Hsnoc : turn_ids config tokenizer (h ++ [t])
                  = turn_ids config tokenizer h
                    ++ match h with [] => [] | _ => separator_ids tokenizer end
                    ++ turn_ids config tokenizer [t]).
  { rewrite !turn_ids_layout. apply layout_snoc. }
  rewrite (build_context_fits _ _ _ _ _ Hfit).
  rewrite Hsnoc, !length_app, !Nat2Z.inj_add in Hfit.
  rewrite build_context_fits by (rewrite length_app; lia).
  rewrite (build_context_fits config tokenizer [t] max_length None)
    by (cbn [system_prompt_ids app]; lia).
  cbn [system_prompt_ids app]. now rewrite Hsnoc, <- !app_assoc.
Qed.

Lemma build_context_appends_turn_witness :
  build_context (demo_config false) byte_tokenizer
                ([("hi", "x")] ++ [("yo", EmptyString)]) 64 (Some "Be terse")
  = build_context (demo_config false) byte_tokenizer [("hi", "x")] 64 (Some "Be terse")
    ++ separator_ids byte_tokenizer
    ++ build_context (demo_config false) byte_tokenizer [("yo", EmptyString)] 64 None.
Proof.
  apply (build_context_appends_turn (demo_config false) byte_tokenizer
           [("hi", "x")] ("yo", EmptyString) 64 (Some "Be terse")).
  vm_compute. discriminate.
Defined.

(** ** Reading the text of a turn *)

Lemma str_append_assoc (a b c : string) : ((a ++ b) ++ c = a ++ (b ++ c))%string.
Proof. induction a as [| x a IH]; cbn; [reflexivity | now rewrite IH]. Qed.

Lemma str_append_nil_r (a : string) : (a ++ EmptyString = a)%string.
Proof. induction a as [| x a IH]; cbn; [reflexivity | now rewrite IH]. Qed.

Lemma str_last_append (a b : string) :
  b <> EmptyString -> str_last (a ++ b) = str_last b.
Proof.
  intros Hb. induction a as [| x a IH]; [reflexivity |].
  cbn [String.append str_last]. rewrite IH.
  destruct (a ++ b)%string eqn:Hab; [| reflexivity].
  destruct a; [cbn in Hab; congruence | discriminate].
Qed.

Lemma str_drop_last_snoc (a : string) (c : ascii) :
  str_drop_last (a ++ String c EmptyString) = a.
Proof.
  induction a as [| x a IH]; [reflexivity |].
  cbn [String.append str_drop_last]. rewrite IH.
  destruct (a ++ String c EmptyString)%string eqn:Ha; [| reflexivity].
  destruct a; discriminate.
Qed.

Lemma str_last_none (s : string) : str_last s = None -> s = EmptyString.
Proof.
  induction s as [| x s IH]; [reflexivity |]. cbn [str_last].
  destruct s; [discriminate |]. intros H. apply IH in H. discriminate.
Qed.

(** The first test of the loop is no case distinction: the text read so
    far is extended by the line. *)
Lemma read_text_step (line : string) (rest : list string) (text : string) :
  read_text (line :: rest) text
  = match str_last (text ++ line) with
    | None => ReadIndexError
    | Some c =>
        if Ascii.eqb c backslash
        then read_text rest (str_drop_last (text ++ line) ++ Py.newline)%string
        else ReadText (text ++ line)%string rest
    end.
Proof. destruct text; reflexivity. Qed.

(** The lines joined as the loop joins them. *)
Lemma read_text_continued (parts : list string) (final : string) (rest : list string)
      (text : string) (c : ascii) :
  str_last (text ++ continued parts ++ final) = Some c -> c <> backslash ->
  read_text (map (fun l => l ++ String backslash EmptyString)%string parts
             ++ final :: rest) text
  = ReadText (text ++ continued parts ++ final)%string rest.
Proof.
  revert text. induction parts as [| l parts IH]; intros text Hlast Hc.
  - cbn [map app continued String.append] in *. rewrite read_text_step, Hlast.
    destruct (Ascii.eqb_spec c backslash); [contradiction | reflexivity].
  - cbn [map app continued]. rewrite read_text_step.
    rewrite <- str_append_assoc, str_last_append by discriminate.
    cbn [str_last]. rewrite Ascii.eqb_refl, str_drop_last_snoc.
    assert (Hsame : (((text ++ l) ++ Py.newline) ++ continued parts ++ final
                     = text ++ (l ++ Py.newline ++ continued parts) ++ final)%string)
      by (now rewrite !str_append_assoc).
    rewrite IH; rewrite ?Hsame; [reflexivity | exact Hlast | exact Hc].
Qed.

Lemma str_snoc_not_empty (a : string) (c : ascii) :
  (a ++ String c EmptyString)%string <> EmptyString.
Proof. destruct a; discriminate. Qed.

Lemma str_last_snoc (a : string) (c : ascii) :
  str_last (a ++ String c EmptyString) = Some c.
Proof. rewrite str_last_append by discriminate. reflexivity. Qed.

Lemma continued_last (parts : list string) :
  parts <> [] -> str_last (continued parts) = Some (ascii_of_nat 10).
Proof.
  induction parts as [| l parts IH]; [congruence |]. intros _.
  cbn [continued]. destruct parts as [| l' parts].
  - cbn [continued]. rewrite str_append_nil_r. apply str_last_snoc.
  - rewrite !str_last_append; [apply IH; discriminate | |].
    + cbn [continued]. destruct l'; discriminate.
    + discriminate.
Qed.

(** X5. Lines that end in a backslash are continued: when the lines
    entered are some lines ending in a backslash and then one that does
    not, the text of the turn is those lines without their backslash,
    each followed by a newline, and then the last line; the lines after
    it are left unread. The last line may be empty if it is not the
    first. *)
Theorem read_turn_joins_continued_lines
        (parts : list string) (final : string) (rest : list string) :
  str_last final <> Some backslash ->
  parts <> [] \/ final <> EmptyString ->
  read_turn (map (fun l => l ++ String backslash EmptyString)%string parts
             ++ final :: rest)
  = ReadText (continued parts ++ final)%string rest.
Proof.
  intros Hfinal Hsome. unfold read_turn.
  destruct (str_last (continued parts ++ final)) as [c |] eqn:Hlast.
  - apply (read_text_continued parts final rest EmptyString c Hlast).
    intros ->. destruct final as [| x final].
    + rewrite str_append_nil_r in Hlast.
      destruct Hsome as [Hp | Hf]; [| congruence].
      rewrite (continued_last parts Hp) in Hlast. discriminate.
    + rewrite str_last_append in Hlast by discriminate. congruence.
  - apply str_last_none in Hlast. exfalso.
    destruct Hsome as [Hp | Hf].
    + destruct parts as [| l parts]; [congruence |].
      cbn [continued] in Hlast. destruct l; discriminate.
    + destruct (continued parts); [cbn in Hlast; congruence | discriminate].
Qed.

Lemma read_turn_joins_continued_lines_witness :
  read_turn (map (fun l => l ++ String backslash EmptyString)%string ["tell me"; "a"]
             ++ "story" :: ["next"])
  = ReadText (continued ["tell me"; "a"] ++ "story")%string ["next"].
Proof.
  apply (read_turn_joins_continued_lines ["tell me"; "a"] "story" ["next"]).
  - discriminate.
  - left. discriminate.
Defined.

Lemma read_text_result (lines : list string) (text t : string) (rest : list string) :
  read_text lines text = ReadText t rest ->
  (exists c, str_last t = Some c /\ c <> backslash) /\
  (exists consumed, consumed <> [] /\ lines = consumed ++ rest).
Proof.
  revert text. induction lines as [| line lines IH]; intros text H; [discriminate |].
  rewrite read_text_step in H.
  destruct (str_last (text ++ line)) as [c |] eqn:Hlast; [| discriminate].
  destruct (Ascii.eqb_spec c backslash) as [-> | Hc].
  - destruct (IH _ H) as [Ht [consumed [Hne Hl]]]. split; [exact Ht |].
    exists (line :: consumed). split; [discriminate | now rewrite Hl].
  - inversion H; subst. split; [now exists c |].
    exists [line]. split; [discriminate | reflexivity].
Qed.

(** X6. A text the reading returns is never empty and never ends in a
    backslash, and at least one line was read for it: the lines left
    for the next turn are a proper suffix of the lines entered. *)
Theorem read_turn_result (lines : list string) (t : string) (rest : list string) :
  read_turn lines = ReadText t rest ->
  t <> EmptyString /\
  (exists c, str_last t = Some c /\ c <> backslash) /\
  (exists consumed, consumed <> [] /\ lines = consumed ++ rest).
Proof.
  intros H. destruct (read_text_result lines EmptyString t rest H) as [[c [Hc Hn]] Hrest].
  split; [intros ->; discriminate |]. split; [now exists c | exact Hrest].
Qed.

Lemma read_turn_result_witness :
  "tell me" <> EmptyString /\
  (exists c, str_last "tell me" = Some c /\ c <> backslash) /\
  (exists consumed, consumed <> [] /\ ["tell me"; "next"] = consumed ++ ["next"]).
Proof.
  apply (read_turn_result ["tell me"; "next"] "tell me" ["next"]). reflexivity.
Defined.

Lemma read_text_index_error (lines : list string) (text : string) :
  read_text lines text = ReadIndexError ->
  text = EmptyString /\ exists rest, lines = EmptyString :: rest.
Proof.
  revert text. induction lines as [| line lines IH]; intros text H; [discriminate |].
  rewrite read_text_step in H.
  destruct (str_last (text ++ line)) as [c |] eqn:Hlast.
  - destruct (Ascii.eqb c backslash); [| discriminate].
    destruct (IH _ H) as [Hempty _]. now apply str_snoc_not_empty in Hempty.
  - apply str_last_none in Hlast. destruct text; [| discriminate].
    cbn in Hlast. subst line. split; [reflexivity | now exists lines].
Qed.

Lemma read_text_eof (lines : list string) (text : string) :
  text = EmptyString \/ str_last text = Some (ascii_of_nat 10) ->
  read_text lines text = ReadEOF <->
  Forall (fun l => str_last l = Some backslash) lines.
Proof.
  revert text. induction lines as [| line lines IH]; intros text Htext.
  - split; [constructor | reflexivity].
  - rewrite read_text_step.
    assert (Hlast : str_last (text ++ line)
                    = match line with
                      | EmptyString => str_last text
                      | _ => str_last line
                      end).
    { destruct line; [now rewrite str_append_nil_r |].
      now rewrite str_last_append by discriminate. }
    rewrite Hlast. destruct line as [| x line].
    + split.
      * intros H. exfalso. destruct Htext as [-> | Hnl]; [discriminate |].
        rewrite Hnl in H. discriminate.
      * intros H. inversion H as [| ? ? Hbad _]. discriminate.
    + destruct (str_last (String x line)) as [c |] eqn:Hc.
      * destruct (Ascii.eqb_spec c backslash) as [-> | Hne].
        -- rewrite IH by (right; apply str_last_snoc).
           split; [intros H; now constructor | intros H; now inversion H].
        -- split; [discriminate |]. intros H. inversion H. congruence.
      * apply str_last_none in Hc. discriminate.
Qed.

(** X7. The reading raises [IndexError] exactly when the first line
    entered is empty, and ends with the end of the input, returning no
    text, exactly when every line entered ends in a backslash (which
    includes no line at all): what was read of a continued text is then
    lost. *)
Theorem read_turn_failures (lines : list string) :
  (read_turn lines = ReadIndexError <-> exists rest, lines = EmptyString :: rest) /\
  (read_turn lines = ReadEOF <-> Forall (fun l => str_last l = Some backslash) lines).
Proof.
  split.
  - split.
    + intros H. now apply read_text_index_error in H.
    + intros [rest ->]. reflexivity.
  - apply read_text_eof. now left.
Qed.

(** ** Echo of the sampled tokens *)

Lemma printed_tokens_app (a b : list Output) :
  printed_tokens (a ++ b) = printed_tokens a ++ printed_tokens b.
Proof.
  induction a as [| o a IH]; [reflexivity |].
  destruct o; cbn [app printed_tokens]; rewrite IH; reflexivity.
Qed.

Lemma joined_snoc (l : list string) (t : string) :
  joined (l ++ [t]) = (joined l ++ t)%string.
Proof.
  unfold joined. induction l as [| x l IH]; cbn [app fold_right].
  - apply str_append_nil_r.
  - now rewrite IH, str_append_assoc.
Qed.

Lemma emit_echo (tokenizer : Tokenizer) (interrupted : bool) (g : Gen) (s : Sample) :
  let token := id_to_token tokenizer (token_id s) in
  let r := emit tokenizer interrupted g s in
  printed_tokens (printed (snd r)) = printed_tokens (printed g) ++ [Py.show token] /\
  ((fst r = Running /\ response (snd r) = (response g ++ Py.show token)%string /\
    token <> None) \/
   ((fst r = Interrupted \/ fst r = Crashed) /\ response (snd r) = response g)).
Proof.
  unfold emit. destruct interrupted;
    [| destruct (id_to_token tokenizer (token_id s)) as [t |]];
    cbn [fst snd with_print with_response printed response Py.show];
    rewrite !printed_tokens_app; cbn [printed_tokens]; rewrite ?app_nil_r;
    (split; [reflexivity |]); auto.
  left. repeat split. discriminate.
Qed.

Lemma stop_or_emit_echo (tokenizer : Tokenizer) (interrupted : bool)
      (g : Gen) (s : Sample) :
  let token := id_to_token tokenizer (token_id s) in
  let r := stop_or_emit tokenizer interrupted g s in
  (fst r = Stopped /\ response (snd r) = response g /\ printed (snd r) = printed g) \/
  (printed_tokens (printed (snd r)) = printed_tokens (printed g) ++ [Py.show token] /\
   ((fst r = Running /\ response (snd r) = (response g ++ Py.show token)%string /\
     token <> None) \/
    ((fst r = Interrupted \/ fst r = Crashed) /\ response (snd r) = response g))).
Proof.
  unfold stop_or_emit.
  repeat match goal with |- context [if ?b then _ else _] => destruct b end;
    try (left; cbn; repeat split; fail);
    right;
    match goal with |- context [emit _ _ ?g0 _] =>
      exact (emit_echo tokenizer interrupted g0 s)
    end.
Qed.

Lemma full_step_echo (tokenizer : Tokenizer) (T : Torch) (M : Model)
      (tc : TrainConfig) (interrupted : bool) (g : Gen) (u : float)
      (o : Outcome) (g' : Gen) :
  full_step tokenizer T M tc interrupted g u = (o, g') ->
  ((o = Interrupted \/ o = Crashed) /\ sampled g' = sampled g /\
   response g' = response g /\
   printed_tokens (printed g') = printed_tokens (printed g)) \/
  (o = Stopped /\ response g' = response g /\ printed g' = printed g /\
   exists t, sampled g' = sampled g ++ [t]) \/
  (exists t,
      sampled g' = sampled g ++ [t] /\
      printed_tokens (printed g')
      = printed_tokens (printed g) ++ [Py.show (id_to_token tokenizer t)] /\
      ((o = Running /\
        response g' = (response g ++ Py.show (id_to_token tokenizer t))%string /\
        id_to_token tokenizer t <> None) \/
       ((o = Interrupted \/ o = Crashed) /\ response g' = response g))).
Proof.
  unfold full_step. intros H.
  destruct (last_row _) as [row |]; [| inversion H; subst; left; cbn; auto].
  destruct (sample_step _ _ _ _ _) as [s |]; [| inversion H; subst; left; cbn; auto].
  right.
  match type of H with stop_or_emit _ _ ?g0 _ = _ =>
    pose proof (stop_or_emit_echo tokenizer interrupted g0 s) as E;
    pose proof (stop_or_emit_frame tokenizer interrupted g0 s) as F
  end.
  cbv zeta in E, F. rewrite H in E, F. cbn [fst snd] in E, F.
  destruct F as [_ [_ [_ [_ F]]]].
  cbn [with_sample with_call sampled response printed] in E, F.
  destruct E as [[E1 [E2 E3]] | E]; [left; eauto 10 | right; eauto 10].
Qed.

Lemma cache_step_echo (config : Config) (tokenizer : Tokenizer) (T : Torch)
      (M : Model) (tc : TrainConfig) (h : History) (interrupted : bool)
      (g : Gen) (u : float) (o : Outcome) (g' : Gen) :
  cache_step config tokenizer T M tc interrupted h g u = (o, g') ->
  ((o = Interrupted \/ o = Crashed) /\ sampled g' = sampled g /\
   response g' = response g /\
   printed_tokens (printed g') = printed_tokens (printed g)) \/
  (o = Stopped /\ response g' = response g /\ printed g' = printed g /\
   exists t, sampled g' = sampled g ++ [t]) \/
  (exists t,
      sampled g' = sampled g ++ [t] /\
      printed_tokens (printed g')
      = printed_tokens (printed g) ++ [Py.show (id_to_token tokenizer t)] /\
      ((o = Running /\
        response g' = (response g ++ Py.show (id_to_token tokenizer t))%string /\
        id_to_token tokenizer t <> None) \/
       ((o = Interrupted \/ o = Crashed) /\ response g' = response g))).
Proof.
  unfold cache_step. intros H.
  destruct (cache_call_frame config tokenizer M tc h g) as [Hs [_ [Hr [Hp _]]]].
  destruct (cache_call config tokenizer M tc h g) as [g1 row].
  cbn [fst] in Hs, Hr, Hp.
  destruct row as [row |];
    [| inversion H; subst; left; rewrite Hs, Hr, Hp; auto].
  destruct (sample_step _ _ _ _ _) as [s |];
    [| inversion H; subst; left; rewrite Hs, Hr, Hp; auto].
  right.
  match type of H with stop_or_emit _ _ ?g0 _ = _ =>
    pose proof (stop_or_emit_echo tokenizer interrupted g0 s) as E;
    pose proof (stop_or_emit_frame tokenizer interrupted g0 s) as F
  end.
  cbv zeta in E, F. rewrite H in E, F. cbn [fst snd] in E, F.
  destruct F as [_ [_ [_ [_ F]]]].
  cbn [with_sample sampled response printed] in E, F.
  rewrite Hs in F. rewrite Hr, Hp in E.
  destruct E as [[E1 [E2 E3]] | E]; [left; eauto 10 | right; eauto 10].
Qed.

Lemma full_iteration_echo (tokenizer : Tokenizer) (T : Torch) (M : Model)
      (tc : TrainConfig) :
  echo_step tokenizer (full_iteration tokenizer T M tc).
Proof.
  intros g ev o g' H. destruct ev as [u | | | u]; cbn [full_iteration] in H;
    try (now apply full_step_echo in H);
    inversion H; subst; left;
    cbn [with_print with_call sampled response printed];
    rewrite printed_tokens_app, app_nil_r; auto.
Qed.

Lemma cache_iteration_echo (config : Config) (tokenizer : Tokenizer) (T : Torch)
      (M : Model) (tc : TrainConfig) (h : History) :
  echo_step tokenizer (cache_iteration config tokenizer T M tc h).
Proof.
  intros g ev o g' H. destruct ev as [u | | | u]; cbn [cache_iteration] in H;
    try (now apply cache_step_echo in H).
  - inversion H; subst; left. cbn [with_print sampled response printed].
    rewrite printed_tokens_app, app_nil_r. auto.
  - destruct (cache_call_frame config tokenizer M tc h g) as [Hs [_ [Hr [Hp _]]]].
    apply pair_equal_spec in H. destruct H as [<- <-]. left.
    cbn [with_print sampled response printed].
    rewrite printed_tokens_app, app_nil_r, Hs, Hr, Hp. auto.
Qed.

Lemma echoing_holds (tokenizer : Tokenizer) (o : Outcome) (g : Gen) :
  echoing tokenizer g -> o <> Stopped -> echo_holds tokenizer (o, g).
Proof.
  intros [Hp [Hr Hv]] Ho. unfold echo_holds, emitted. cbn [fst snd].
  destruct o; try contradiction; (split; [exact Hp |]); (split; [| now left]);
    apply Forall_forall; intros t Ht;
    apply (proj1 (Forall_forall _ _) Hv);
    (destruct (sampled g) as [| x l] eqn:E; [contradiction |]);
    rewrite (app_removelast_last x (l := x :: l)) by discriminate;
    apply in_or_app; now left.
Qed.

Lemma run_loop_echo (tokenizer : Tokenizer)
      (iteration : Gen -> Event -> Outcome * Gen) :
  echo_step tokenizer iteration ->
  forall evs g, echoing tokenizer g ->
                echo_holds tokenizer (run_loop iteration evs g).
Proof.
  intros Hstep evs. induction evs as [| ev evs IH]; intros g Hg.
  - cbn [run_loop]. apply echoing_holds; [exact Hg | discriminate].
  - cbn [run_loop]. destruct (iteration g ev) as [o g'] eqn:Hit.
    pose proof Hg as [Hp [Hr Hv]].
    destruct (Hstep g ev o g' Hit)
      as [[Ho [Hs [Hr' Hp']]] | [[Ho [Hr' [Hp' [t Hs]]]] | [t [Hs [Hp' Hresp]]]]].
    + assert (Hg' : echoing tokenizer g').
      { unfold echoing. rewrite Hp', Hr', Hs. auto. }
      destruct Ho as [-> | ->]; apply echoing_holds; auto; discriminate.
    + subst o. unfold echo_holds, emitted. cbn [fst snd].
      rewrite Hs, removelast_last, Hp', Hr'.
      split; [exact Hp |]. split; [| now left].
      apply Forall_forall. intros x Hx.
      apply (proj1 (Forall_forall _ _) Hv).
      destruct (sampled g) as [| y l] eqn:E; [contradiction |].
      rewrite (app_removelast_last y (l := y :: l)) by discriminate.
      apply in_or_app. now left.
    + destruct Hresp as [[Ho [Hr' Hin]] | [Ho Hr']].
      * subst o. apply IH. unfold echoing.
        rewrite Hp', Hr', Hs, map_app, joined_snoc, Hr, Hp.
        split; [reflexivity |]. split; [reflexivity |].
        apply Forall_app. split; [exact Hv | now constructor].
      * assert (Hres : echo_holds tokenizer (o, g')).
        { unfold echo_holds, emitted. cbn [fst snd].
          assert (Hem : match o with Stopped => removelast (sampled g') | _ => sampled g' end
                        = sampled g ++ [t])
            by (destruct Ho as [-> | ->]; exact Hs).
          rewrite Hem, Hp', map_app, Hp, !removelast_last.
          split; [reflexivity |]. split; [exact Hv |].
          right. split; [exact Ho |]. now rewrite Hr', Hr, Hp. }
        destruct Ho as [-> | ->]; exact Hres.
Qed.

Lemma echoing_start (config : Config) (tokenizer : Tokenizer) (tc : TrainConfig)
      (h : History) (cache0 : list Z) :
  echoing tokenizer (start_turn config tokenizer tc h cache0).
Proof. unfold echoing, start_turn. cbn. auto. Qed.

Lemma turn_echoes_tokens (config : Config) (tokenizer : Tokenizer) (T : Torch)
      (M : Model) (tc : TrainConfig) (h : History) (cache0 : list Z)
      (evs : list Event) :
  echo_holds tokenizer (turn_loop config tokenizer T M tc h cache0 evs).
Proof.
  unfold turn_loop. destruct (ENABLE_KVCACHE config); apply run_loop_echo;
    auto using cache_iteration_echo, full_iteration_echo, echoing_start.
Qed.

(** X8. In both decode modes, for every sequence of draws and
    interrupts, the console shows the sampled tokens in the order they
    were sampled, the newline a turn stops on left out; a token that is
    not in the vocabulary shows as [None] and ends the turn (with the
    [TypeError] of the update of the response, unless an interrupt
    comes first), so only the token shown last can be one. The response
    of the turn is the text the console shows, unless the turn was left
    by an interrupt or an exception between the print of a token and
    the update of the response: then the token shown last is missing
    from the response. *)
Theorem turn_echoes_sampled_tokens
        (config : Config) (tokenizer : Tokenizer) (T : Torch) (M : Model)
        (tc : TrainConfig) (h : History) (cache0 : list Z) (text : string)
        (evs : list Event) :
  exists h' r,
    generate config tokenizer T M tc h cache0 text evs = Some (h', r) /\
    let shown := printed_tokens (printed (snd r)) in
    shown = map (fun t => Py.show (id_to_token tokenizer t)) (emitted r) /\
    Forall (fun t => id_to_token tokenizer t <> None) (removelast (emitted r)) /\
    (response (snd r) = joined shown \/
     ((fst r = Interrupted \/ fst r = Crashed) /\
      response (snd r) = joined (removelast shown))).
Proof.
  do 2 eexists. split; [reflexivity |].
  exact (turn_echoes_tokens config tokenizer T M tc
           (h ++ [(text, EmptyString)]) cache0 evs).
Qed.

(** A network with 512 outputs over the vocabulary of 256 tokens that
    answers with token 300: the console shows [None], the update of the
    response raises, and the line ends the process. *)
Example token_outside_the_vocabulary :
  let tc := demo_params 64 None 1 1 in
  let M := {| logits_at := fun _ => one_hot_logits 512 300 |} in
  let r := run_loop (full_iteration byte_tokenizer RefTorch.ref M tc)
                    [Draw 0.25; Draw 0.25]
                    (start_turn (demo_config false) byte_tokenizer tc
                                [("hi", EmptyString)] []) in
  fst r = Crashed /\ sampled (snd r) = [300] /\
  printed (snd r) = [Token 16 "None"] /\ response (snd r) = EmptyString /\
  handle_line (demo_config false) byte_tokenizer RefTorch.ref M demo_float_of_str
              (start_session (demo_config false) byte_tokenizer M tc)
              "hi" [Draw 0.25; Draw 0.25] = None.
Proof. vm_compute. repeat split. Qed.

(** ** Interrupts *)

Lemma run_loop_app (iteration : Gen -> Event -> Outcome * Gen)
      (evs1 evs2 : list Event) (g g1 : Gen) :
  run_loop iteration evs1 g = (Running, g1) ->
  run_loop iteration (evs1 ++ evs2) g = run_loop iteration evs2 g1.
Proof.
  revert g. induction evs1 as [| ev evs1 IH]; intros g H.
  - cbn in H. inversion H. reflexivity.
  - cbn [run_loop app] in *. destruct (iteration g ev) as [[] g'];
      try discriminate. now apply IH.
Qed.

Lemma run_loop_halted (iteration : Gen -> Event -> Outcome * Gen)
      (evs1 evs2 : list Event) (g g1 : Gen) (o : Outcome) :
  run_loop iteration evs1 g = (o, g1) -> o <> Running ->
  run_loop iteration (evs1 ++ evs2) g = (o, g1).
Proof.
  revert g. induction evs1 as [| ev evs1 IH]; intros g H Ho.
  - cbn in H. inversion H. congruence.
  - cbn [run_loop app] in *. destruct (iteration g ev) as [[] g'];
      try exact H. now apply IH.
Qed.

(** ** One line of the prompt loop *)

Lemma generate_turn_loop (config : Config) (tokenizer : Tokenizer) (T : Torch)
      (M : Model) (tc : TrainConfig) (h : History) (cache0 : list Z)
      (text : string) (evs : list Event) :
  generate config tokenizer T M tc h cache0 text evs
  = Some (h ++ [(text, EmptyString)],
          turn_loop config tokenizer T M tc (h ++ [(text, EmptyString)]) cache0 evs).
Proof. reflexivity. Qed.

Lemma append_answer (h : History) (text answer : string) :
  append_history (h ++ [(text, EmptyString)]) "ai" answer
  = Some (h ++ [(text, answer)]).
Proof.
  unfold append_history. cbn [String.eqb Ascii.eqb Bool.eqb].
  rewrite rev_app_distr. cbn [rev app fst]. now rewrite rev_involutive.
Qed.

Lemma is_turn_tests (text : string) :
  is_turn text = true ->
  String.eqb text "!clear" = false /\
  PyStr.startswith text "!top_p" = false /\
  PyStr.startswith text "!temperature" = false /\
  PyStr.startswith text "!context" = false /\
  PyStr.startswith text "!history" = false.
Proof.
  unfold is_turn, is_setting_or_inspection. intros H.
  apply andb_true_iff in H. destruct H as [H1 H2].
  apply negb_true_iff in H1. apply negb_true_iff in H2.
  repeat (apply orb_false_iff in H2; destruct H2 as [H2 ?]). auto.
Qed.

Lemma handle_line_turn (config : Config) (tokenizer : Tokenizer) (T : Torch)
      (M : Model) (float_of_str : string -> option float)
      (s : Session) (text : string) (evs : list Event) :
  is_turn text = true ->
  handle_line config tokenizer T M float_of_str s text evs
  = let r := turn_loop config tokenizer T M (params s)
                       (history s ++ [(text, EmptyString)]) (kv_cache s) evs in
    match fst r with
    | Stopped | Interrupted =>
        Some {| history := history s ++ [(text, PyStr.strip (response (snd r)))];
                params := params s; kv_cache := cache (snd r);
                console := console s ++ printed (snd r) |}
    | Running | Crashed => None
    end.
Proof.
  intros H. destruct (is_turn_tests text H) as [H1 [H2 [H3 [H4 H5]]]].
  unfold handle_line. rewrite H1, H2, H3, H4, H5, generate_turn_loop.
  cbv zeta. cbn [bind].
  destruct (turn_loop _ _ _ _ _ _ _ _) as [[] g]; cbn [fst snd bind];
    rewrite ?append_answer; reflexivity.
Qed.

Lemma turn_loop_app (config : Config) (tokenizer : Tokenizer) (T : Torch)
      (M : Model) (tc : TrainConfig) (h : History) (cache0 : list Z)
      (evs1 evs2 : list Event) (g1 : Gen) :
  turn_loop config tokenizer T M tc h cache0 evs1 = (Running, g1) ->
  turn_loop config tokenizer T M tc h cache0 (evs1 ++ KeyboardInterrupt :: evs2)
  = (Interrupted, with_print g1 ResetColour).
Proof.
  unfold turn_loop. destruct (ENABLE_KVCACHE config); intros H;
    rewrite (run_loop_app _ _ _ _ _ H); reflexivity.
Qed.

(** X9. An interrupt that lands in the [try] block before the network
    is called ends the turn at once and keeps the session: when a
    generation is still running after some draws, such an interrupt
    calls the network no more, so that the cache is what the last
    completed iteration left, consumes nothing that follows, and stores
    the response produced so far, stripped, as the answer of the turn.
    The console shows the tokens echoed so far and the colour reset. *)
Theorem interrupt_keeps_partial_answer
        (config : Config) (tokenizer : Tokenizer) (T : Torch) (M : Model)
        (float_of_str : string -> option float)
        (s : Session) (text : string) (evs1 evs2 : list Event) (g1 : Gen) :
  is_turn text = true ->
  turn_loop config tokenizer T M (params s)
            (history s ++ [(text, EmptyString)]) (kv_cache s) evs1 = (Running, g1) ->
  handle_line config tokenizer T M float_of_str s text
              (evs1 ++ KeyboardInterrupt :: evs2)
  = Some {| history := history s ++ [(text, PyStr.strip (response g1))];
            params := params s; kv_cache := cache g1;
            console := console s ++ printed g1 ++ [ResetColour] |}.
Proof.
  intros Ht Hrun. rewrite (handle_line_turn _ _ _ _ _ _ _ _ Ht).
  rewrite (turn_loop_app _ _ _ _ _ _ _ _ _ _ Hrun). reflexivity.
Qed.

Lemma interrupt_keeps_partial_answer_witness :
  let tc := demo_params 64 (Some "Be terse") 1 1 in
  let s := start_session (demo_config true) byte_tokenizer parity_model tc in
  exists g1,
    response g1 = String "x" Py.newline /\
    handle_line (demo_config true) byte_tokenizer RefTorch.ref parity_model
                demo_float_of_str s "hi"
                ([Draw 0.25; Draw 0.25] ++ KeyboardInterrupt :: [Draw 0.25; Draw 0.25])
    = Some {| history := history s ++ [("hi", PyStr.strip (response g1))];
              params := params s; kv_cache := cache g1;
              console := console s ++ printed g1 ++ [ResetColour] |}.
Proof.
  eexists. split;
    [| apply (interrupt_keeps_partial_answer
                (demo_config true) byte_tokenizer RefTorch.ref parity_model
                demo_float_of_str
                (start_session (demo_config true) byte_tokenizer parity_model
                               (demo_params 64 (Some "Be terse") 1 1))
                "hi" [Draw 0.25; Draw 0.25] [Draw 0.25; Draw 0.25]);
       [reflexivity | vm_compute; reflexivity] ].
  vm_compute. reflexivity.
Defined.

(** The turn "hi" interrupted after its first token, once before the
    second call of the network and once after that call has returned:
    the answer is the same, and in the second case the cache holds the
    token the call was fed. *)
Example interrupt_after_the_call :
  let tc := demo_params 64 (Some "Be terse") 1 1 in
  let s := start_session (demo_config true) byte_tokenizer parity_model tc in
  let line := handle_line (demo_config true) byte_tokenizer RefTorch.ref parity_model
                          demo_float_of_str s "hi" in
  option_map history (line [Draw 0.25; KeyboardInterrupt]) = Some [("hi", "x")] /\
  option_map history (line [Draw 0.25; InterruptAfterCall]) = Some [("hi", "x")] /\
  match line [Draw 0.25; KeyboardInterrupt], line [Draw 0.25; InterruptAfterCall] with
  | Some a, Some b => kv_cache b = kv_cache a ++ [120]
  | _, _ => False
  end.
Proof. vm_compute. repeat split. Qed.

Lemma is_turn_cases (text : string) :
  text = "!clear" \/ is_setting_or_inspection text = true \/ is_turn text = true.
Proof.
  unfold is_turn. destruct (String.eqb_spec text "!clear") as [-> | _]; [now left |].
  right. destruct (is_setting_or_inspection text); auto.
Qed.

Lemma cmd_top_p_frame (float_of_str : string -> option float) (text : string)
      (tc : TrainConfig) :
  max_length (fst (cmd_top_p float_of_str text tc)) = max_length tc /\
  system_prompt (fst (cmd_top_p float_of_str text tc)) = system_prompt tc /\
  temperature (fst (cmd_top_p float_of_str text tc)) = temperature tc.
Proof.
  unfold cmd_top_p.
  repeat match goal with
         | |- context [match ?x with _ => _ end] => destruct x
         end; repeat split.
Qed.

Lemma cmd_temperature_frame (float_of_str : string -> option float) (text : string)
      (tc : TrainConfig) :
  max_length (fst (cmd_temperature float_of_str text tc)) = max_length tc /\
  system_prompt (fst (cmd_temperature float_of_str text tc)) = system_prompt tc /\
  top_p (fst (cmd_temperature float_of_str text tc)) = top_p tc.
Proof.
  unfold cmd_temperature.
  repeat match goal with
         | |- context [match ?x with _ => _ end] => destruct x
         end; repeat split.
Qed.

(** The lines that set a parameter or show something. *)
Lemma handle_line_setting (config : Config) (tokenizer : Tokenizer) (T : Torch)
      (M : Model) (float_of_str : string -> option float)
      (s : Session) (text : string) (evs : list Event) :
  is_setting_or_inspection text = true ->
  match handle_line config tokenizer T M float_of_str s text evs with
  | Some s' =>
      history s' = history s /\ kv_cache s' = kv_cache s /\
      max_length (params s') = max_length (params s) /\
      system_prompt (params s') = system_prompt (params s) /\
      exists o, console s' = console s ++ [o]
  | None =>
      PyStr.startswith text "!context" = true /\
      List.length (build_context config tokenizer (history s)
                                 (max_length (params s)) (system_prompt (params s)))
      = 1%nat
  end.
Proof.
  intros H. unfold handle_line.
  destruct (String.eqb_spec text "!clear") as [-> | _]; [discriminate H |].
  unfold is_setting_or_inspection in H.
  destruct (PyStr.startswith text "!top_p").
  { pose proof (cmd_top_p_frame float_of_str text (params s)) as [Hm [Hs _]].
    destruct (cmd_top_p float_of_str text (params s)) as [tc o].
    cbn [fst history kv_cache params console] in *. eauto 10. }
  destruct (PyStr.startswith text "!temperature").
  { pose proof (cmd_temperature_frame float_of_str text (params s)) as [Hm [Hs _]].
    destruct (cmd_temperature float_of_str text (params s)) as [tc o].
    cbn [fst history kv_cache params console] in *. eauto 10. }
  destruct (PyStr.startswith text "!context").
  { destruct (build_context _ _ _ _ _) as [| a [| b l]];
      cbn [history kv_cache params console List.length]; eauto 10. }
  destruct (PyStr.startswith text "!history"); [| discriminate H].
  cbn [history kv_cache params console]. eauto 10.
Qed.

(** X10. A line that starts with [!top_p], [!temperature], [!context]
    or [!history] never reaches the network: whatever follows the
    command word, the history, the cache, [max_length] and the system
    prompt stay as they are and the console gets one entry. The only
    such line that ends the process is [!context] when the context has
    exactly one token. *)
Theorem settings_leave_the_conversation_alone
        (config : Config) (tokenizer : Tokenizer) (T : Torch) (M : Model)
        (float_of_str : string -> option float)
        (s : Session) (text : string) (evs : list Event) :
  is_setting_or_inspection text = true ->
  match handle_line config tokenizer T M float_of_str s text evs with
  | Some s' =>
      history s' = history s /\ kv_cache s' = kv_cache s /\
      max_length (params s') = max_length (params s) /\
      system_prompt (params s') = system_prompt (params s) /\
      exists o, console s' = console s ++ [o]
  | None =>
      PyStr.startswith text "!context" = true /\
      List.length (build_context config tokenizer (history s)
                                 (max_length (params s)) (system_prompt (params s)))
      = 1%nat
  end.
Proof. apply handle_line_setting. Qed.

Lemma settings_leave_the_conversation_alone_witness :
  let s := {| history := [("hi", "x")]; params := demo_params 1 None 1 1;
              kv_cache := [72; 58]; console := [] |} in
  is_setting_or_inspection "!contextual" = true /\
  match handle_line (demo_config true) byte_tokenizer RefTorch.ref parity_model
                    demo_float_of_str s "!contextual" [Draw 0.25] with
  | Some s' =>
      history s' = history s /\ kv_cache s' = kv_cache s /\
      max_length (params s') = max_length (params s) /\
      system_prompt (params s') = system_prompt (params s) /\
      exists o, console s' = console s ++ [o]
  | None =>
      PyStr.startswith "!contextual" "!context" = true /\
      List.length (build_context (demo_config true) byte_tokenizer (history s)
                                 (max_length (params s)) (system_prompt (params s)))
      = 1%nat
  end.
Proof.
  split; [reflexivity |].
  apply (settings_leave_the_conversation_alone
           (demo_config true) byte_tokenizer RefTorch.ref parity_model
           demo_float_of_str
           {| history := [("hi", "x")]; params := demo_params 1 None 1 1;
              kv_cache := [72; 58]; console := [] |} "!contextual" [Draw 0.25]).
  reflexivity.
Defined.

(** ** The cache over a line *)

Lemma full_iteration_cache (tokenizer : Tokenizer) (T : Torch) (M : Model)
      (tc : TrainConfig) (g : Gen) (ev : Event) (o : Outcome) (g' : Gen) :
  full_iteration tokenizer T M tc g ev = (o, g') -> cache g' = cache g.
Proof.
  intros H.
  assert (Hstep : forall b u, full_step tokenizer T M tc b g u = (o, g') ->
                              cache g' = cache g).
  { intros b u Hb. unfold full_step in Hb.
    destruct (last_row _) as [row |]; [| now inversion Hb].
    destruct (sample_step _ _ _ _ _) as [s |]; [| now inversion Hb].
    match type of Hb with stop_or_emit _ _ ?g0 _ = _ =>
      pose proof (stop_or_emit_frame tokenizer b g0 s) as F
    end.
    cbv zeta in F. rewrite Hb in F. cbn [snd] in F.
    destruct F as [_ [F _]]. exact F. }
  destruct ev as [u | | | u]; cbn [full_iteration] in H; eauto;
    now inversion H.
Qed.

Lemma cache_iteration_cache (config : Config) (tokenizer : Tokenizer) (T : Torch)
      (M : Model) (tc : TrainConfig) (h : History)
      (g : Gen) (ev : Event) (o : Outcome) (g' : Gen) :
  cache_iteration config tokenizer T M tc h g ev = (o, g') ->
  exists added, cache g' = cache g ++ added.
Proof.
  intros H.
  destruct (cache_call_frame config tokenizer M tc h g)
    as [_ [_ [_ [_ [_ [arg [_ Hc]]]]]]].
  assert (Hstep : forall b u, cache_step config tokenizer T M tc b h g u = (o, g') ->
                              exists added, cache g' = cache g ++ added).
  { intros b u Hb. unfold cache_step in Hb.
    destruct (cache_call config tokenizer M tc h g) as [g1 row]. cbn [fst] in Hc.
    destruct row as [row |]; [| inversion Hb; subst; eauto].
    destruct (sample_step _ _ _ _ _) as [s |]; [| inversion Hb; subst; eauto].
    match type of Hb with stop_or_emit _ _ ?g0 _ = _ =>
      pose proof (stop_or_emit_frame tokenizer b g0 s) as F
    end.
    cbv zeta in F. rewrite Hb in F. cbn [snd] in F.
    destruct F as [_ [F _]]. cbn [with_sample cache] in F. rewrite F. eauto. }
  destruct ev as [u | | | u]; cbn [cache_iteration] in H; eauto.
  - inversion H; subst. exists []. now rewrite app_nil_r.
  - apply pair_equal_spec in H. destruct H as [_ <-].
    cbn [with_print cache]. eauto.
Qed.

Lemma run_loop_cache (iteration : Gen -> Event -> Outcome * Gen) :
  (forall g ev o g', iteration g ev = (o, g') ->
                     exists added, cache g' = cache g ++ added) ->
  forall evs g, exists added,
    cache (snd (run_loop iteration evs g)) = cache g ++ added.
Proof.
  intros Hstep evs. induction evs as [| ev evs IH]; intros g.
  - exists []. cbn. now rewrite app_nil_r.
  - cbn [run_loop]. destruct (iteration g ev) as [o g'] eqn:Hit.
    destruct (Hstep g ev o g' Hit) as [a Ha].
    destruct o; cbn [snd]; eauto.
    destruct (IH g') as [b Hb]. exists (a ++ b).
    now rewrite Hb, Ha, app_assoc.
Qed.

Lemma run_loop_cache_kept (iteration : Gen -> Event -> Outcome * Gen) :
  (forall g ev o g', iteration g ev = (o, g') -> cache g' = cache g) ->
  forall evs g, cache (snd (run_loop iteration evs g)) = cache g.
Proof.
  intros Hstep evs. induction evs as [| ev evs IH]; intros g; [reflexivity |].
  cbn [run_loop]. destruct (iteration g ev) as [o g'] eqn:Hit.
  pose proof (Hstep g ev o g' Hit) as Ha.
  destruct o; cbn [snd]; auto. now rewrite IH.
Qed.

Lemma turn_loop_cache (config : Config) (tokenizer : Tokenizer) (T : Torch)
      (M : Model) (tc : TrainConfig) (h : History) (cache0 : list Z)
      (evs : list Event) :
  exists added,
    cache (snd (turn_loop config tokenizer T M tc h cache0 evs)) = cache0 ++ added /\
    (ENABLE_KVCACHE config = false -> added = []).
Proof.
  unfold turn_loop. destruct (ENABLE_KVCACHE config).
  - destruct (run_loop_cache _ (cache_iteration_cache config tokenizer T M tc h) evs
                (start_turn config tokenizer tc h cache0)) as [a Ha].
    exists a. split; [exact Ha | discriminate].
  - exists []. rewrite app_nil_r. split; [| reflexivity].
    now rewrite (run_loop_cache_kept _ (full_iteration_cache tokenizer T M tc)).
Qed.

(** Every line the prompt loop gets through is one of three kinds. *)
Lemma handle_line_cases (config : Config) (tokenizer : Tokenizer) (T : Torch)
      (M : Model) (float_of_str : string -> option float)
      (s : Session) (text : string) (evs : list Event) (s' : Session) :
  handle_line config tokenizer T M float_of_str s text evs = Some s' ->
  (text = "!clear" /\
   s' = {| history := []; params := params s;
           kv_cache := if ENABLE_KVCACHE config
                       then prime_cache config tokenizer M (params s) else kv_cache s;
           console := console s ++ [HistoryCleared] |}) \/
  (is_setting_or_inspection text = true /\
   history s' = history s /\ kv_cache s' = kv_cache s /\
   exists o, console s' = console s ++ [o]) \/
  (is_turn text = true /\
   exists g added,
     history s' = history s ++ [(text, PyStr.strip (response g))] /\
     params s' = params s /\
     kv_cache s' = kv_cache s ++ added /\
     (ENABLE_KVCACHE config = false -> added = []) /\
     console s' = console s ++ printed g /\
     (response g = joined (printed_tokens (printed g)) \/
      response g = joined (removelast (printed_tokens (printed g))))).
Proof.
  intros H. destruct (is_turn_cases text) as [-> | [Hset | Hturn]].
  - left. split; [reflexivity |]. unfold handle_line in H.
    cbn [String.eqb Ascii.eqb Bool.eqb] in H. now inversion H.
  - right. left. split; [exact Hset |].
    pose proof (handle_line_setting config tokenizer T M float_of_str s text evs Hset)
      as Hs. rewrite H in Hs. tauto.
  - right. right. split; [exact Hturn |].
    rewrite (handle_line_turn _ _ _ _ _ _ _ _ Hturn) in H. cbv zeta in H.
    destruct (turn_loop_cache config tokenizer T M (params s)
                (history s ++ [(text, EmptyString)]) (kv_cache s) evs)
      as [added [Hc Hk]].
    destruct (turn_echoes_tokens config tokenizer T M (params s)
                (history s ++ [(text, EmptyString)]) (kv_cache s) evs) as [_ [_ Hr]].
    destruct (turn_loop _ _ _ _ _ _ _ _) as [o g]. cbn [fst snd] in *.
    exists g, added.
    assert (Hr' : response g = joined (printed_tokens (printed g)) \/
                  response g = joined (removelast (printed_tokens (printed g))))
      by tauto.
    destruct o; try discriminate; inversion H; subst s';
      cbn [history params kv_cache console]; auto 10.
Qed.

(** ** Stripping *)

Lemma strip_front_head (backwards : bool) (n : nat) :
  forall s, (String.length s <= n)%nat ->
            PyStr.space_first backwards (PyStr.strip_front backwards s) = false.
Proof.
  induction n as [| n IH]; intros s Hn.
  - destruct s; [reflexivity | cbn in Hn; lia].
  - destruct s as [| a r1]; [reflexivity |]. cbn [PyStr.strip_front].
    destruct (PyStr.isspace a) eqn:Ea; [apply IH; cbn in Hn; lia |].
    destruct r1 as [| b r2]; [cbn [PyStr.space_first]; now rewrite Ea |].
    destruct (if backwards then PyStr.isspace2 b a else PyStr.isspace2 a b) eqn:Eb;
      [apply IH; cbn in Hn; lia |].
    destruct r2 as [| c r3]; [cbn [PyStr.space_first]; now rewrite Ea, Eb |].
    destruct (if backwards then PyStr.isspace3 c b a else PyStr.isspace3 a b c) eqn:Ec;
      [apply IH; cbn in Hn; lia |].
    cbn [PyStr.space_first]. now rewrite Ea, Eb, Ec.
Qed.

Lemma strip_front_suffix (backwards : bool) (n : nat) :
  forall s, (String.length s <= n)%nat ->
            exists pre, list_ascii_of_string s
                        = pre ++ list_ascii_of_string (PyStr.strip_front backwards s).
Proof.
  induction n as [| n IH]; intros s Hn.
  - destruct s; [now exists [] | cbn in Hn; lia].
  - destruct s as [| a r1]; [now exists [] |]. cbn [PyStr.strip_front].
    destruct (PyStr.isspace a).
    { destruct (IH r1 ltac:(cbn in Hn; lia)) as [pre Hpre].
      exists (a :: pre). cbn [list_ascii_of_string app]. now rewrite Hpre. }
    destruct r1 as [| b r2]; [now exists [] |].
    destruct (if backwards then PyStr.isspace2 b a else PyStr.isspace2 a b).
    { destruct (IH r2 ltac:(cbn in Hn; lia)) as [pre Hpre].
      exists (a :: b :: pre). cbn [list_ascii_of_string app]. now rewrite Hpre. }
    destruct r2 as [| c r3]; [now exists [] |].
    destruct (if backwards then PyStr.isspace3 c b a else PyStr.isspace3 a b c).
    { destruct (IH r3 ltac:(cbn in Hn; lia)) as [pre Hpre].
      exists (a :: b :: c :: pre). cbn [list_ascii_of_string app]. now rewrite Hpre. }
    now exists [].
Qed.

(** A whitespace character a string begins with is still there when
    the string is extended. *)
Lemma space_first_extended (backwards : bool) (p q : list ascii) :
  PyStr.space_first backwards (string_of_list_ascii (p ++ q)) = false ->
  PyStr.space_first backwards (string_of_list_ascii p) = false.
Proof.
  destruct p as [| a [| b [| c r]]]; [reflexivity | | |];
    cbn [app string_of_list_ascii PyStr.space_first]; intros H.
  - apply orb_false_iff in H. destruct H as [-> _]. reflexivity.
  - apply orb_false_iff in H. destruct H as [-> H].
    destruct (string_of_list_ascii q);
      [rewrite orb_false_r in H | apply orb_false_iff in H; destruct H as [H _]];
      now rewrite H.
  - exact H.
Qed.

Lemma rev_string_involutive (s : string) : PyStr.rev_string (PyStr.rev_string s) = s.
Proof.
  unfold PyStr.rev_string.
  now rewrite list_ascii_of_string_of_list_ascii, rev_involutive,
      string_of_list_ascii_of_string.
Qed.

(** [strip] and [split] on a text with whitespace of one, two and
    three bytes: a no-break space (U+00A0), [x], a space, [y], an
    ideographic space (U+3000) and a newline. *)
Example strip_and_split_beyond_ascii :
  let bytes := fun l => string_of_list_ascii (map ascii_of_nat l) in
  let text := bytes [194; 160; 120; 32; 121; 227; 128; 128; 10]%nat in
  PyStr.strip text = "x y" /\ PyStr.split text = ["x"; "y"] /\
  trimmed (PyStr.strip text).
Proof. vm_compute. repeat split. Qed.

Lemma strip_trimmed (s : string) : trimmed (PyStr.strip s).
Proof.
  unfold trimmed, PyStr.strip, PyStr.rstrip, PyStr.lstrip.
  set (x := PyStr.strip_front false s).
  set (z := PyStr.strip_front true (PyStr.rev_string x)).
  split.
  - destruct (strip_front_suffix true _ (PyStr.rev_string x) (Nat.le_refl _))
      as [pre Hpre].
    fold z in Hpre. unfold PyStr.rev_string in Hpre at 1.
    rewrite list_ascii_of_string_of_list_ascii in Hpre.
    apply (f_equal (@rev ascii)) in Hpre.
    rewrite rev_involutive, rev_app_distr in Hpre.
    apply (space_first_extended false (rev (list_ascii_of_string z)) (rev pre)).
    rewrite <- Hpre, string_of_list_ascii_of_string.
    apply (strip_front_head false _ s (Nat.le_refl _)).
  - rewrite rev_string_involutive.
    apply (strip_front_head true _ (PyStr.rev_string x) (Nat.le_refl _)).
Qed.

(** ** Sessions *)

Lemma run_session_invariant (config : Config) (tokenizer : Tokenizer) (T : Torch)
      (M : Model) (float_of_str : string -> option float) (P : Session -> Prop) :
  (forall s text evs s',
      P s -> handle_line config tokenizer T M float_of_str s text evs = Some s' ->
      P s') ->
  forall lines s s',
    P s -> run_session config tokenizer T M float_of_str s lines = Some s' -> P s'.
Proof.
  intros Hstep lines. induction lines as [| [text evs] lines IH]; intros s s' Hs H.
  - cbn in H. inversion H. now subst.
  - cbn [run_session] in H.
    destruct (handle_line config tokenizer T M float_of_str s text evs) as [s1 |] eqn:H1;
      [| discriminate H].
    cbn [bind] in H. exact (IH s1 s' (Hstep s text evs s1 Hs H1) H).
Qed.

Lemma handle_line_same_state (config : Config) (tokenizer : Tokenizer) (T : Torch)
      (M : Model) (float_of_str : string -> option float)
      (a b : Session) (text : string) (evs : list Event) :
  same_state a b ->
  match handle_line config tokenizer T M float_of_str a text evs,
        handle_line config tokenizer T M float_of_str b text evs with
  | Some a', Some b' =>
      same_state a' b' /\
      exists out, console a' = console a ++ out /\ console b' = console b ++ out
  | None, None => True
  | _, _ => False
  end.
Proof.
  destruct a as [ha pa ca oa], b as [hb pb cb ob]. unfold same_state.
  cbn [history params kv_cache console]. intros [<- [<- <-]].
  unfold handle_line. cbn [history params kv_cache console].
  destruct (String.eqb text "!clear").
  { cbn [history params kv_cache console]. eauto 10. }
  destruct (PyStr.startswith text "!top_p").
  { destruct (cmd_top_p float_of_str text pa) as [tc o].
    cbn [history params kv_cache console]. eauto 10. }
  destruct (PyStr.startswith text "!temperature").
  { destruct (cmd_temperature float_of_str text pa) as [tc o].
    cbn [history params kv_cache console]. eauto 10. }
  destruct (PyStr.startswith text "!context").
  { destruct (build_context _ _ _ _ _) as [| x [| y l]];
      cbn [history params kv_cache console]; eauto 10. }
  destruct (PyStr.startswith text "!history").
  { cbn [history params kv_cache console]. eauto 10. }
  destruct (generate _ _ _ _ _ _ _ _ _) as [[h [o g]] |]; cbn [bind]; [| exact I].
  destruct o; try exact I;
    destruct (append_history h "ai" (PyStr.strip (response g))); cbn [bind];
    try exact I; cbn [history params kv_cache console]; eauto 10.
Qed.

Lemma run_session_same_state (config : Config) (tokenizer : Tokenizer) (T : Torch)
      (M : Model) (float_of_str : string -> option float)
      (lines : list (string * list Event)) (a b : Session) :
  same_state a b ->
  match run_session config tokenizer T M float_of_str a lines,
        run_session config tokenizer T M float_of_str b lines with
  | Some a', Some b' =>
      same_state a' b' /\
      exists out, console a' = console a ++ out /\ console b' = console b ++ out
  | None, None => True
  | _, _ => False
  end.
Proof.
  revert a b. induction lines as [| [text evs] lines IH]; intros a b Hab.
  - cbn [run_session]. split; [exact Hab |]. exists []. now rewrite !app_nil_r.
  - cbn [run_session].
    pose proof (handle_line_same_state config tokenizer T M float_of_str a b text evs Hab)
      as H1.
    destruct (handle_line config tokenizer T M float_of_str a text evs) as [a1 |],
             (handle_line config tokenizer T M float_of_str b text evs) as [b1 |];
      cbn [bind]; try contradiction; [| exact I].
    destruct H1 as [Hab1 [out1 [Ha1 Hb1]]].
    pose proof (IH a1 b1 Hab1) as H2.
    destruct (run_session config tokenizer T M float_of_str a1 lines) as [a2 |],
             (run_session config tokenizer T M float_of_str b1 lines) as [b2 |];
      try contradiction; [| exact I].
    destruct H2 as [Hab2 [out2 [Ha2 Hb2]]].
    split; [exact Hab2 |]. exists (out1 ++ out2).
    now rewrite Ha2, Hb2, Ha1, Hb1, <- !app_assoc.
Qed.

(** Without the cache the driver never touches the network's cache. *)
Lemma reachable_without_cache (config : Config) (tokenizer : Tokenizer) (T : Torch)
      (M : Model) (float_of_str : string -> option float)
      (tc : TrainConfig) (s : Session) :
  ENABLE_KVCACHE config = false ->
  reachable config tokenizer T M float_of_str tc s -> kv_cache s = [].
Proof.
  intros Hkv [lines Hrun].
  apply (run_session_invariant config tokenizer T M float_of_str
           (fun s => kv_cache s = [])) with (3 := Hrun).
  - intros s0 text evs s1 Hs0 H.
    destruct (handle_line_cases _ _ _ _ _ _ _ _ _ H)
      as [[_ ->] | [[_ [_ [Hc _]]] | [_ [g [added [_ [_ [Hc [Ha _]]]]]]]]].
    + cbn [kv_cache]. now rewrite Hkv.
    + congruence.
    + rewrite Hc, Hs0, (Ha Hkv). reflexivity.
  - unfold start_session. cbn [kv_cache]. now rewrite Hkv.
Qed.

(** X11. [!clear] starts the conversation over with the parameters in
    force: from any session the prompt loop can be in, what follows a
    [!clear] line goes exactly as it would in a session just started
    with the current parameters. Both end in the same history,
    parameters and cache, or both end the process, and the console
    shows the same after the confirmation of the command. *)
Theorem clear_restarts_the_conversation
        (config : Config) (tokenizer : Tokenizer) (T : Torch) (M : Model)
        (float_of_str : string -> option float) (tc : TrainConfig)
        (s : Session) (evs : list Event) (lines : list (string * list Event)) :
  reachable config tokenizer T M float_of_str tc s ->
  match run_session config tokenizer T M float_of_str s (("!clear", evs) :: lines),
        run_session config tokenizer T M float_of_str
                    (start_session config tokenizer M (params s)) lines with
  | Some a, Some b =>
      same_state a b /\ console a = console s ++ HistoryCleared :: console b
  | None, None => True
  | _, _ => False
  end.
Proof.
  intros Hs.
  assert (Hclear : handle_line config tokenizer T M float_of_str s "!clear" evs
                   = Some {| history := []; params := params s;
                             kv_cache := kv_cache (start_session config tokenizer M (params s));
                             console := console s ++ [HistoryCleared] |}).
  { unfold handle_line, start_session. cbn [String.eqb Ascii.eqb Bool.eqb kv_cache].
    destruct (ENABLE_KVCACHE config) eqn:Hkv; [reflexivity |].
    now rewrite (reachable_without_cache _ _ _ _ _ _ _ Hkv Hs). }
  cbn [run_session]. rewrite Hclear. cbn [bind].
  match goal with |- context [run_session _ _ _ _ _ ?a lines] =>
    pose proof (run_session_same_state config tokenizer T M float_of_str lines a
                  (start_session config tokenizer M (params s))
                  (conj eq_refl (conj eq_refl eq_refl))) as H;
    destruct (run_session config tokenizer T M float_of_str a lines) as [a' |]
  end;
  destruct (run_session config tokenizer T M float_of_str
              (start_session config tokenizer M (params s)) lines) as [b' |];
    try contradiction; [| exact I].
  destruct H as [Hab [out [Ha Hb]]]. split; [exact Hab |].
  cbn [console start_session app] in Ha, Hb. rewrite Ha, Hb, <- app_assoc. reflexivity.
Qed.

Lemma clear_restarts_the_conversation_witness :
  let cfg := demo_config true in
  let tc := demo_params 64 (Some "Be terse") 1 1 in
  let evs := [Draw 0.25; Draw 0.25; Draw 0.25; Draw 0.25; Draw 0.25] in
  exists s,
    run_session cfg byte_tokenizer RefTorch.ref parity_model demo_float_of_str
                (start_session cfg byte_tokenizer parity_model tc)
                [("hi", evs); ("!top_p 0.5", [])] = Some s /\
    match run_session cfg byte_tokenizer RefTorch.ref parity_model demo_float_of_str
                      s (("!clear", []) :: [("yo", evs)]),
          run_session cfg byte_tokenizer RefTorch.ref parity_model demo_float_of_str
                      (start_session cfg byte_tokenizer parity_model (params s))
                      [("yo", evs)] with
    | Some a, Some b =>
        same_state a b /\ console a = console s ++ HistoryCleared :: console b
    | None, None => True
    | _, _ => False
    end.
Proof.
  cbv zeta. eexists. split; [vm_compute; reflexivity |].
  apply (clear_restarts_the_conversation
           (demo_config true) byte_tokenizer RefTorch.ref parity_model
           demo_float_of_str (demo_params 64 (Some "Be terse") 1 1)).
  exists [("hi", [Draw 0.25; Draw 0.25; Draw 0.25; Draw 0.25; Draw 0.25]);
          ("!top_p 0.5", [])].
  vm_compute. reflexivity.
Defined.

(** X12. Every answer in the history of a session the prompt loop can
    be in is stripped: it neither starts nor ends with a whitespace
    character. This holds for an answer cut short by an interrupt as
    well, and for the empty answer. *)
Theorem stored_answers_are_stripped
        (config : Config) (tokenizer : Tokenizer) (T : Torch) (M : Model)
        (float_of_str : string -> option float) (tc : TrainConfig) (s : Session) :
  reachable config tokenizer T M float_of_str tc s ->
  Forall (fun turn => trimmed (snd turn)) (history s).
Proof.
  intros [lines Hrun].
  apply (run_session_invariant config tokenizer T M float_of_str
           (fun s => Forall (fun turn => trimmed (snd turn)) (history s)))
    with (3 := Hrun).
  - intros s0 text evs s1 Hs0 H.
    destruct (handle_line_cases _ _ _ _ _ _ _ _ _ H)
      as [[_ ->] | [[_ [Hh _]] | [_ [g [added [Hh _]]]]]].
    + constructor.
    + now rewrite Hh.
    + rewrite Hh. apply Forall_app. split; [exact Hs0 |].
      constructor; [apply strip_trimmed | constructor].
  - constructor.
Qed.

Lemma stored_answers_are_stripped_witness :
  let cfg := demo_config false in
  let tc := demo_params 64 None 1 1 in
  exists s,
    run_session cfg byte_tokenizer RefTorch.ref parity_model demo_float_of_str
                (start_session cfg byte_tokenizer parity_model tc)
                [("hi", [Draw 0.25; Draw 0.25; Draw 0.25; KeyboardInterrupt])]
    = Some s /\
    history s = [("hi", "y")] /\
    Forall (fun turn => trimmed (snd turn)) (history s).
Proof.
  cbv zeta. eexists. split; [vm_compute; reflexivity |].
  split; [reflexivity |].
  apply (stored_answers_are_stripped
           (demo_config false) byte_tokenizer RefTorch.ref parity_model
           demo_float_of_str (demo_params 64 None 1 1)).
  exists [("hi", [Draw 0.25; Draw 0.25; Draw 0.25; KeyboardInterrupt])].
  vm_compute. reflexivity.
Defined.

Lemma stop_or_emit_interrupted (tokenizer : Tokenizer) (interrupted : bool)
      (g : Gen) (s : Sample) (g' : Gen) :
  stop_or_emit tokenizer interrupted g s = (Interrupted, g') ->
  exists out, printed g' = out ++ [ResetColour].
Proof.
  unfold stop_or_emit, emit.
  repeat match goal with |- context [if ?b then _ else _] => destruct b end;
    try destruct (id_to_token tokenizer (token_id s));
    intros H; inversion H; subst; cbn [with_print printed]; eauto.
Qed.

Lemma turn_loop_interrupted (config : Config) (tokenizer : Tokenizer) (T : Torch)
      (M : Model) (tc : TrainConfig) (h : History) (cache0 : list Z)
      (evs : list Event) (g' : Gen) :
  turn_loop config tokenizer T M tc h cache0 evs = (Interrupted, g') ->
  exists out, printed g' = out ++ [ResetColour].
Proof.
  assert (Hfull : forall g ev g1,
             full_iteration tokenizer T M tc g ev = (Interrupted, g1) ->
             exists out, printed g1 = out ++ [ResetColour]).
  { intros g ev g1 H.
    destruct ev as [u | | | u]; cbn [full_iteration] in H;
      try (inversion H; subst; cbn [with_print printed]; eauto; fail);
      unfold full_step in H;
      (destruct (last_row _) as [row |]; [| discriminate H]);
      (destruct (sample_step _ _ _ _ _) as [s |]; [| discriminate H]);
      exact (stop_or_emit_interrupted _ _ _ _ _ H). }
  assert (Hcache : forall g ev g1,
             cache_iteration config tokenizer T M tc h g ev = (Interrupted, g1) ->
             exists out, printed g1 = out ++ [ResetColour]).
  { intros g ev g1 H.
    destruct ev as [u | | | u]; cbn [cache_iteration] in H;
      try (apply pair_equal_spec in H; destruct H as [_ <-];
           cbn [with_print printed]; eauto; fail);
      unfold cache_step in H;
      destruct (cache_call config tokenizer M tc h g) as [g0 row];
      (destruct row as [row |]; [| discriminate H]);
      (destruct (sample_step _ _ _ _ _) as [s |]; [| discriminate H]);
      exact (stop_or_emit_interrupted _ _ _ _ _ H). }
  assert (Hloop : forall it,
             (forall g ev g1, it g ev = (Interrupted, g1) ->
                              exists out, printed g1 = out ++ [ResetColour]) ->
             forall evs g, run_loop it evs g = (Interrupted, g') ->
                           exists out, printed g' = out ++ [ResetColour]).
  { intros it Hit evs0. induction evs0 as [| ev evs0 IH]; intros g H;
      [discriminate H |].
    cbn [run_loop] in H. destruct (it g ev) as [o g1] eqn:E.
    destruct o; try discriminate H; [now apply (IH g1) |].
    inversion H; subst. exact (Hit _ _ _ E). }
  unfold turn_loop. destruct (ENABLE_KVCACHE config); eauto.
Qed.

(** X13. A line sent to the network adds exactly one turn to the
    history and leaves the parameters alone. The turn holds the text as
    it was entered and, as its answer, the stripped text of the tokens
    the console echoed while the line was handled. The one exception is
    a turn ended by an interrupt, the console showing the colour reset
    last: when the interrupt came between the print of a token and the
    update of the response, the answer is without the token echoed
    last. *)
Theorem turn_stores_what_was_shown
        (config : Config) (tokenizer : Tokenizer) (T : Torch) (M : Model)
        (float_of_str : string -> option float)
        (s s' : Session) (text : string) (evs : list Event) :
  is_turn text = true ->
  handle_line config tokenizer T M float_of_str s text evs = Some s' ->
  exists out answer,
    console s' = console s ++ out /\
    history s' = history s ++ [(text, PyStr.strip answer)] /\
    params s' = params s /\
    (answer = joined (printed_tokens out) \/
     (exists out', out = out' ++ [ResetColour]) /\
     answer = joined (removelast (printed_tokens out))).
Proof.
  intros Ht H. rewrite (handle_line_turn _ _ _ _ _ _ _ _ Ht) in H. cbv zeta in H.
  pose proof (turn_echoes_tokens config tokenizer T M (params s)
                (history s ++ [(text, EmptyString)]) (kv_cache s) evs) as [_ [_ Hr]].
  pose proof (turn_loop_interrupted config tokenizer T M (params s)
                (history s ++ [(text, EmptyString)]) (kv_cache s) evs) as Hi.
  destruct (turn_loop _ _ _ _ _ _ _ _) as [o g]. cbn [fst snd] in H, Hr.
  exists (printed g), (response g).
  destruct o; try discriminate H; inversion H; subst s';
    cbn [console history params]; repeat split.
  - left. destruct Hr as [Hr | [[Ho | Ho] _]]; [exact Hr | discriminate | discriminate].
  - destruct Hr as [Hr | [_ Hr]]; [now left | right].
    split; [exact (Hi g eq_refl) | exact Hr].
Qed.

Lemma turn_stores_what_was_shown_witness :
  let cfg := demo_config false in
  let tc := demo_params 64 (Some "Be terse") 1 1 in
  let s := start_session cfg byte_tokenizer zero_then_A tc in
  exists s',
    handle_line cfg byte_tokenizer RefTorch.ref zero_then_A demo_float_of_str s
                " hi " [Draw 0.25; Draw 0.25; Draw 0.25; InterruptAfterPrint 0.25]
    = Some s' /\
    printed_tokens (console s')
    = [String Ascii.zero EmptyString; "A"; String Ascii.zero EmptyString; "A"] /\
    history s'
    = [(" hi ", String Ascii.zero (String "A"%char (String Ascii.zero EmptyString)))] /\
    exists out answer,
      console s' = console s ++ out /\
      history s' = history s ++ [(" hi ", PyStr.strip answer)] /\
      params s' = params s /\
      (answer = joined (printed_tokens out) \/
       (exists out', out = out' ++ [ResetColour]) /\
       answer = joined (removelast (printed_tokens out))).
Proof.
  cbv zeta. eexists. split; [vm_compute; reflexivity |].
  split; [reflexivity |]. split; [reflexivity |].
  apply (turn_stores_what_was_shown
           (demo_config false) byte_tokenizer RefTorch.ref zero_then_A
           demo_float_of_str
           (start_session (demo_config false) byte_tokenizer zero_then_A
                          (demo_params 64 (Some "Be terse") 1 1))
           _ " hi " [Draw 0.25; Draw 0.25; Draw 0.25; InterruptAfterPrint 0.25]);
    [reflexivity | vm_compute; reflexivity].
Defined.

(** X14. Only [!clear] resets the cache. Any other line leaves the
    cache as it was, or with more tokens after what it held; the window
    of [max_length] tokens is never applied to it. In full-recompute
    mode no line changes it. *)
Theorem cache_grows_until_cleared
        (config : Config) (tokenizer : Tokenizer) (T : Torch) (M : Model)
        (float_of_str : string -> option float)
        (s s' : Session) (text : string) (evs : list Event) :
  text <> "!clear" ->
  handle_line config tokenizer T M float_of_str s text evs = Some s' ->
  exists added,
    kv_cache s' = kv_cache s ++ added /\
    (ENABLE_KVCACHE config = false -> added = []).
Proof.
  intros Ht H.
  destruct (handle_line_cases _ _ _ _ _ _ _ _ _ H)
    as [[-> _] | [[_ [_ [Hc _]]] | [_ [g [added [_ [_ [Hc [Ha _]]]]]]]]].
  - contradiction.
  - exists []. now rewrite app_nil_r.
  - exists added. auto.
Qed.

Lemma cache_grows_until_cleared_witness :
  let cfg := demo_config true in
  let tc := demo_params 4 None 1 1 in
  let s := start_session cfg byte_tokenizer parity_model tc in
  exists s',
    handle_line cfg byte_tokenizer RefTorch.ref parity_model demo_float_of_str s
                "hi" [Draw 0.25; Draw 0.25; Draw 0.25; Draw 0.25] = Some s' /\
    (max_length (params s') < Z.of_nat (List.length (kv_cache s'))) /\
    exists added,
      kv_cache s' = kv_cache s ++ added /\
      (ENABLE_KVCACHE cfg = false -> added = []).
Proof.
  cbv zeta. eexists. split; [vm_compute; reflexivity |].
  split; [vm_compute; reflexivity |].
  apply (cache_grows_until_cleared
           (demo_config true) byte_tokenizer RefTorch.ref parity_model
           demo_float_of_str
           (start_session (demo_config true) byte_tokenizer parity_model
                          (demo_params 4 None 1 1))
           _ "hi" [Draw 0.25; Draw 0.25; Draw 0.25; Draw 0.25]);
    [discriminate | vm_compute; reflexivity].
Defined.

(** ** A parameter that is not a number *)

Lemma round_mul_nan (x : float) : PyFloat.round (PrimFloat.mul x nan) = None.
Proof.
  unfold PyFloat.round. rewrite FloatAxioms.mul_spec.
  change (Prim2SF nan) with S754_nan.
  destruct (Prim2SF x); reflexivity.
Qed.

Lemma sample_step_nan (T : Torch) (vocab : Z) (tc : TrainConfig)
      (last_logits : list float) (u : float) :
  top_p tc = nan -> sample_step T vocab tc last_logits u = None.
Proof.
  intros H. unfold sample_step, PyFloat.int_mul. rewrite H, round_mul_nan.
  reflexivity.
Qed.

Lemma turn_loop_nan (config : Config) (tokenizer : Tokenizer) (T : Torch)
      (M : Model) (tc : TrainConfig) (h : History) (cache0 : list Z)
      (u : float) (evs : list Event) :
  top_p tc = nan ->
  fst (turn_loop config tokenizer T M tc h cache0 (Draw u :: evs)) = Crashed.
Proof.
  intros H. unfold turn_loop.
  destruct (ENABLE_KVCACHE config); cbn [run_loop full_iteration cache_iteration].
  - unfold cache_step. destruct (cache_call _ _ _ _ _ _) as [g row].
    destruct row as [row |]; [| reflexivity].
    now rewrite (sample_step_nan _ _ _ _ _ H).
  - unfold full_step. destruct (last_row _) as [row |]; [| reflexivity].
    now rewrite (sample_step_nan _ _ _ _ _ H).
Qed.

(** X15. After [!top_p nan] the first line sent to the network ends
    the process: the command stores the value, and the first sampling
    step of the next turn raises in [round], in either decode mode and
    whatever the network returns. Nothing that is entered afterwards is
    handled. *)
Theorem nan_top_p_ends_the_process
        (config : Config) (tokenizer : Tokenizer) (T : Torch) (M : Model)
        (float_of_str : string -> option float)
        (s : Session) (text : string) (evs0 evs : list Event) (u : float)
        (lines : list (string * list Event)) :
  float_of_str "nan" = Some nan ->
  is_turn text = true ->
  run_session config tokenizer T M float_of_str s
              (("!top_p nan", evs0) :: (text, Draw u :: evs) :: lines) = None.
Proof.
  intros Hnan Ht.
  destruct (commands_store_nan float_of_str (params s) Hnan) as [Hp _].
  cbn [run_session]. unfold handle_line at 1.
  change (String.eqb "!top_p nan" "!clear") with false.
  change (PyStr.startswith "!top_p nan" "!top_p") with true.
  cbv iota. rewrite Hp. cbn [bind].
  rewrite (handle_line_turn _ _ _ _ _ _ _ _ Ht). cbv zeta.
  cbn [params history kv_cache].
  rewrite turn_loop_nan; reflexivity.
Qed.

Lemma nan_top_p_ends_the_process_witness :
  demo_float_of_str "nan" = Some nan /\ is_turn "hi" = true /\
  run_session (demo_config true) byte_tokenizer RefTorch.ref parity_model
              demo_float_of_str
              (start_session (demo_config true) byte_tokenizer parity_model
                             (demo_params 64 None 1 1))
              (("!top_p nan", []) :: ("hi", Draw 0.25 :: [KeyboardInterrupt])
               :: [("!top_p 0.5", [])]) = None.
Proof.
  split; [reflexivity |]. split; [reflexivity |].
  apply (nan_top_p_ends_the_process
           (demo_config true) byte_tokenizer RefTorch.ref parity_model
           demo_float_of_str); reflexivity.
Defined.

(** ** Loading a checkpoint in half precision *)

Section CheckpointFacts.

Variable Tensor : Type.
Variable to_float16 : Tensor -> Tensor.
Variable torch_load : string -> option (StateDict Tensor).
Variable path_join : string -> string -> string.
Variable config_dir : string.
Variable checkpoint_file : string.

Local Abbreviation load :=
  (load_in_fp16 Tensor to_float16 torch_load path_join config_dir checkpoint_file).

Lemma load_in_fp16_path (model : Net Tensor) (model_path : option string) :
  load model model_path
  = match torch_load (match model_path with
                      | Some (String c p) => String c p
                      | _ => path_join config_dir checkpoint_file
                      end) with
    | None => None
    | Some state_dict =>
        Some {| named_parameters :=
                  map (load_parameter Tensor to_float16 state_dict)
                      (named_parameters Tensor model);
                dtype := Float16 |}
    end.
Proof.
  unfold load_in_fp16. destruct model_path as [[| c p] |]; reflexivity.
Qed.

Lemma load_parameter_covered (state_dict : StateDict Tensor)
      (a b : string * Tensor) :
  fst a = fst b -> dict_get Tensor state_dict (fst a) <> None ->
  load_parameter Tensor to_float16 state_dict a
  = load_parameter Tensor to_float16 state_dict b.
Proof.
  intros Hab Hin. unfold load_parameter. rewrite <- Hab.
  destruct (dict_get Tensor state_dict (fst a)); [reflexivity | contradiction].
Qed.

Lemma map_load_parameter_covered (state_dict : StateDict Tensor)
      (l1 l2 : list (string * Tensor)) :
  map fst l1 = map fst l2 ->
  Forall (fun name => dict_get Tensor state_dict name <> None) (map fst l1) ->
  map (load_parameter Tensor to_float16 state_dict) l1
  = map (load_parameter Tensor to_float16 state_dict) l2.
Proof.
  revert l2. induction l1 as [| a l1 IH]; intros [| b l2] Hn Hc;
    try discriminate Hn; [reflexivity |].
  cbn [map] in *. inversion Hn. inversion Hc. subst.
  rewrite (load_parameter_covered state_dict a b); [| assumption | assumption].
  f_equal. now apply IH.
Qed.

(** X17. What [load_in_fp16] returns does not depend on the data the
    model held for the parameters the checkpoint names: two models with
    the same parameter names, all of them in the checkpoint, load to the
    same model. So the [load_state_dict] of the same checkpoint that
    the driver does just before has no effect on the outcome. *)
Theorem load_in_fp16_overrides_loaded_data
        (model1 model2 : Net Tensor) (model_path : option string)
        (state_dict : StateDict Tensor) :
  torch_load (match model_path with
              | Some (String c p) => String c p
              | _ => path_join config_dir checkpoint_file
              end) = Some state_dict ->
  map fst (named_parameters Tensor model1) = map fst (named_parameters Tensor model2) ->
  Forall (fun name => dict_get Tensor state_dict name <> None)
         (map fst (named_parameters Tensor model1)) ->
  load model1 model_path = load model2 model_path.
Proof.
  intros Hload Hnames Hcov. rewrite !load_in_fp16_path, Hload.
  now rewrite (map_load_parameter_covered state_dict _ _ Hnames Hcov).
Qed.

End CheckpointFacts.

Lemma load_in_fp16_overrides_loaded_data_witness :
  let torch_load := fun path : string =>
                      if String.eqb path "run/ckpt.pt"
                      then Some [("w", 7); ("b", 4); ("unused", 1)] else None in
  let load := load_in_fp16 Z (fun t => 2 * (t / 2)) torch_load
                           (fun a b => (a ++ "/" ++ b)%string) "run" "ckpt.pt" in
  torch_load "run/ckpt.pt" = Some [("w", 7); ("b", 4); ("unused", 1)] /\
  load {| named_parameters := [("w", 1); ("b", 2)]; dtype := Float32 |} None
  = load {| named_parameters := [("w", 5); ("b", 9)]; dtype := Float16 |} None.
Proof.
  split; [reflexivity |].
  apply (load_in_fp16_overrides_loaded_data
           Z (fun t => 2 * (t / 2))
           (fun path : string =>
              if String.eqb path "run/ckpt.pt"
              then Some [("w", 7); ("b", 4); ("unused", 1)] else None)
           (fun a b => (a ++ "/" ++ b)%string) "run" "ckpt.pt"
           {| named_parameters := [("w", 1); ("b", 2)]; dtype := Float32 |}
           {| named_parameters := [("w", 5); ("b", 9)]; dtype := Float16 |}
           None [("w", 7); ("b", 4); ("unused", 1)]).
  - reflexivity.
  - reflexivity.
  - repeat constructor; discriminate.
Defined.

(** ** The history in cache mode *)

Lemma cache_call_history (config : Config) (tokenizer : Tokenizer) (M : Model)
      (tc : TrainConfig) (h1 h2 : History) (g1 g2 : Gen) :
  Py.last_slice h1 = Py.last_slice h2 -> same_but_input g1 g2 ->
  same_but_input (fst (cache_call config tokenizer M tc h1 g1))
                 (fst (cache_call config tokenizer M tc h2 g2)) /\
  snd (cache_call config tokenizer M tc h1 g1)
  = snd (cache_call config tokenizer M tc h2 g2).
Proof.
  destruct g1 as [i1 c1 l1 n1 r1 p1 k1 s1], g2 as [i2 c2 l2 n2 r2 p2 k2 s2].
  unfold same_but_input.
  cbn [cache last_out n_blankline response printed calls sampled].
  intros Hh [<- [<- [<- [<- [<- [<- <-]]]]]].
  unfold cache_call, update. rewrite Hh. cbn [last_out].
  destruct (negb (tensor_truthy l1)) eqn:Hlo;
    cbn [with_input with_call input_ids cache last_out n_blankline
         response printed calls sampled fst snd];
    rewrite ?Hlo; auto 10.
Qed.

Lemma cache_step_history (config : Config) (tokenizer : Tokenizer) (T : Torch)
      (M : Model) (tc : TrainConfig) (h1 h2 : History) (interrupted : bool)
      (g1 g2 : Gen) (u : float) :
  Py.last_slice h1 = Py.last_slice h2 -> same_but_input g1 g2 ->
  fst (cache_step config tokenizer T M tc interrupted h1 g1 u)
  = fst (cache_step config tokenizer T M tc interrupted h2 g2 u) /\
  same_but_input (snd (cache_step config tokenizer T M tc interrupted h1 g1 u))
                 (snd (cache_step config tokenizer T M tc interrupted h2 g2 u)).
Proof.
  intros Hh Hg. unfold cache_step.
  destruct (cache_call_history config tokenizer M tc h1 h2 g1 g2 Hh Hg) as [Hc Hrow].
  destruct (cache_call config tokenizer M tc h1 g1) as [a1 row1],
           (cache_call config tokenizer M tc h2 g2) as [a2 row2].
  cbn [fst snd] in Hc, Hrow. subst row2.
  destruct row1 as [row |]; [| now split].
  destruct (sample_step _ _ _ _ _) as [s |]; [| now split].
  destruct Hc as [Q1 [Q2 [Q3 [Q4 [Q5 [Q6 Q7]]]]]].
  set (b1 := with_sample a1 (input_ids a1) (Some (token_id s)) (token_id s)).
  set (b2 := with_sample a2 (input_ids a2) (Some (token_id s)) (token_id s)).
  pose proof (stop_or_emit_same tokenizer interrupted b1 b2 s Q3 Q4 Q5) as Hsame.
  pose proof (stop_or_emit_frame tokenizer interrupted b1 s) as F1.
  pose proof (stop_or_emit_frame tokenizer interrupted b2 s) as F2.
  cbv zeta in Hsame, F1, F2.
  destruct Hsame as [S0 [S1 [S2 S3]]].
  destruct F1 as [_ [A2 [A3 [A4 A5]]]]. destruct F2 as [_ [B2 [B3 [B4 B5]]]].
  split; [exact S0 |]. unfold same_but_input.
  rewrite A2, A3, A4, A5, B2, B3, B4, B5. unfold b1, b2.
  cbn [with_sample cache last_out calls sampled]. rewrite Q1, Q6, Q7. auto 10.
Qed.

Lemma cache_iteration_history (config : Config) (tokenizer : Tokenizer) (T : Torch)
      (M : Model) (tc : TrainConfig) (h1 h2 : History) (g1 g2 : Gen) (ev : Event) :
  Py.last_slice h1 = Py.last_slice h2 -> same_but_input g1 g2 ->
  fst (cache_iteration config tokenizer T M tc h1 g1 ev)
  = fst (cache_iteration config tokenizer T M tc h2 g2 ev) /\
  same_but_input (snd (cache_iteration config tokenizer T M tc h1 g1 ev))
                 (snd (cache_iteration config tokenizer T M tc h2 g2 ev)).
Proof.
  intros Hh Hg. destruct ev as [u | | | u]; cbn [cache_iteration];
    try exact (cache_step_history config tokenizer T M tc h1 h2 _ g1 g2 u Hh Hg).
  - destruct Hg as [Q1 [Q2 [Q3 [Q4 [Q5 [Q6 Q7]]]]]]. unfold same_but_input. cbn.
    rewrite Q1, Q2, Q3, Q4, Q5, Q6, Q7. auto 10.
  - destruct (cache_call_history config tokenizer M tc h1 h2 g1 g2 Hh Hg)
      as [[Q1 [Q2 [Q3 [Q4 [Q5 [Q6 Q7]]]]]] _].
    unfold same_but_input. cbn [fst snd with_print cache last_out n_blankline
                                response printed calls sampled].
    rewrite Q1, Q2, Q3, Q4, Q5, Q6, Q7. auto 10.
Qed.

Lemma run_loop_history (config : Config) (tokenizer : Tokenizer) (T : Torch)
      (M : Model) (tc : TrainConfig) (h1 h2 : History) (evs : list Event) :
  Py.last_slice h1 = Py.last_slice h2 ->
  forall g1 g2, same_but_input g1 g2 ->
    fst (run_loop (cache_iteration config tokenizer T M tc h1) evs g1)
    = fst (run_loop (cache_iteration config tokenizer T M tc h2) evs g2) /\
    same_but_input (snd (run_loop (cache_iteration config tokenizer T M tc h1) evs g1))
                   (snd (run_loop (cache_iteration config tokenizer T M tc h2) evs g2)).
Proof.
  intros Hh. induction evs as [| ev evs IH]; intros g1 g2 Hg; [cbn; auto |].
  cbn [run_loop].
  destruct (cache_iteration_history config tokenizer T M tc h1 h2 g1 g2 ev Hh Hg)
    as [Ho Hs].
  destruct (cache_iteration config tokenizer T M tc h1 g1 ev) as [o1 g1'],
           (cache_iteration config tokenizer T M tc h2 g2 ev) as [o2 g2'].
  cbn [fst snd] in Ho, Hs. subst o2.
  destruct o1; cbn [fst snd]; auto.
Qed.

Lemma last_slice_snoc {A : Type} (l : list A) (a : A) : Py.last_slice (l ++ [a]) = [a].
Proof.
  unfold Py.last_slice, Py.slice_from. rewrite length_app. cbn [List.length].
  replace (if -1 <? 0 then _ else _) with (Z.of_nat (List.length l))
    by (cbn [Z.ltb Z.compare]; lia).
  replace (Z.to_nat _) with (List.length l) by lia.
  now rewrite skipn_app, skipn_all, Nat.sub_diag.
Qed.

(** X18. With the cache on, the network never sees the history: the
    answer to a turn, the console output and the cache that results
    depend on the text of the turn, the parameters and the cache, and
    not on the turns the history holds. *)
Theorem cache_mode_ignores_history
        (config : Config) (tokenizer : Tokenizer) (T : Torch) (M : Model)
        (float_of_str : string -> option float)
        (s1 s2 : Session) (text : string) (evs : list Event) :
  ENABLE_KVCACHE config = true -> is_turn text = true ->
  params s1 = params s2 -> kv_cache s1 = kv_cache s2 ->
  match handle_line config tokenizer T M float_of_str s1 text evs,
        handle_line config tokenizer T M float_of_str s2 text evs with
  | Some a, Some b =>
      kv_cache a = kv_cache b /\
      exists answer out,
        history a = history s1 ++ [(text, answer)] /\
        history b = history s2 ++ [(text, answer)] /\
        console a = console s1 ++ out /\ console b = console s2 ++ out
  | None, None => True
  | _, _ => False
  end.
Proof.
  intros Hkv Ht Hp Hc. rewrite !(handle_line_turn _ _ _ _ _ _ _ _ Ht). cbv zeta.
  unfold turn_loop. rewrite Hkv, <- Hp, <- Hc.
  destruct (run_loop_history config tokenizer T M (params s1)
              (history s1 ++ [(text, EmptyString)]) (history s2 ++ [(text, EmptyString)])
              evs (eq_trans (last_slice_snoc _ _) (eq_sym (last_slice_snoc _ _)))
              (start_turn config tokenizer (params s1)
                          (history s1 ++ [(text, EmptyString)]) (kv_cache s1))
              (start_turn config tokenizer (params s1)
                          (history s2 ++ [(text, EmptyString)]) (kv_cache s1))
              (conj eq_refl (conj eq_refl (conj eq_refl (conj eq_refl
                 (conj eq_refl (conj eq_refl eq_refl)))))))
    as [Ho [Hca [_ [_ [Hr [Hpr _]]]]]].
  destruct (run_loop (cache_iteration config tokenizer T M (params s1)
                        (history s1 ++ [(text, EmptyString)])) evs _) as [o1 g1],
           (run_loop (cache_iteration config tokenizer T M (params s1)
                        (history s2 ++ [(text, EmptyString)])) evs _) as [o2 g2].
  cbn [fst snd] in *. subst o2.
  destruct o1; try exact I;
    (split; [exact Hca |]);
    exists (PyStr.strip (response g1)), (printed g1);
    cbn [history console]; rewrite Hr, Hpr; auto.
Qed.

Lemma cache_mode_ignores_history_witness :
  let cfg := demo_config true in
  let tc := demo_params 64 (Some "Be terse") 1 1 in
  let s1 := start_session cfg byte_tokenizer parity_model tc in
  let s2 := {| history := [("an earlier turn", "its answer")]; params := tc;
               kv_cache := kv_cache s1; console := [HistoryCleared] |} in
  let evs := [Draw 0.25; Draw 0.25; Draw 0.25; Draw 0.25] in
  ENABLE_KVCACHE cfg = true /\ is_turn "hi" = true /\
  match handle_line cfg byte_tokenizer RefTorch.ref parity_model demo_float_of_str
                    s1 "hi" evs,
        handle_line cfg byte_tokenizer RefTorch.ref parity_model demo_float_of_str
                    s2 "hi" evs with
  | Some a, Some b =>
      kv_cache a = kv_cache b /\
      exists answer out,
        history a = history s1 ++ [("hi", answer)] /\
        history b = history s2 ++ [("hi", answer)] /\
        console a = console s1 ++ out /\ console b = console s2 ++ out
  | None, None => True
  | _, _ => False
  end.
Proof.
  cbv zeta. split; [reflexivity |]. split; [reflexivity |].
  apply (cache_mode_ignores_history
           (demo_config true) byte_tokenizer RefTorch.ref parity_model
           demo_float_of_str
           (start_session (demo_config true) byte_tokenizer parity_model
                          (demo_params 64 (Some "Be terse") 1 1))
           {| history := [("an earlier turn", "its answer")];
              params := demo_params 64 (Some "Be terse") 1 1;
              kv_cache := kv_cache (start_session (demo_config true) byte_tokenizer
                                      parity_model
                                      (demo_params 64 (Some "Be terse") 1 1));
              console := [HistoryCleared] |}
           "hi" [Draw 0.25; Draw 0.25; Draw 0.25; Draw 0.25]);
    reflexivity.
Defined.
